(** * Billing calculation engine of the invoice builder

    A shallow embedding of [utils/calculations.ts] (line amounts, the reverse
    metrics resolver, totals, date normalisation), of the item handlers, the
    CSV row normaliser, the invoice counter and the saved invoices of
    [App.tsx] and of the helpers of [services/geminiService.ts], followed by
    the properties the specification states about them and by further
    properties of the program.

    ** Modelling conventions

    - A JavaScript [number] is modelled by [num]: a finite value is the exact
      rational it denotes ([Qc], rationals in lowest terms, so that equal
      numbers are equal terms), next to [NaN], [+Infinity] and [-Infinity].
      The arithmetic is read twice. In the first reading the operations on
      finite values are exact: the rounding of IEEE-754 doubles to 53 bits
      and overflow to infinity are left out, and a decimal literal such as
      [0.15] is the decimal fraction it writes. In the second reading, the
      module [B64], every operation, literal and numeric text gives the
      double nearest to the exact result, a tie going to the even
      significand, with gradual underflow and overflow to infinity; the
      line amount, the totals, the edits of an item and the rows of an
      import are given in this reading as well. In both the sign of zero
      is not modelled ([-0 === 0] in JavaScript, and [x / 0] is taken as
      [x / +0]).
    - A JavaScript string is a [string] of 8-bit characters; case conversion
      acts on the ASCII letters.
    - [Math.random] and [Date.parse] are inputs: the fresh identifier of an
      imported item is a parameter of the row normaliser, and the host's
      date parser is a variable of the section on dates.
    - [new Date()], [Date.now()], the answer to [window.confirm] and the
      response of the model are inputs as well; what a handler reads from
      [localStorage] is an argument and what it writes there a result. *)

From Stdlib Require Import ZArith QArith Qabs Qcanon Qround Qcabs Qpower Lia Lqa.
From Stdlib Require Import Bool List String Ascii DecimalString DecimalNat.
Import ListNotations.

Set Implicit Arguments.

(** ** JavaScript numbers *)

Module JS.

Inductive num : Type :=
| NaN
| PInf
| NInf
| Fin (q : Qc).

Definition ofQ (q : Q) : num := Fin (Q2Qc q).
Definition ofZ (z : Z) : num := ofQ (inject_Z z).

(** The infinity whose sign is that of a comparison with zero; a zero
    operand gives [NaN] (as in [Infinity * 0]). *)
Definition inf_of (c : comparison) : num :=
  match c with
  | Gt => PInf
  | Lt => NInf
  | Eq => NaN
  end.

Definition sgn (q : Qc) : comparison := (q ?= 0)%Qc.

Definition neg (a : num) : num :=
  match a with
  | NaN => NaN
  | PInf => NInf
  | NInf => PInf
  | Fin q => Fin (- q)%Qc
  end.

(** [a + b] *)
Definition add (a b : num) : num :=
  match a, b with
  | NaN, _ | _, NaN => NaN
  | PInf, NInf | NInf, PInf => NaN
  | PInf, _ | _, PInf => PInf
  | NInf, _ | _, NInf => NInf
  | Fin x, Fin y => Fin (x + y)%Qc
  end.

(** [a - b] *)
Definition sub (a b : num) : num := add a (neg b).

(** [a * b] *)
Definition mul (a b : num) : num :=
  match a, b with
  | NaN, _ | _, NaN => NaN
  | Fin x, Fin y => Fin (x * y)%Qc
  | PInf, Fin y | Fin y, PInf => inf_of (sgn y)
  | NInf, Fin y | Fin y, NInf => inf_of (CompOpp (sgn y))
  | PInf, PInf | NInf, NInf => PInf
  | PInf, NInf | NInf, PInf => NInf
  end.

(** [a / b]; a finite value over zero is an infinity, [0 / 0] is [NaN]. *)
Definition div (a b : num) : num :=
  match a, b with
  | NaN, _ | _, NaN => NaN
  | Fin x, Fin y =>
      match sgn y with
      | Eq => inf_of (sgn x)
      | _ => Fin (x / y)%Qc
      end
  | Fin _, (PInf | NInf) => Fin 0%Qc
  | PInf, Fin y => match sgn y with Lt => NInf | _ => PInf end
  | NInf, Fin y => match sgn y with Lt => PInf | _ => NInf end
  | (PInf | NInf), (PInf | NInf) => NaN
  end.

(** [Math.round]: the nearest integer, a tie going towards [+Infinity]
    ([floor (x + 1/2)]). *)
Definition roundZ (q : Qc) : Z := Qfloor (q + Q2Qc (1 # 2))%Qc.

Definition round (a : num) : num :=
  match a with
  | Fin q => ofZ (roundZ q)
  | other => other
  end.

(** [Math.abs] *)
Definition abs (a : num) : num :=
  match a with
  | NaN => NaN
  | PInf | NInf => PInf
  | Fin q => Fin (Qcabs q)
  end.

Definition Qcltb (x y : Qc) : bool :=
  match (x ?= y)%Qc with
  | Lt => true
  | _ => false
  end.

(** [a < b]: false as soon as an operand is [NaN]. *)
Definition lt (a b : num) : bool :=
  match a, b with
  | NaN, _ | _, NaN => false
  | _, NInf => false
  | PInf, _ => false
  | NInf, _ => true
  | Fin _, PInf => true
  | Fin x, Fin y => Qcltb x y
  end.

(** [a > b] *)
Definition gt (a b : num) : bool := lt b a.

(** [isNaN(a)] on a number *)
Definition isNaN (a : num) : bool :=
  match a with
  | NaN => true
  | _ => false
  end.

(** [a === 0] on a number *)
Definition is_zero (a : num) : bool :=
  match a with
  | Fin q => match sgn q with Eq => true | _ => false end
  | _ => false
  end.

(** Truthiness of a number: every number but [0] and [NaN]. *)
Definition truthy (a : num) : bool :=
  match a with
  | NaN => false
  | Fin q => negb (is_zero (Fin q))
  | _ => true
  end.

(** [Number.isFinite] *)
Definition is_finite (a : num) : bool :=
  match a with
  | Fin _ => true
  | _ => false
  end.

End JS.

Import JS.

Open Scope string_scope.

Declare Scope num_scope.
Delimit Scope num_scope with num.
Bind Scope num_scope with num.
Infix "+" := JS.add : num_scope.
Infix "-" := JS.sub : num_scope.
Infix "*" := JS.mul : num_scope.
Infix "/" := JS.div : num_scope.

(** ** JavaScript strings *)

Module Str.

Local Open Scope string_scope.
Local Open Scope char_scope.

Definition code (c : ascii) : N := N_of_ascii c.

Definition between (lo hi : N) (c : ascii) : bool :=
  ((lo <=? code c) && (code c <=? hi))%N.

(** [\d] *)
Definition isDigit (c : ascii) : bool := between 48 57 c.

Definition isUpper (c : ascii) : bool := between 65 90 c.

(** White space and line terminators that [trim] and the number parsers
    skip: tab, line feed, vertical tab, form feed, carriage return, space. *)
Definition isWhite (c : ascii) : bool := between 9 13 c || (code c =? 32)%N.

Definition lowerChar (c : ascii) : ascii :=
  if isUpper c then ascii_of_N (code c + 32) else c.

(** [s.toLowerCase()] *)
Fixpoint toLowerCase (s : string) : string :=
  match s with
  | EmptyString => EmptyString
  | String c t => String (lowerChar c) (toLowerCase t)
  end.

(** [s.includes(x)]: [x] starts at some position of [s]. *)
Fixpoint includes (s x : string) : bool :=
  String.prefix x s ||
  match s with
  | EmptyString => false
  | String _ t => includes t x
  end.

(** A literal of a regular expression under the [i] flag, tried at the
    start of [s]: characters are compared up to the case of letters. *)
Fixpoint prefix_ci (lit s : string) : bool :=
  match lit, s with
  | EmptyString, _ => true
  | String a lit', String b s' =>
      Ascii.eqb (lowerChar a) (lowerChar b) && prefix_ci lit' s'
  | String _ _, EmptyString => false
  end.

(** [/l1|l2|.../i.test(s)] for literals [l1], [l2], ...: the matcher tries,
    at each position from the left, each alternative in turn. *)
Fixpoint test_alt_ci (alts : list string) (s : string) : bool :=
  existsb (fun lit => prefix_ci lit s) alts ||
  match s with
  | EmptyString => false
  | String _ t => test_alt_ci alts t
  end.

Fixpoint replicate (n : nat) (c : ascii) : string :=
  match n with
  | O => EmptyString
  | S k => String c (replicate k c)
  end.

(** [s.padStart(n, c)] for a one-character filler. *)
Definition padStart (n : nat) (c : ascii) (s : string) : string :=
  (replicate (n - String.length s) c ++ s)%string.

(** [s.split(sep)] for a one-character separator. *)
Fixpoint split (sep : ascii) (s : string) : list string :=
  match s with
  | EmptyString => [EmptyString]
  | String c t =>
      if Ascii.eqb c sep then EmptyString :: split sep t
      else
        match split sep t with
        | w :: ws => String c w :: ws
        | [] => [String c EmptyString]
        end
  end.

(** The longest run of digits at the start of [s], and what follows it. *)
Fixpoint takeDigits (s : string) : string * string :=
  match s with
  | String c t =>
      if isDigit c
      then let (d, r) := takeDigits t in (String c d, r)
      else (EmptyString, s)
  | EmptyString => (EmptyString, EmptyString)
  end.

Fixpoint allDigits (s : string) : bool :=
  match s with
  | EmptyString => true
  | String c t => isDigit c && allDigits t
  end.

Fixpoint trimStart (s : string) : string :=
  match s with
  | String c t => if isWhite c then trimStart t else s
  | EmptyString => EmptyString
  end.

Fixpoint rev_onto (s acc : string) : string :=
  match s with
  | EmptyString => acc
  | String c t => rev_onto t (String c acc)
  end.

Definition rev (s : string) : string := rev_onto s EmptyString.

Definition trimEnd (s : string) : string := rev (trimStart (rev s)).

(** [s.trim()] *)
Definition trim (s : string) : string := trimEnd (trimStart s).

(** *** Numeric literals *)

Definition digitVal (c : ascii) : Z := Z.of_N (code c) - 48.

Fixpoint digitsFrom (acc : Z) (s : string) : Z :=
  match s with
  | EmptyString => acc
  | String c t => digitsFrom (10 * acc + digitVal c) t
  end.

(** The value of a string of decimal digits. *)
Definition digitsToZ (s : string) : Z := digitsFrom 0 s.

(** [m * 10^e] as a rational. *)
Definition scale10 (m e : Z) : Q :=
  match e with
  | Zneg p => m # Z.to_pos (10 ^ Zpos p)
  | _ => inject_Z (m * 10 ^ e)
  end.

(** An optional sign; the boolean says "negative". *)
Definition takeSign (s : string) : bool * string :=
  match s with
  | String "-" t => (true, t)
  | String "+" t => (false, t)
  | _ => (false, s)
  end.

(** The exponent part [e±ddd] at the start of [s], if it is complete. *)
Definition takeExponent (s : string) : Z * string :=
  match s with
  | String c t =>
      if Ascii.eqb c "e" || Ascii.eqb c "E"
      then
        let (neg, t') := takeSign t in
        let (ds, r) := takeDigits t' in
        match ds with
        | EmptyString => (0%Z, s)
        | _ => ((if neg then - digitsToZ ds else digitsToZ ds)%Z, r)
        end
      else (0%Z, s)
  | EmptyString => (0%Z, s)
  end.

(** The longest prefix of [s] that is an unsigned decimal literal
    ([ddd], [ddd.], [ddd.ddd], [.ddd], each with an optional exponent):
    its value and the rest of the string. *)
Definition scanDecimal (s : string) : option (Q * string) :=
  let (ip, r1) := takeDigits s in
  let '(fp, r2) :=
    match r1 with
    | String "." t =>
        let (f, r) := takeDigits t in
        match ip, f with
        | EmptyString, EmptyString => (EmptyString, r1)
        | _, _ => (f, r)
        end
    | _ => (EmptyString, r1)
    end in
  match ip, fp with
  | EmptyString, EmptyString => None
  | _, _ =>
      let (e, r3) := takeExponent r2 in
      Some (scale10 (digitsToZ (ip ++ fp)%string)
                    (e - Z.of_nat (String.length fp)), r3)
  end.

Definition signed (neg : bool) (a : num) : num :=
  if neg then JS.neg a else a.

(** A signed decimal literal or [Infinity] at the start of [s]. *)
Definition scanSignedDecimal (s : string) : option (num * string) :=
  let (neg, t) := takeSign s in
  if String.prefix "Infinity" t
  then Some (signed neg PInf, String.substring 8 (String.length t - 8) t)
  else
    match scanDecimal t with
    | Some (q, r) => Some (signed neg (ofQ q), r)
    | None => None
    end.

(** [parseFloat(s)]: leading white space is skipped, the longest prefix
    that is a decimal literal is read and the rest ignored; [NaN] when there
    is no such prefix. *)
Definition parseFloat (s : string) : num :=
  match scanSignedDecimal (trimStart s) with
  | Some (a, _) => a
  | None => NaN
  end.

Definition radixDigit (radix : Z) (c : ascii) : option Z :=
  let v :=
    if isDigit c then digitVal c
    else if between 97 102 c then (Z.of_N (code c) - 87)%Z
    else if between 65 70 c then (Z.of_N (code c) - 55)%Z
    else 99%Z in
  if (v <? radix)%Z then Some v else None.

Fixpoint radixFrom (radix acc : Z) (s : string) : option Z :=
  match s with
  | EmptyString => Some acc
  | String c t =>
      match radixDigit radix c with
      | Some v => radixFrom radix (radix * acc + v) t
      | None => None
      end
  end.

(** [0x..], [0o..], [0b..] *)
Definition scanRadix (s : string) : option num :=
  match s with
  | String "0" (String p (String c t)) =>
      let radix :=
        if Ascii.eqb p "x" || Ascii.eqb p "X" then Some 16%Z
        else if Ascii.eqb p "o" || Ascii.eqb p "O" then Some 8%Z
        else if Ascii.eqb p "b" || Ascii.eqb p "B" then Some 2%Z
        else None in
      match radix with
      | Some r =>
          match radixFrom r 0 (String c t) with
          | Some v => Some (ofZ v)
          | None => Some NaN
          end
      | None => None
      end
  | _ => None
  end.

(** [Number(s)] on a string: the whole string, white space at both ends
    apart, must be a numeric literal; the empty string is [0]. *)
Definition toNumber (s : string) : num :=
  let t := trim s in
  match t with
  | EmptyString => ofZ 0
  | _ =>
      match scanRadix t with
      | Some a => a
      | None =>
          match scanSignedDecimal t with
          | Some (a, EmptyString) => a
          | _ => NaN
          end
      end
  end.

End Str.

(** ** JavaScript values

    The declared types of [types.ts] are not checked when the program runs:
    a form field hands its text to a handler ([value: string | number]), the
    handler stores it as it is, and an arithmetic operator converts its
    operands when it meets them. [jsval] is what may sit where a [number]
    is declared. *)
Inductive jsval : Type :=
| VUndef
| VNum (n : num)
| VStr (s : string).

(** The numeric value an arithmetic operator sees ([ToNumber]). *)
Definition toNum (v : jsval) : num :=
  match v with
  | VUndef => NaN
  | VNum n => n
  | VStr s => Str.toNumber s
  end.

(** Truthiness: a number other than [0] and [NaN], a non-empty string. *)
Definition truthyV (v : jsval) : bool :=
  match v with
  | VUndef => false
  | VNum n => JS.truthy n
  | VStr s => negb (s =? "")
  end.

(** [v || d] *)
Definition orElse (v d : jsval) : jsval := if truthyV v then v else d.

(** ** types.ts *)

(** ['service' | 'expense'] *)
Inductive LineItemType : Type := service | expense.

Definition LineItemType_eqb (a b : LineItemType) : bool :=
  match a, b with
  | service, service | expense, expense => true
  | _, _ => false
  end.

(** A line item. [date] is optional and read as [item.date || '']: the
    empty string stands for a missing date. [hours] and [rate] are declared
    [number]; they hold what the handlers put there, a number or the text of
    an input. [amount] is always written as a number. *)
Record LineItem : Type := mkItem {
  id : string;
  type : LineItemType;
  date : string;
  description : string;
  hours : jsval;
  rate : jsval;
  amount : num
}.

Record Totals : Type := mkTotals {
  gross : num;
  gst : num;
  tax : num;
  clientToPay : num;
  net : num
}.

(** ** utils/calculations.ts *)

(** [calculateLineAmount (hours, rate)]: the product converts whatever
    the caller passes. *)
Definition calculateLineAmount (hours rate : jsval) : num :=
  JS.round (toNum hours * toNum rate).

(** The running best candidate of the resolver's loop. *)
Record BestOption : Type := mkBest {
  bo_hours : num;
  bo_rate : num;
  bo_amount : num;
  bo_diff : num
}.

(** The object [{ hours, rate, amount }] the resolver returns. *)
Record Metrics : Type := mkMetrics {
  m_hours : num;
  m_rate : num;
  m_amount : num
}.

Definition rateOptions : list num := [ofZ 60; ofZ 65].

(** One turn of the loop [for (const rate of rateOptions)]. *)
Definition resolveStep (targetAmount : num) (bestOption : BestOption)
    (rate : num) : BestOption :=
  let hours := JS.round (targetAmount / rate) in
  let hours := if JS.lt hours (ofZ 1) then ofZ 1 else hours in
  let calculatedAmount := (hours * rate)%num in
  let diff := JS.abs (targetAmount - calculatedAmount) in
  if JS.lt diff (bo_diff bestOption)
  then mkBest hours rate calculatedAmount diff
  else bestOption.

(** [calculateMetricsFromAmount (targetAmount)] *)
Definition calculateMetricsFromAmount (targetAmount : num) : Metrics :=
  if JS.is_zero targetAmount
  then mkMetrics (ofZ 0) (ofZ 65) (ofZ 0)
  else
    let bestOption :=
      fold_left (resolveStep targetAmount) rateOptions
        (mkBest (ofZ 0) (ofZ 65) (ofZ 0) PInf) in
    mkMetrics (bo_hours bestOption) (bo_rate bestOption) (bo_amount bestOption).

(** [items.reduce((sum, item) => sum + item.amount, 0)] *)
Definition sumAmounts (items : list LineItem) : num :=
  fold_left (fun sum item => (sum + amount item)%num) items (ofZ 0).

(** The local [serviceGross] of [calculateTotals]. *)
Definition serviceGross (items : list LineItem) : num :=
  let serviceItems := filter (fun i => LineItemType_eqb (type i) service) items in
  sumAmounts serviceItems.

(** [calculateTotals (items)] *)
Definition calculateTotals (items : list LineItem) : Totals :=
  let gross := sumAmounts items in
  let gst := JS.round (serviceGross items * ofQ (15 # 100)) in
  let tax := JS.round (serviceGross items * ofQ (20 # 100)) in
  let clientToPay := (gross + gst)%num in
  let net := (gross - tax)%num in
  mkTotals gross gst tax clientToPay net.

(** A pattern that is a sequence of character classes, anchored at both
    ends. *)
Fixpoint matchClasses (p : list (ascii -> bool)) (s : string) : bool :=
  match p, s with
  | [], EmptyString => true
  | f :: p', String c t => f c && matchClasses p' t
  | _, _ => false
  end.

Definition isDash (c : ascii) : bool := Ascii.eqb c "-".

(** [[/-]] *)
Definition isDateSep (c : ascii) : bool := Ascii.eqb c "/" || Ascii.eqb c "-".

(** [/^\d{4}-\d{2}-\d{2}$/.test(s)] *)
Definition isoDateRe (s : string) : bool :=
  matchClasses
    [Str.isDigit; Str.isDigit; Str.isDigit; Str.isDigit; isDash;
     Str.isDigit; Str.isDigit; isDash; Str.isDigit; Str.isDigit] s.

(** The ways [\d{1,2}] matches at the start of [s], the longer first:
    the digits matched and the rest of the string. *)
Definition digits12 (s : string) : list (string * string) :=
  match s with
  | String a t =>
      if Str.isDigit a then
        match t with
        | String b t' =>
            if Str.isDigit b
            then [(String a (String b ""), t'); (String a "", t)]
            else [(String a "", t)]
        | EmptyString => [(String a "", t)]
        end
      else []
  | EmptyString => []
  end.

Fixpoint firstSome {A B : Type} (f : A -> option B) (l : list A) : option B :=
  match l with
  | [] => None
  | x :: l' =>
      match f x with
      | Some y => Some y
      | None => firstSome f l'
      end
  end.

(** [s.match(/^(\d{1,2})[/-](\d{1,2})[/-](\d{4})$/)]: the three groups. *)
Definition matchDMY (s : string) : option (string * string * string) :=
  firstSome (fun '(d, r1) =>
    match r1 with
    | String c1 r2 =>
        if isDateSep c1 then
          firstSome (fun '(m, r3) =>
            match r3 with
            | String c2 y =>
                if isDateSep c2 &&
                   matchClasses [Str.isDigit; Str.isDigit; Str.isDigit; Str.isDigit] y
                then Some (d, m, y)
                else None
            | EmptyString => None
            end) (digits12 r2)
        else None
    | EmptyString => None
    end) (digits12 s).

(** The element of a destructured array; a missing one prints as
    [undefined]. *)
Definition part (i : nat) (parts : list string) : string :=
  nth i parts "undefined".

(** [formatDateForDisplay (dateStr)] *)
Definition formatDateForDisplay (dateStr : string) : string :=
  if dateStr =? "" then ""
  else if isoDateRe dateStr then
    let parts := Str.split "-" dateStr in
    let y := part 0 parts in
    let m := part 1 parts in
    let d := part 2 parts in
    d ++ "/" ++ m ++ "/" ++ y
  else dateStr.

Section Host.

(** The host's date parser: [Date.parse(s)], a time stamp or [NaN], and
    [new Date(t).toISOString()]. *)
Variable Date_parse : string -> num.
Variable Date_toISOString : num -> string.

(** [normalizeDateToISO (dateStr)] *)
Definition normalizeDateToISO (dateStr : string) : string :=
  if dateStr =? "" then ""
  else if isoDateRe dateStr then dateStr
  else
    match matchDMY dateStr with
    | Some (d, m, y) =>
        y ++ "-" ++ Str.padStart 2 "0" m ++ "-" ++ Str.padStart 2 "0" d
    | None =>
        let timestamp := Date_parse dateStr in
        if negb (JS.isNaN timestamp)
        then part 0 (Str.split "T" (Date_toISOString timestamp))
        else dateStr
    end.

End Host.

(** ** App.tsx: editing an item *)

(** A call [handleItemChange(id, field, value)]: the field and the value
    it comes with. The category button passes the other category, the text
    inputs pass their text; the inputs of [hours], [rate] and [amount]
    pass [e.target.value], the handler accepts [string | number]. *)
Inductive Edit : Type :=
| EditId (value : string)
| EditType (value : LineItemType)
| EditDate (value : string)
| EditDescription (value : string)
| EditHours (value : jsval)
| EditRate (value : jsval)
| EditAmount (value : jsval).

(** [value === '' ? 0 : Number(value)] *)
Definition valOf (value : jsval) : num :=
  match value with
  | VStr "" => ofZ 0
  | _ => toNum value
  end.

(** The body of the [map] in [handleItemChange], for the item whose id
    matches: the item with the updates spread over it. *)
Definition changeItem (e : Edit) (item : LineItem) : LineItem :=
  match e with
  | EditType expense =>
      mkItem (id item) expense (date item) (description item)
        (VNum (ofZ 1)) (VNum (amount item)) (amount item)
  | EditType service =>
      let h := orElse (hours item) (VNum (ofZ 1)) in
      mkItem (id item) service (date item) (description item)
        h (VNum (amount item / toNum h)) (amount item)
  | EditAmount value =>
      let val := valOf value in
      let h := orElse (hours item) (VNum (ofZ 1)) in
      mkItem (id item) (type item) (date item) (description item)
        h (VNum (val / toNum h)) val
  | EditHours value =>
      let h := VNum (valOf value) in
      let r := rate item in
      mkItem (id item) (type item) (date item) (description item)
        value (rate item)
        (calculateLineAmount (orElse h (VNum (ofZ 0))) (orElse r (VNum (ofZ 0))))
  | EditRate value =>
      let h := hours item in
      let r := VNum (valOf value) in
      mkItem (id item) (type item) (date item) (description item)
        (hours item) value
        (calculateLineAmount (orElse h (VNum (ofZ 0))) (orElse r (VNum (ofZ 0))))
  | EditId value =>
      mkItem value (type item) (date item) (description item)
        (hours item) (rate item) (amount item)
  | EditDate value =>
      mkItem (id item) (type item) value (description item)
        (hours item) (rate item) (amount item)
  | EditDescription value =>
      mkItem (id item) (type item) (date item) value
        (hours item) (rate item) (amount item)
  end.

(** [handleItemChange (id, field, value)], as a function of the previous
    items. *)
Definition handleItemChange (i : string) (e : Edit) (prev : list LineItem)
    : list LineItem :=
  map (fun item => if negb (id item =? i) then item else changeItem e item) prev.

(** The items of a fresh form ([useState] in [App]). *)
Definition initialItems : list LineItem :=
  [mkItem "1" service "" "Residential Build" (VNum (ofZ 0)) (VNum (ofZ 65)) (ofZ 0)].

(** The body of the [map] in [handleAmountBlur] for the matching item. *)
Definition blurItem (item : LineItem) : LineItem :=
  match type item with
  | service =>
      let metrics := calculateMetricsFromAmount (amount item) in
      mkItem (id item) (type item) (date item) (description item)
        (VNum (m_hours metrics)) (VNum (m_rate metrics)) (m_amount metrics)
  | expense => item
  end.

(** [handleAmountBlur (id)] *)
Definition handleAmountBlur (i : string) (prev : list LineItem) : list LineItem :=
  map (fun item => if negb (id item =? i) then item else blurItem item) prev.

(** ** App.tsx: importing a row of a CSV file *)

(** A parsed row: the header of each column and the text of its cell, in
    the order of the columns ([Object.keys(row)]). Headers are distinct. *)
Definition Row : Type := list (string * string).

(** [row[k]], [None] for [undefined] *)
Fixpoint rowGet (row : Row) (k : string) : option string :=
  match row with
  | [] => None
  | (k', v) :: row' => if k' =? k then Some v else rowGet row' k
  end.

(** [v !== undefined && v !== null && v !== ''] *)
Definition present (v : option string) : bool :=
  match v with
  | Some s => negb (s =? "")
  | None => false
  end.

(** The helper [getRowValue (...candidates)] of the row callback. *)
Definition getRowValue (row : Row) (candidates : list string) : option string :=
  match firstSome (fun c =>
          if present (rowGet row c) then rowGet row c else None) candidates with
  | Some v => Some v
  | None =>
      let rowKeys := map fst row in
      firstSome (fun c =>
        match find (fun k => Str.toLowerCase k =? Str.toLowerCase c) rowKeys with
        | Some foundKey =>
            if negb (foundKey =? "") && present (rowGet row foundKey)
            then rowGet row foundKey
            else None
        | None => None
        end) candidates
  end.

(** [parseFloat] of a cell that may be [undefined] *)
Definition parseCell (v : option string) : num :=
  match v with
  | Some s => Str.parseFloat s
  | None => NaN
  end.

(** [v || ''] *)
Definition orEmpty (v : option string) : string :=
  match v with
  | Some s => s
  | None => ""
  end.

(** The alternatives of the regular expression of the "smart type
    detection". *)
Definition expenseKeywords : list string :=
  ["material"; "mitre 10"; "bunnings"; "placemakers"; "carters"; "itm";
   "fuel"; "parking"; "expense"; "reimburse"; "cost"; "hardware"; "fasten";
   "screw"; "nail"; "timber"; "concrete"; "paint"; "hire"; "consumable";
   "store"; "merchant"].

Definition amountKeys : list string :=
  ["amount"; "total"; "line total"; "gross"; "amt"].
Definition hoursKeys : list string :=
  ["hours"; "hrs"; "quantity"; "qty"; "count"; "quantity (hrs)"].
Definition rateKeys : list string :=
  ["rate"; "unit price"; "cost"; "price"; "unit cost"; "rate ($)"].
Definition descKeys : list string :=
  ["description"; "item"; "activity"; "details"; "memo"; "notes"; "task"].
Definition dateKeys : list string :=
  ["date"; "transaction date"; "service date"; "work date"; "invoice date"].
Definition typeKeys : list string := ["type"; "category"].

(** The "smart type detection" of a row. *)
Definition rowType (row : Row) : LineItemType :=
  let description := orEmpty (getRowValue row descKeys) in
  let lowerDesc := Str.toLowerCase description in
  let explicitType := getRowValue row typeKeys in
  let isExplicitExpense :=
    match explicitType with
    | Some t => Str.includes (Str.toLowerCase t) "expense"
    | None => false
    end in
  let isImplicitExpense := Str.test_alt_ci expenseKeywords lowerDesc in
  if isExplicitExpense || isImplicitExpense then expense else service.

(** The values of [finalAmount], [finalHours] and [finalRate] when the
    branches of the row callback are through. *)
Record Finals : Type := mkFinals {
  finalAmount : num;
  finalHours : num;
  finalRate : num
}.

Definition rowFinals (ty : LineItemType) (rowAmount rowHours rowRate : num)
    : Finals :=
  match ty with
  | expense =>
      if negb (JS.isNaN rowAmount) then
        let finalAmount := rowAmount in
        if negb (JS.isNaN rowRate) then
          let finalRate := rowRate in
          if negb (JS.isNaN rowHours) then
            mkFinals finalAmount rowHours finalRate
          else
            let finalHours := (finalAmount / finalRate)%num in
            let finalHours :=
              if JS.isNaN finalHours || JS.is_zero finalHours
              then ofZ 1 else finalHours in
            mkFinals finalAmount finalHours finalRate
        else
          let finalHours := if negb (JS.isNaN rowHours) then rowHours else ofZ 1 in
          let finalRate := (finalAmount / finalHours)%num in
          mkFinals finalAmount finalHours finalRate
      else
        if negb (JS.isNaN rowHours) && negb (JS.isNaN rowRate) then
          mkFinals (rowHours * rowRate)%num rowHours rowRate
        else mkFinals (ofZ 0) (ofZ 0) (ofZ 65)
  | service =>
      if negb (JS.isNaN rowAmount) && negb (JS.is_zero rowAmount) then
        let metrics := calculateMetricsFromAmount rowAmount in
        mkFinals (m_amount metrics) (m_hours metrics) (m_rate metrics)
      else
        let finalHours := if negb (JS.isNaN rowHours) then rowHours else ofZ 0 in
        let finalRate :=
          if negb (JS.isNaN rowRate) && JS.gt rowRate (ofZ 0)
          then rowRate else ofZ 65 in
        mkFinals (calculateLineAmount (VNum finalHours) (VNum finalRate))
          finalHours finalRate
  end.

Section CsvImport.

(** The host's date parser, as in [normalizeDateToISO]. *)
Variable Date_parse : string -> num.
Variable Date_toISOString : num -> string.

(** The callback of [results.data.map] in [handleCSVImport]: the item made
    of one row; [newId] is the identifier drawn for it. *)
Definition importRow (newId : string) (row : Row) : LineItem :=
  let rawAmount := getRowValue row amountKeys in
  let rawHours := getRowValue row hoursKeys in
  let rawRate := getRowValue row rateKeys in
  let rawDesc := getRowValue row descKeys in
  let rawDate := getRowValue row dateKeys in
  let rowAmount := parseCell rawAmount in
  let rowHours := parseCell rawHours in
  let rowRate := parseCell rawRate in
  let description := orEmpty rawDesc in
  let rowDate := normalizeDateToISO Date_parse Date_toISOString (orEmpty rawDate) in
  let ty := rowType row in
  let f := rowFinals ty rowAmount rowHours rowRate in
  mkItem newId ty rowDate
    (if description =? ""
     then match ty with service => "Residential Build" | expense => "Materials" end
     else description)
    (VNum (finalHours f)) (VNum (finalRate f)) (finalAmount f).

End CsvImport.

(** ** Printing integers *)

(** [String(n)] for a natural number: its decimal digits. *)
Definition showNat (n : nat) : string :=
  NilEmpty.string_of_uint (Nat.to_uint n).

(** [String(z)] for an integer. *)
Definition showZ (z : Z) : string :=
  match z with
  | Zneg p => "-" ++ showNat (Pos.to_nat p)
  | _ => showNat (Z.to_nat z)
  end.

(** [parseInt(s, 10)] on a string of decimal digits. *)
Definition parseInt (s : string) : nat := Z.to_nat (Str.digitsToZ s).

(** ** utils/calculations.ts: the date of today *)

(** A valid [Date] as its local-time getters show it: the year, the month
    counted from 0 and the day of the month. *)
Record DateObj : Type := mkDate {
  getFullYear : Z;
  getMonth : nat;
  getDate : nat
}.

(** [formatDateToISO (dateObj)] *)
Definition formatDateToISO (dateObj : DateObj) : string :=
  let yyyy := showZ (getFullYear dateObj) in
  let mm := Str.padStart 2 "0" (showNat (getMonth dateObj + 1)) in
  let dd := Str.padStart 2 "0" (showNat (getDate dateObj)) in
  yyyy ++ "-" ++ mm ++ "-" ++ dd.

(** ** App.tsx: the invoice counter *)

(** The record kept in [localStorage] under ['str8_invoice_counter']: the
    two functions below are its only writers, [count] is the number of the
    last invoice of the day [date]. The store holds [None] as long as
    nothing was written. *)
Module Counter.
Record t : Type := mk {
  date : string;
  count : nat
}.
End Counter.

(** The local [dateStr] of [generateInvoiceNumber], [todayStr] of
    [syncInvoiceCounter]: [YYYYMMDD]. *)
Definition todayStr (now : DateObj) : string :=
  let yyyy := showZ (getFullYear now) in
  let mm := Str.padStart 2 "0" (showNat (getMonth now + 1)) in
  let dd := Str.padStart 2 "0" (showNat (getDate now)) in
  yyyy ++ mm ++ dd.

(** [generateInvoiceNumber ()]: the number, and the store it leaves;
    [now] is [new Date()]. *)
Definition generateInvoiceNumber (now : DateObj) (stored : option Counter.t)
    : string * option Counter.t :=
  let dateStr := todayStr now in
  let nextCount :=
    match stored with
    | Some data =>
        if Counter.date data =? dateStr then (Counter.count data + 1)%nat else 1%nat
    | None => 1%nat
    end in
  ("INV-" ++ dateStr ++ "-" ++ Str.padStart 3 "0" (showNat nextCount),
   Some (Counter.mk dateStr nextCount)).

(** [invoiceNumber.match(/^INV-(\d{8})-(\d{3})$/)]: the two groups. *)
Definition matchInvoiceNumber (invoiceNumber : string)
    : option (string * string) :=
  if matchClasses
       ([Ascii.eqb "I"%char; Ascii.eqb "N"%char; Ascii.eqb "V"%char; isDash]
        ++ repeat Str.isDigit 8 ++ [isDash] ++ repeat Str.isDigit 3)
       invoiceNumber
  then Some (String.substring 4 8 invoiceNumber,
             String.substring 13 3 invoiceNumber)
  else None.

(** [syncInvoiceCounter (invoiceNumber)]: the store it leaves. *)
Definition syncInvoiceCounter (now : DateObj) (invoiceNumber : string)
    (stored : option Counter.t) : option Counter.t :=
  match matchInvoiceNumber invoiceNumber with
  | Some (dateStr, countStr) =>
      let todayStr := todayStr now in
      if dateStr =? todayStr then
        let currentCount := parseInt countStr in
        let storedCount :=
          match stored with
          | Some parsed =>
              if Counter.date parsed =? todayStr then Counter.count parsed else 0%nat
          | None => 0%nat
          end in
        if (storedCount <? currentCount)%nat
        then Some (Counter.mk todayStr currentCount)
        else stored
      else stored
  | None => stored
  end.

(** ** App.tsx: adding and deleting items *)

(** The [newItem] of [handleAddItem]; [newId] is the identifier drawn. *)
Definition newItem (newId : string) (ty : LineItemType) : LineItem :=
  mkItem newId ty ""
    (match ty with service => "Residential Build" | expense => "Materials" end)
    (VNum (match ty with service => ofZ 0 | expense => ofZ 1 end))
    (VNum (match ty with service => ofZ 65 | expense => ofZ 0 end))
    (ofZ 0).

(** [handleAddItem (type)] *)
Definition handleAddItem (newId : string) (ty : LineItemType)
    (items : list LineItem) : list LineItem :=
  items ++ [newItem newId ty].

(** [handleDeleteItem (id)] *)
Definition handleDeleteItem (i : string) (prev : list LineItem)
    : list LineItem :=
  filter (fun it => negb (id it =? i)) prev.

(** ** App.tsx: a new invoice *)

Module InvoiceDetails.
Record t : Type := mk {
  number : string;
  date : string;
  billToName : string;
  billToEmail : string;
  jobRef : string;
  notes : string
}.
End InvoiceDetails.

(** [INITIAL_INVOICE_DETAILS]; [loaded] is the day the module was
    loaded. *)
Definition INITIAL_INVOICE_DETAILS (loaded : DateObj) : InvoiceDetails.t :=
  InvoiceDetails.mk "" (formatDateToISO loaded) "BM O'Hanlon Builders Ltd"
    "bmohanlonbuilders@gmail.com" "Residential Build" "Residential Build".

(** What [handleNewInvoice] reads and writes: the details and the items of
    the form, and the stored counter. *)
Record Form : Type := mkForm {
  f_details : InvoiceDetails.t;
  f_items : list LineItem;
  f_counter : option Counter.t
}.

(** [handleNewInvoice ()]; [confirm] is the answer to the question it
    asks, [now] the [new Date()] of [generateInvoiceNumber] and [now'] that
    of [formatDateToISO], a moment later. *)
Definition handleNewInvoice (confirm : bool) (loaded now now' : DateObj)
    (newId : string) (st : Form) : Form :=
  if confirm then
    let (nextNumber, counter) := generateInvoiceNumber now (f_counter st) in
    let i := INITIAL_INVOICE_DETAILS loaded in
    mkForm
      (InvoiceDetails.mk nextNumber (formatDateToISO now')
         (InvoiceDetails.billToName i) (InvoiceDetails.billToEmail i)
         (InvoiceDetails.jobRef i) (InvoiceDetails.notes i))
      [mkItem newId service "" "Residential Build"
         (VNum (ofZ 0)) (VNum (ofZ 65)) (ofZ 0)]
      counter
  else st.

(** ** App.tsx: saved invoices *)

Module SavedInvoice.
Record t : Type := mk {
  id : string;
  timestamp : Z;
  details : InvoiceDetails.t;
  items : list LineItem;
  totals : Totals
}.
End SavedInvoice.

(** [l.findIndex(p)], [None] for [-1] *)
Fixpoint findIndex {A : Type} (p : A -> bool) (l : list A) : option nat :=
  match l with
  | [] => None
  | x :: l' =>
      if p x then Some 0%nat
      else match findIndex p l' with
           | Some k => Some (S k)
           | None => None
           end
  end.

(** [l[k] = x] for an index within the list *)
Fixpoint setAt {A : Type} (k : nat) (x : A) (l : list A) : list A :=
  match l, k with
  | [], _ => []
  | _ :: l', O => x :: l'
  | y :: l', S k' => y :: setAt k' x l'
  end.

(** [handleSaveInvoice ()]: the list it leaves in the store and in
    [savedInvoices], read from the list [currentSaved] that was there; [now]
    is [Date.now()] and [confirm] the answer to the question asked when the
    number is already saved. The list is the array of objects: the JSON
    text it is kept as in [localStorage] is not modelled. *)
Definition handleSaveInvoice (now : Z) (confirm : bool)
    (details : InvoiceDetails.t) (items : list LineItem)
    (currentSaved : list SavedInvoice.t) : list SavedInvoice.t :=
  let newSave :=
    SavedInvoice.mk (InvoiceDetails.number details) now details items
      (calculateTotals items) in
  match findIndex (fun s => SavedInvoice.id s =? InvoiceDetails.number details)
          currentSaved with
  | Some existingIndex =>
      if negb confirm then currentSaved
      else setAt existingIndex newSave currentSaved
  | None => currentSaved ++ [newSave]
  end.

(** [handleDeleteSaved (id)] *)
Definition handleDeleteSaved (confirm : bool) (i : string)
    (savedInvoices : list SavedInvoice.t) : list SavedInvoice.t :=
  if confirm
  then filter (fun s => negb (SavedInvoice.id s =? i)) savedInvoices
  else savedInvoices.

Section Loading.

Variable Date_parse : string -> num.
Variable Date_toISOString : num -> string.

(** [handleLoadInvoice (invoice)]: the details and the items of the form
    afterwards. *)
Definition handleLoadInvoice (confirm : bool) (invoice : SavedInvoice.t)
    (current : InvoiceDetails.t * list LineItem)
    : InvoiceDetails.t * list LineItem :=
  if confirm then
    let d := SavedInvoice.details invoice in
    let loadedDetails :=
      InvoiceDetails.mk (InvoiceDetails.number d)
        (normalizeDateToISO Date_parse Date_toISOString (InvoiceDetails.date d))
        (InvoiceDetails.billToName d) (InvoiceDetails.billToEmail d)
        (InvoiceDetails.jobRef d) (InvoiceDetails.notes d) in
    let loadedItems :=
      map (fun item =>
             mkItem (id item) (type item)
               (normalizeDateToISO Date_parse Date_toISOString (date item))
               (description item) (hours item) (rate item) (amount item))
          (SavedInvoice.items invoice) in
    (loadedDetails, loadedItems)
  else current.

End Loading.

(** ** App.tsx: items proposed by the assistant *)

(** An element of the array the assistant answers with
    ([Partial<LineItem>]): a field is [None] when it is missing or [null];
    the response schema makes [hours], [rate] and [amount] numbers. *)
Record PartialItem : Type := mkPartial {
  p_type : option string;
  p_date : option string;
  p_description : option string;
  p_hours : option num;
  p_rate : option num;
  p_amount : option num
}.

(** [v || d] on a number that may be missing *)
Definition numOr (v : option num) (d : num) : num :=
  match v with
  | Some n => if JS.truthy n then n else d
  | None => d
  end.

(** The local [type] of the callback of [handleAIGeneratedItems]. *)
Definition aiType (item : PartialItem) : LineItemType :=
  match p_type item with
  | Some t =>
      if t =? "expense" then expense
      else if t =? "service" then service
      else service
  | None => service
  end.

(** [finalAmount], [finalHours] and [finalRate] of that callback. *)
Definition aiFinals (ty : LineItemType) (item : PartialItem) : Finals :=
  match ty with
  | expense =>
      let finalAmount := numOr (p_amount item) (ofZ 0) in
      let finalHours := numOr (p_hours item) (ofZ 1) in
      let finalRate := numOr (p_rate item) finalAmount in
      mkFinals finalAmount finalHours finalRate
  | service =>
      let forward :=
        let finalHours := numOr (p_hours item) (ofZ 0) in
        let finalRate := numOr (p_rate item) (ofZ 65) in
        mkFinals (calculateLineAmount (VNum finalHours) (VNum finalRate))
          finalHours finalRate in
      match p_amount item with
      | Some a =>
          if JS.truthy a && negb (JS.is_zero a) then
            let metrics := calculateMetricsFromAmount a in
            mkFinals (m_amount metrics) (m_hours metrics) (m_rate metrics)
          else forward
      | None => forward
      end
  end.

(** [l.map((x, k) => f(k, x))], the indices counted from [k]. *)
Fixpoint mapFrom {A B : Type} (f : nat -> A -> B) (k : nat) (l : list A)
    : list B :=
  match l with
  | [] => []
  | x :: l' => f k x :: mapFrom f (S k) l'
  end.

Section Assistant.

Variable Date_parse : string -> num.
Variable Date_toISOString : num -> string.

(** The callback of [newItems.map] in [handleAIGeneratedItems]. *)
Definition processItem (newId : string) (item : PartialItem) : LineItem :=
  let ty := aiType item in
  let f := aiFinals ty item in
  mkItem newId ty
    (normalizeDateToISO Date_parse Date_toISOString (orEmpty (p_date item)))
    (match p_description item with
     | Some d =>
         if d =? ""
         then match ty with service => "Residential Build" | expense => "Materials" end
         else d
     | None => match ty with service => "Residential Build" | expense => "Materials" end
     end)
    (VNum (finalHours f)) (VNum (finalRate f)) (finalAmount f).

(** [handleAIGeneratedItems (newItems)]; [draw k] is the identifier drawn
    for the item of index [k]. *)
Definition handleAIGeneratedItems (draw : nat -> string)
    (newItems : list PartialItem) (prev : list LineItem) : list LineItem :=
  prev ++ mapFrom (fun k item => processItem (draw k) item) 0 newItems.

End Assistant.

(** ** App.tsx: one invoice per item *)

(** [[a-z0-9]] under the [i] flag *)
Definition isAlnum (c : ascii) : bool :=
  Str.isDigit c || Str.between 97 122 c || Str.isUpper c.

(** [s.replace(/[^a-z0-9]/gi, '_')] *)
Fixpoint replaceUnsafe (s : string) : string :=
  match s with
  | EmptyString => EmptyString
  | String c t => String (if isAlnum c then c else "_"%char) (replaceUnsafe t)
  end.

(** The local [safeDesc] of [handleDownloadSplitPDF]. *)
Definition safeDesc (item : LineItem) : string :=
  Str.toLowerCase (replaceUnsafe (String.substring 0 20 (description item))).

(** What the callback of [items.forEach] hands to [zip.file] and to
    [generatePDFDoc]: the name of the file, and the details, the items and
    the totals of the invoice printed in it. *)
Record SplitInvoice : Type := mkSplit {
  fileName : string;
  splitDetails : InvoiceDetails.t;
  splitItems : list LineItem;
  splitTotals : Totals
}.

(** The callback of [items.forEach] in [handleDownloadSplitPDF]. *)
Definition splitInvoice (details : InvoiceDetails.t) (index : nat)
    (item : LineItem) : SplitInvoice :=
  let suffix := Str.padStart 2 "0" (showNat (index + 1)) in
  let splitDetails :=
    InvoiceDetails.mk (InvoiceDetails.number details ++ "-" ++ suffix)
      (InvoiceDetails.date details) (InvoiceDetails.billToName details)
      (InvoiceDetails.billToEmail details) (InvoiceDetails.jobRef details)
      (InvoiceDetails.notes details) in
  let splitItems := [item] in
  let splitTotals := calculateTotals splitItems in
  mkSplit
    (InvoiceDetails.number splitDetails ++ "_" ++ safeDesc item ++ ".pdf")
    splitDetails splitItems splitTotals.

(** [handleDownloadSplitPDF ()]: the calls of [zip.file], in order. A call
    with the name of an earlier one would replace its file. *)
Definition handleDownloadSplitPDF (details : InvoiceDetails.t)
    (items : list LineItem) : list SplitInvoice :=
  mapFrom (splitInvoice details) 0 items.

(** ** services/geminiService.ts *)

(** [polishDescription (text)]; [response] is what the model call gave:
    [None] when it threw, [Some None] when the response has no text. *)
Definition polishDescription (response : option (option string))
    (text : string) : string :=
  match response with
  | Some (Some t) => if Str.trim t =? "" then text else Str.trim t
  | Some None => text
  | None => text
  end.

(** [handlePolishDescription (id, text)] of [App.tsx]; the model is called
    only when the text is not blank. *)
Definition handlePolishDescription (response : option (option string))
    (i text : string) (prev : list LineItem) : list LineItem :=
  if Str.trim text =? "" then prev
  else handleItemChange i (EditDescription (polishDescription response text)) prev.

(** [retryOperation (operation, retries, delay)]. The operation has
    effects: [operation k] is the outcome of its call number [k], a value
    or the error thrown, and [attempt] the number of calls made before.
    The result goes with the delays waited for, in order. *)
Fixpoint retryOperation {T E : Type} (operation : nat -> T + E)
    (attempt retries : nat) (delay : Z) : (T + E) * list Z :=
  match operation attempt with
  | inl v => (inl v, [])
  | inr error =>
      match retries with
      | O => (inr error, [])
      | S retries' =>
          let (r, waits) :=
            retryOperation operation (S attempt) retries' (delay * 2) in
          (r, delay :: waits)
      end
  end.

(** * The program in binary64 arithmetic

    The numbers of the program are IEEE-754 doubles: an operation gives
    the exact result rounded to the nearest double, a tie going to the even
    significand, and a result of magnitude [2^1024] or more is an infinity.
    [B64] embeds, with these operations, the line amount, the resolver,
    the totals, the edit of an item and the row normaliser. A double is
    the rational it denotes; the sign of zero is not modelled. *)

Module B64.

(** [2^e] *)
Definition pow2 (e : Z) : Q := (2 ^ e)%Q.

(** [floor (log2 a)] for a positive [a]. *)
Definition ilog2 (a : Q) : Z :=
  let e0 := (Z.log2 (Qnum a) - Z.log2 (Zpos (Qden a)))%Z in
  if Qle_bool (pow2 e0) a then e0 else (e0 - 1)%Z.

(** The integer nearest to [m], the even one of the two at a tie. *)
Definition nearestEven (m : Q) : Z :=
  let f := Qfloor m in
  match (m - inject_Z f ?= 1 # 2)%Q with
  | Lt => f
  | Gt => (f + 1)%Z
  | Eq => if Z.even f then f else (f + 1)%Z
  end.

(** The exponent of the last place of the doubles around a positive [a]:
    53 significant bits, and no exponent below that of the subnormal
    numbers. *)
Definition expOf (a : Q) : Z := Z.max (ilog2 a - 52) (-1074).

(** The double nearest to a positive [a], as a rational; [2^1024] stands
    for an overflow. *)
Definition roundPos (a : Q) : Q :=
  let e := expOf a in
  (inject_Z (nearestEven (a / pow2 e)) * pow2 e)%Q.

(** A rational rounded to a double. *)
Definition rnd (q : Qc) : num :=
  match (q ?= 0)%Qc with
  | Eq => Fin q
  | Gt =>
      let p := roundPos (this q) in
      if Qle_bool (pow2 1024) p then PInf else ofQ p
  | Lt =>
      let p := roundPos (- this q) in
      if Qle_bool (pow2 1024) p then NInf else ofQ (- p)
  end.

(** The result of an operation, rounded. *)
Definition rndN (a : num) : num :=
  match a with
  | Fin q => rnd q
  | other => other
  end.

(** A decimal literal of the source, such as [0.15]. *)
Definition lit (q : Q) : num := rnd (Q2Qc q).

Definition add (a b : num) : num := rndN (JS.add a b).
Definition sub (a b : num) : num := rndN (JS.sub a b).
Definition mul (a b : num) : num := rndN (JS.mul a b).
Definition div (a b : num) : num := rndN (JS.div a b).

(** [ToNumber]: a number is itself, the value a text denotes is rounded. *)
Definition toNum (v : jsval) : num :=
  match v with
  | VNum n => n
  | other => rndN (toNum other)
  end.

(** [parseFloat] of a cell that may be [undefined]: the value read is
    rounded. *)
Definition parseCell (v : option string) : num := rndN (parseCell v).

(** ** utils/calculations.ts *)

(** [calculateLineAmount (hours, rate)] *)
Definition calculateLineAmount (hours rate : jsval) : num :=
  JS.round (mul (toNum hours) (toNum rate)).

(** The loop of [calculateMetricsFromAmount]. *)
Definition resolveStep (targetAmount : num) (bestOption : BestOption)
    (rate : num) : BestOption :=
  let hours := JS.round (div targetAmount rate) in
  let hours := if JS.lt hours (ofZ 1) then ofZ 1 else hours in
  let calculatedAmount := mul hours rate in
  let diff := JS.abs (sub targetAmount calculatedAmount) in
  if JS.lt diff (bo_diff bestOption)
  then mkBest hours rate calculatedAmount diff
  else bestOption.

(** [calculateMetricsFromAmount (targetAmount)] *)
Definition calculateMetricsFromAmount (targetAmount : num) : Metrics :=
  if JS.is_zero targetAmount
  then mkMetrics (ofZ 0) (ofZ 65) (ofZ 0)
  else
    let bestOption :=
      fold_left (resolveStep targetAmount) rateOptions
        (mkBest (ofZ 0) (ofZ 65) (ofZ 0) PInf) in
    mkMetrics (bo_hours bestOption) (bo_rate bestOption) (bo_amount bestOption).

(** [items.reduce((sum, item) => sum + item.amount, 0)] *)
Definition sumAmounts (items : list LineItem) : num :=
  fold_left (fun sum item => add sum (amount item)) items (ofZ 0).

(** The local [serviceGross] of [calculateTotals]. *)
Definition serviceGross (items : list LineItem) : num :=
  let serviceItems := filter (fun i => LineItemType_eqb (type i) service) items in
  sumAmounts serviceItems.

(** [calculateTotals (items)] *)
Definition calculateTotals (items : list LineItem) : Totals :=
  let gross := sumAmounts items in
  let gst := JS.round (mul (serviceGross items) (lit (15 # 100))) in
  let tax := JS.round (mul (serviceGross items) (lit (20 # 100))) in
  let clientToPay := add gross gst in
  let net := sub gross tax in
  mkTotals gross gst tax clientToPay net.

(** ** App.tsx: editing an item *)

(** [value === '' ? 0 : Number(value)] *)
Definition valOf (value : jsval) : num :=
  match value with
  | VStr "" => ofZ 0
  | _ => toNum value
  end.

(** The body of the [map] in [handleItemChange], for the item whose id
    matches. *)
Definition changeItem (e : Edit) (item : LineItem) : LineItem :=
  match e with
  | EditType expense =>
      mkItem (id item) expense (date item) (description item)
        (VNum (ofZ 1)) (VNum (amount item)) (amount item)
  | EditType service =>
      let h := orElse (hours item) (VNum (ofZ 1)) in
      mkItem (id item) service (date item) (description item)
        h (VNum (div (amount item) (toNum h))) (amount item)
  | EditAmount value =>
      let val := valOf value in
      let h := orElse (hours item) (VNum (ofZ 1)) in
      mkItem (id item) (type item) (date item) (description item)
        h (VNum (div val (toNum h))) val
  | EditHours value =>
      let h := VNum (valOf value) in
      let r := rate item in
      mkItem (id item) (type item) (date item) (description item)
        value (rate item)
        (calculateLineAmount (orElse h (VNum (ofZ 0))) (orElse r (VNum (ofZ 0))))
  | EditRate value =>
      let h := hours item in
      let r := VNum (valOf value) in
      mkItem (id item) (type item) (date item) (description item)
        (hours item) value
        (calculateLineAmount (orElse h (VNum (ofZ 0))) (orElse r (VNum (ofZ 0))))
  | EditId value =>
      mkItem value (type item) (date item) (description item)
        (hours item) (rate item) (amount item)
  | EditDate value =>
      mkItem (id item) (type item) value (description item)
        (hours item) (rate item) (amount item)
  | EditDescription value =>
      mkItem (id item) (type item) (date item) value
        (hours item) (rate item) (amount item)
  end.

(** [handleItemChange (id, field, value)] *)
Definition handleItemChange (i : string) (e : Edit) (prev : list LineItem)
    : list LineItem :=
  map (fun item => if negb (id item =? i) then item else changeItem e item) prev.

(** ** App.tsx: importing a row of a CSV file *)

(** [finalAmount], [finalHours] and [finalRate] of the row callback. *)
Definition rowFinals (ty : LineItemType) (rowAmount rowHours rowRate : num)
    : Finals :=
  match ty with
  | expense =>
      if negb (JS.isNaN rowAmount) then
        let finalAmount := rowAmount in
        if negb (JS.isNaN rowRate) then
          let finalRate := rowRate in
          if negb (JS.isNaN rowHours) then
            mkFinals finalAmount rowHours finalRate
          else
            let finalHours := div finalAmount finalRate in
            let finalHours :=
              if JS.isNaN finalHours || JS.is_zero finalHours
              then ofZ 1 else finalHours in
            mkFinals finalAmount finalHours finalRate
        else
          let finalHours := if negb (JS.isNaN rowHours) then rowHours else ofZ 1 in
          let finalRate := div finalAmount finalHours in
          mkFinals finalAmount finalHours finalRate
      else
        if negb (JS.isNaN rowHours) && negb (JS.isNaN rowRate) then
          mkFinals (mul rowHours rowRate) rowHours rowRate
        else mkFinals (ofZ 0) (ofZ 0) (ofZ 65)
  | service =>
      if negb (JS.isNaN rowAmount) && negb (JS.is_zero rowAmount) then
        let metrics := calculateMetricsFromAmount rowAmount in
        mkFinals (m_amount metrics) (m_hours metrics) (m_rate metrics)
      else
        let finalHours := if negb (JS.isNaN rowHours) then rowHours else ofZ 0 in
        let finalRate :=
          if negb (JS.isNaN rowRate) && JS.gt rowRate (ofZ 0)
          then rowRate else ofZ 65 in
        mkFinals (calculateLineAmount (VNum finalHours) (VNum finalRate))
          finalHours finalRate
  end.

Section CsvImport.

Variable Date_parse : string -> num.
Variable Date_toISOString : num -> string.

(** The callback of [results.data.map] in [handleCSVImport]. *)
Definition importRow (newId : string) (row : Row) : LineItem :=
  let rawAmount := getRowValue row amountKeys in
  let rawHours := getRowValue row hoursKeys in
  let rawRate := getRowValue row rateKeys in
  let rawDesc := getRowValue row descKeys in
  let rawDate := getRowValue row dateKeys in
  let rowAmount := parseCell rawAmount in
  let rowHours := parseCell rawHours in
  let rowRate := parseCell rawRate in
  let description := orEmpty rawDesc in
  let rowDate := normalizeDateToISO Date_parse Date_toISOString (orEmpty rawDate) in
  let ty := rowType row in
  let f := rowFinals ty rowAmount rowHours rowRate in
  mkItem newId ty rowDate
    (if description =? ""
     then match ty with service => "Residential Build" | expense => "Materials" end
     else description)
    (VNum (finalHours f)) (VNum (finalRate f)) (finalAmount f).

End CsvImport.

End B64.

(** * Notions of the specification *)

(** An integer as a finite number. *)
Definition Z2Qc (z : Z) : Qc := Q2Qc (inject_Z z).

(** ** The reverse metrics resolver, as the specification words it *)

(** [round (target / rate)], clamped to a minimum of 1. *)
Definition snapHours (target : Qc) (r : Z) : Z :=
  Z.max 1 (roundZ (target / Z2Qc r)).

(** The snapped amount [hours * rate]. *)
Definition snapAmount (target : Qc) (r : Z) : Z := snapHours target r * r.

(** The absolute difference of the snapped amount from the target. *)
Definition snapDiff (target : Qc) (r : Z) : Qc :=
  Qcabs (target - Z2Qc (snapAmount target r)).

(** The candidate of a rate. *)
Definition candidate (target : Qc) (r : Z) : Metrics :=
  mkMetrics (ofZ (snapHours target r)) (ofZ r) (ofZ (snapAmount target r)).

(** ** Totals *)

(** The sum of a list of numbers. *)
Fixpoint sumOf (l : list num) : num :=
  match l with
  | [] => ofZ 0
  | a :: l' => (a + sumOf l')%num
  end.

Definition isService (i : LineItem) : bool := LineItemType_eqb (type i) service.

(** The sum of the amounts of the service items. *)
Definition serviceSubtotal (items : list LineItem) : num :=
  sumOf (map amount (filter isService items)).

(** The numbers of a list added one after the other, from 0, each sum
    rounded to the nearest double. *)
Definition sum64 (l : list num) : num := fold_left B64.add l (ofZ 0).

(** The sum of a list of integers, and of their absolute values. *)
Definition sumZ (zs : list Z) : Z := fold_right Z.add 0%Z zs.

Definition sumAbs (zs : list Z) : Z :=
  fold_right (fun z s => (Z.abs z + s)%Z) 0%Z zs.

(** ** Text *)

(** [x] occurs in [s]. *)
Definition isSubstring (x s : string) : Prop :=
  exists pre post, s = pre ++ x ++ post.

(** A string of one or two digits, a string of four digits. *)
Definition oneOrTwoDigits (s : string) : Prop :=
  Str.allDigits s = true /\ (String.length s = 1 \/ String.length s = 2)%nat.

Definition fourDigits (s : string) : Prop :=
  Str.allDigits s = true /\ String.length s = 4%nat.

(** ** The category of a row *)

(** The two tests of the "smart type detection". *)
Definition explicitExpense (row : Row) : Prop :=
  exists t, getRowValue row typeKeys = Some t /\
            isSubstring "expense" (Str.toLowerCase t).

Definition implicitExpense (row : Row) : Prop :=
  exists kw, In kw expenseKeywords /\
    isSubstring kw (Str.toLowerCase (orEmpty (getRowValue row descKeys))).

(** ** An item presented as a raw record *)

Definition typeName (t : LineItemType) : string :=
  match t with
  | service => "service"
  | expense => "expense"
  end.

(** The record [row] shows the category, description, hours or quantity,
    rate and amount of the item [it]: its cells read as the item's values. *)
Definition presents (row : Row) (it : LineItem) : Prop :=
  getRowValue row typeKeys = Some (typeName (type it)) /\
  getRowValue row descKeys = Some (description it) /\
  parseCell (getRowValue row hoursKeys) = toNum (hours it) /\
  parseCell (getRowValue row rateKeys) = toNum (rate it) /\
  parseCell (getRowValue row amountKeys) = amount it.

(** The record [row] shows the item [it], its cells read as doubles. *)
Definition presents64 (row : Row) (it : LineItem) : Prop :=
  getRowValue row typeKeys = Some (typeName (type it)) /\
  getRowValue row descKeys = Some (description it) /\
  B64.parseCell (getRowValue row hoursKeys) = B64.toNum (hours it) /\
  B64.parseCell (getRowValue row rateKeys) = B64.toNum (rate it) /\
  B64.parseCell (getRowValue row amountKeys) = amount it.

(** Two items with the same category, description, hours, rate and amount. *)
Definition sameItem (a b : LineItem) : Prop :=
  type a = type b /\ description a = description b /\
  hours a = hours b /\ rate a = rate b /\ amount a = amount b.

(** ** Amounts that are not negative *)

(** A finite number that is not negative. *)
Definition nonNegative (a : num) : Prop :=
  exists q : Qc, a = Fin q /\ (0 <= q)%Qc.

(** ** The figures of an item *)

(** What the totals and the amount columns read of an item: everything
    but its date and its description. *)
Definition figures (it : LineItem) : string * LineItemType * jsval * jsval * num :=
  (id it, type it, hours it, rate it, amount it).


(** ** Days and counters *)

(** A day of a year of four digits. *)
Definition validDate (d : DateObj) : Prop :=
  (1000 <= getFullYear d <= 9999)%Z /\ (getMonth d < 12)%nat /\
  (1 <= getDate d <= 31)%nat.

(** The number of the last invoice of the day [now], as the store has it:
    0 when the store is empty or of another day. *)
Definition countToday (now : DateObj) (stored : option Counter.t) : nat :=
  match stored with
  | Some data =>
      if Counter.date data =? todayStr now then Counter.count data else 0%nat
  | None => 0%nat
  end.

(** ** Names of files *)

(** Every character of [s] passes the test [p]. *)
Fixpoint allChars (p : ascii -> bool) (s : string) : bool :=
  match s with
  | EmptyString => true
  | String c t => p c && allChars p t
  end.

(** A lower-case letter, a digit or an underscore. *)
Definition isSafeChar (c : ascii) : bool :=
  Str.isDigit c || Str.between 97 122 c || Ascii.eqb c "_".

(** ** Delays *)

(** The first [k] delays of an exponential backoff: [delay], [2 * delay],
    [4 * delay], ... *)
Definition backoff (delay : Z) (k : nat) : list Z :=
  map (fun j => (delay * 2 ^ Z.of_nat j)%Z) (seq 0 k).

(** ** Doubles *)

(** A number that a double can hold: [m * 2 ^ e] with a significand of at
    most 53 bits. *)
Definition representable (q : Q) : Prop :=
  exists m e : Z,
    (Z.abs m < 2 ^ 53)%Z /\ (-1074 <= e <= 971)%Z /\
    (q == inject_Z m * B64.pow2 e)%Q.

(** * Properties *)

(** ** Rationals in lowest terms, seen as rationals *)

Lemma this_Q2Qc (q : Q) : (this (Q2Qc q) == q)%Q.
Proof. apply Qred_correct. Qed.

Lemma this_plus (x y : Qc) : (this (x + y)%Qc == this x + this y)%Q.
Proof. apply Qred_correct. Qed.

Lemma this_mult (x y : Qc) : (this (x * y)%Qc == this x * this y)%Q.
Proof. apply Qred_correct. Qed.

Lemma this_opp (x : Qc) : (this (- x)%Qc == - this x)%Q.
Proof. apply Qred_correct. Qed.

Lemma this_minus (x y : Qc) : (this (x - y)%Qc == this x - this y)%Q.
Proof. unfold Qcminus. rewrite this_plus, this_opp. reflexivity. Qed.

Lemma this_inv (x : Qc) : (this (/ x)%Qc == / this x)%Q.
Proof. apply Qred_correct. Qed.

Lemma this_div (x y : Qc) : (this (x / y)%Qc == this x / this y)%Q.
Proof. unfold Qcdiv. rewrite this_mult, this_inv. reflexivity. Qed.

Lemma this_abs (x : Qc) : (this (Qcabs x) == Qabs (this x))%Q.
Proof. reflexivity. Qed.

Lemma this_Z2Qc (z : Z) : (this (Z2Qc z) == inject_Z z)%Q.
Proof. apply this_Q2Qc. Qed.

Lemma this_0 : (this 0%Qc == 0)%Q.
Proof. reflexivity. Qed.

Lemma Qc_ext (x y : Qc) : (this x == this y)%Q -> x = y.
Proof. apply Qc_is_canon. Qed.

(** Every operation of [Qc] pushed down to [Q], where [lra] works. *)
Ltac to_Q :=
  unfold Qclt, Qcle in *;
  repeat (rewrite ?this_plus, ?this_minus, ?this_mult, ?this_opp, ?this_div,
                  ?this_inv, ?this_abs, ?this_Z2Qc, ?this_Q2Qc, ?this_0 in *).

Lemma Z2Qc_inj (a b : Z) : Z2Qc a = Z2Qc b -> a = b.
Proof.
  intros H. apply (f_equal this) in H.
  assert (E : (inject_Z a == inject_Z b)%Q).
  { rewrite <- (this_Z2Qc a), <- (this_Z2Qc b), H. reflexivity. }
  apply inject_Z_injective. exact E.
Qed.

Lemma Z2Qc_neq_0 (z : Z) : z <> 0%Z -> Z2Qc z <> 0%Qc.
Proof. intros H E. apply (@Z2Qc_inj z 0) in E. contradiction. Qed.

Lemma Z2Qc_mult (a b : Z) : (Z2Qc a * Z2Qc b)%Qc = Z2Qc (a * b).
Proof.
  apply Qc_ext. to_Q. rewrite inject_Z_mult. reflexivity.
Qed.

Lemma Z2Qc_compare (a b : Z) : (Z2Qc a ?= Z2Qc b)%Qc = (a ?= b)%Z.
Proof.
  unfold Qccompare. rewrite !this_Z2Qc.
  unfold Qcompare, inject_Z. simpl. now rewrite !Z.mul_1_r.
Qed.

Lemma sgn_Z2Qc (z : Z) : sgn (Z2Qc z) = (z ?= 0)%Z.
Proof. apply (Z2Qc_compare z 0). Qed.

Lemma Qcltb_lt (x y : Qc) : Qcltb x y = true <-> (x < y)%Qc.
Proof.
  unfold Qcltb. rewrite Qclt_alt. destruct (x ?= y)%Qc; split; congruence.
Qed.

Lemma Qcltb_ge (x y : Qc) : Qcltb x y = false <-> (y <= x)%Qc.
Proof.
  split; intros H.
  - apply Qcnot_lt_le. intros L. apply Qcltb_lt in L. congruence.
  - destruct (Qcltb x y) eqn:E; [|reflexivity].
    apply Qcltb_lt in E. now apply Qcle_not_lt in H.
Qed.

Lemma Qcabs_pos_neq (x y : Qc) : x <> y -> (0 < Qcabs (x - y))%Qc.
Proof.
  intros H. destruct (Qcle_lt_or_eq _ _ (Qcabs_nonneg (x - y))) as [L | E].
  - exact L.
  - exfalso. apply H. symmetry in E. apply Qcabs_null in E.
    apply Qc_ext.
    assert (E1 : (this (x - y)%Qc == 0)%Q) by (rewrite E; reflexivity).
    rewrite this_minus in E1. lra.
Qed.

(** ** [Math.round] *)

Lemma roundZ_floor (q : Qc) : roundZ q = Qfloor (this q + (1 # 2)).
Proof.
  unfold roundZ. apply Qfloor_comp. to_Q. reflexivity.
Qed.

(** The rounded value is the integer [n] with [n - 1/2 <= q < n + 1/2]. *)
Lemma roundZ_bounds (q : Qc) :
  (inject_Z (roundZ q) - (1 # 2) <= this q < inject_Z (roundZ q) + (1 # 2))%Q.
Proof.
  rewrite roundZ_floor.
  pose proof (Qfloor_le (this q + (1 # 2))) as Hlo.
  pose proof (Qlt_floor (this q + (1 # 2))) as Hhi.
  rewrite inject_Z_plus in Hhi. change (inject_Z 1) with 1%Q in Hhi.
  split; lra.
Qed.

Lemma roundZ_unique (q : Qc) (n : Z) :
  (inject_Z n - (1 # 2) <= this q < inject_Z n + (1 # 2))%Q -> roundZ q = n.
Proof.
  intros [Hlo Hhi]. destruct (roundZ_bounds q) as [Rlo Rhi].
  assert (A : (inject_Z n < inject_Z (roundZ q) + 1)%Q) by lra.
  assert (B : (inject_Z (roundZ q) < inject_Z n + 1)%Q) by lra.
  change 1%Q with (inject_Z 1) in A, B.
  rewrite <- inject_Z_plus in A, B.
  rewrite <- Zlt_Qlt in A, B. lia.
Qed.

Lemma roundZ_Z2Qc (z : Z) : roundZ (Z2Qc z) = z.
Proof.
  apply roundZ_unique. rewrite this_Z2Qc. split; lra.
Qed.

Lemma roundZ_0 : roundZ 0%Qc = 0%Z.
Proof. exact (roundZ_Z2Qc 0). Qed.

(** The rounded share [p / q] of a whole amount [s] is
    [floor ((2 p s + q) / (2 q))]. *)
Lemma round_share (s p q : Z) :
  (0 < q)%Z ->
  JS.round (ofZ s * ofQ (p # Z.to_pos q)) = ofZ ((2 * p * s + q) / (2 * q)).
Proof.
  intros Hq.
  change (ofZ (roundZ (Z2Qc s * Q2Qc (p # Z.to_pos q))) = ofZ ((2 * p * s + q) / (2 * q))).
  f_equal. apply roundZ_unique.
  set (n := ((2 * p * s + q) / (2 * q))%Z).
  assert (Hlo : (2 * q * n <= 2 * p * s + q)%Z) by (apply Z.mul_div_le; lia).
  assert (Hhi : (2 * p * s + q < 2 * q * (n + 1))%Z).
  { replace (2 * q * (n + 1))%Z with (2 * q * Z.succ n)%Z by lia.
    apply Z.mul_succ_div_gt. lia. }
  rewrite this_mult, this_Z2Qc, this_Q2Qc.
  assert (E : (p # Z.to_pos q == inject_Z p / inject_Z q)%Q).
  { rewrite Qmake_Qdiv. rewrite Z2Pos.id by lia. reflexivity. }
  rewrite E.
  assert (HQ : (0 < inject_Z q)%Q).
  { change 0%Q with (inject_Z 0). now rewrite <- Zlt_Qlt. }
  rewrite Zle_Qle in Hlo. rewrite Zlt_Qlt in Hhi.
  repeat (rewrite ?inject_Z_mult, ?inject_Z_plus in Hlo).
  repeat (rewrite ?inject_Z_mult, ?inject_Z_plus in Hhi).
  change (inject_Z 2) with 2%Q in *. change (inject_Z 1) with 1%Q in *.
  set (S := inject_Z s) in *. set (P := inject_Z p) in *.
  set (QQ := inject_Z q) in *. set (N := inject_Z n) in *.
  assert (X : (S * (P / QQ) * (2 * QQ) == 2 * P * S)%Q) by (field; lra).
  split.
  - apply (Qmult_le_r _ _ (2 * QQ)); [lra|]. rewrite X. lra.
  - apply (Qmult_lt_r _ _ (2 * QQ)); [lra|]. rewrite X. lra.
Qed.

Lemma round_percent (s : Z) :
  JS.round (ofZ s * ofQ (15 # 100)) = ofZ ((3 * s + 10) / 20) /\
  JS.round (ofZ s * ofQ (20 # 100)) = ofZ ((2 * s + 5) / 10).
Proof.
  split.
  - change (15 # 100) with (15 # Z.to_pos 100).
    rewrite (@round_share s 15 100) by lia. f_equal.
    replace (2 * 15 * s + 100)%Z with (10 * (3 * s + 10))%Z by lia.
    change (2 * 100)%Z with (10 * 20)%Z.
    apply Z.div_mul_cancel_l; lia.
  - change (20 # 100) with (20 # Z.to_pos 100).
    rewrite (@round_share s 20 100) by lia. f_equal.
    replace (2 * 20 * s + 100)%Z with (20 * (2 * s + 5))%Z by lia.
    change (2 * 100)%Z with (20 * 10)%Z.
    apply Z.div_mul_cancel_l; lia.
Qed.

(** ** Arithmetic of numbers *)

Lemma lt_ofZ (a b : Z) : JS.lt (ofZ a) (ofZ b) = (a <? b)%Z.
Proof.
  change (Qcltb (Z2Qc a) (Z2Qc b) = (a <? b)%Z).
  unfold Qcltb. rewrite Z2Qc_compare. unfold Z.ltb. reflexivity.
Qed.

Lemma mul_ofZ (a b : Z) : (ofZ a * ofZ b)%num = ofZ (a * b).
Proof.
  change (Fin (Z2Qc a * Z2Qc b) = Fin (Z2Qc (a * b))).
  f_equal. apply Z2Qc_mult.
Qed.

Lemma div_Fin_ofZ (t : Qc) (r : Z) :
  r <> 0%Z -> (Fin t / ofZ r)%num = Fin (t / Z2Qc r).
Proof.
  intros Hr.
  change (match sgn (Z2Qc r) with
          | Eq => inf_of (sgn t)
          | _ => Fin (t / Z2Qc r)
          end = Fin (t / Z2Qc r)).
  rewrite sgn_Z2Qc. destruct (Z.compare_spec r 0); [contradiction | reflexivity ..].
Qed.

Lemma clamp_ofZ (h : Z) :
  (if JS.lt (ofZ h) (ofZ 1) then ofZ 1 else ofZ h) = ofZ (Z.max 1 h).
Proof.
  rewrite lt_ofZ. destruct (Z.ltb_spec h 1).
  - now rewrite Z.max_l by lia.
  - now rewrite Z.max_r by lia.
Qed.

Lemma is_zero_Fin (t : Qc) : JS.is_zero (Fin t) = true <-> t = 0%Qc.
Proof.
  cbn [JS.is_zero]. unfold sgn. rewrite Qceq_alt.
  destruct (t ?= 0)%Qc; split; congruence.
Qed.

Lemma is_zero_Fin_false (t : Qc) : t <> 0%Qc -> JS.is_zero (Fin t) = false.
Proof.
  intros H. destruct (JS.is_zero (Fin t)) eqn:E; [|reflexivity].
  now apply is_zero_Fin in E.
Qed.

Lemma is_zero_ofZ (z : Z) : JS.is_zero (ofZ z) = (z =? 0)%Z.
Proof.
  change (match sgn (Z2Qc z) with Eq => true | _ => false end = (z =? 0)%Z).
  rewrite sgn_Z2Qc. unfold Z.eqb. now destruct z.
Qed.

Lemma div_mul_cancel (a h : Qc) :
  h <> 0%Qc -> (Fin h * (Fin a / Fin h))%num = Fin a.
Proof.
  intros Hh. cbn [JS.div]. unfold sgn.
  destruct (h ?= 0)%Qc eqn:E.
  - apply Qceq_alt in E. contradiction.
  - cbn [JS.mul]. f_equal. now apply Qcmult_div_r.
  - cbn [JS.mul]. f_equal. now apply Qcmult_div_r.
Qed.

Lemma round_mul_0_l (a : num) :
  JS.is_finite a = true -> JS.round (ofZ 0 * a) = ofZ 0.
Proof.
  destruct a as [ | | | q]; try discriminate. intros _.
  change (ofZ (roundZ (0 * q)) = ofZ 0).
  now rewrite Qcmult_0_l, roundZ_0.
Qed.

Lemma round_mul_0_r (a : num) :
  JS.is_finite a = true -> JS.round (a * ofZ 0) = ofZ 0.
Proof.
  destruct a as [ | | | q]; try discriminate. intros _.
  change (ofZ (roundZ (q * 0)) = ofZ 0).
  now rewrite Qcmult_0_r, roundZ_0.
Qed.

Lemma add_0_l (a : num) : (ofZ 0 + a)%num = a.
Proof.
  destruct a; try reflexivity.
  change (Fin (0 + q) = Fin q). now rewrite Qcplus_0_l.
Qed.

Lemma add_0_r (a : num) : (a + ofZ 0)%num = a.
Proof.
  destruct a; try reflexivity.
  change (Fin (q + 0) = Fin q). now rewrite Qcplus_0_r.
Qed.

Lemma add_assoc (a b c : num) : (a + (b + c))%num = (a + b + c)%num.
Proof.
  destruct a, b, c; try reflexivity.
  cbn [JS.add]. now rewrite Qcplus_assoc.
Qed.

(** [v || 0] is a finite number as soon as [v] is falsy or reads as one. *)
Lemma orElse_0_falsy (v : jsval) :
  truthyV v = false -> orElse v (VNum (ofZ 0)) = VNum (ofZ 0).
Proof. unfold orElse. now intros ->. Qed.

Lemma orElse_0_finite (v : jsval) :
  JS.is_finite (toNum v) = true ->
  JS.is_finite (toNum (orElse v (VNum (ofZ 0)))) = true.
Proof. unfold orElse. destruct (truthyV v); [trivial | reflexivity]. Qed.

(** Concrete numbers: the two sides are evaluated and the rationals
    compared as rationals. *)
Ltac fin_eq :=
  first
    [ reflexivity
    | match goal with
      | |- Fin _ = Fin _ => apply (f_equal Fin); apply Qc_is_canon; reflexivity
      end
    | progress f_equal; fin_eq ].

Ltac compute_eq := vm_compute; fin_eq.

Lemma div_Fin_1 (a : Qc) : (Fin a / ofZ 1)%num = Fin a.
Proof.
  rewrite div_Fin_ofZ by discriminate. f_equal.
  apply Qc_ext. to_Q. change (inject_Z 1) with 1%Q. field.
Qed.

(** ** Sums of amounts *)

Lemma fold_add_sumOf (items : list LineItem) (acc : num) :
  fold_left (fun sum item => (sum + amount item)%num) items acc =
  (acc + sumOf (map amount items))%num.
Proof.
  revert acc. induction items as [|i items IH]; intros acc; cbn [fold_left map sumOf].
  - now rewrite add_0_r.
  - rewrite IH. now rewrite add_assoc.
Qed.

Lemma sumAmounts_sumOf (items : list LineItem) :
  sumAmounts items = sumOf (map amount items).
Proof.
  unfold sumAmounts. rewrite fold_add_sumOf. apply add_0_l.
Qed.

Lemma serviceGross_subtotal (items : list LineItem) :
  serviceGross items = serviceSubtotal items.
Proof.
  unfold serviceGross, serviceSubtotal. cbv zeta. apply sumAmounts_sumOf.
Qed.

Lemma filter_isService_idem (items : list LineItem) :
  filter isService (filter isService items) = filter isService items.
Proof.
  induction items as [|i items IH]; [reflexivity|].
  cbn [filter]. destruct (isService i) eqn:E; [|exact IH].
  cbn [filter]. rewrite E. now rewrite IH.
Qed.

(** ** The loop of the resolver *)

Lemma resolveStep_Fin (t : Qc) (best : BestOption) (r : Z) :
  r <> 0%Z ->
  resolveStep (Fin t) best (ofZ r) =
  if JS.lt (Fin (snapDiff t r)) (bo_diff best)
  then mkBest (ofZ (snapHours t r)) (ofZ r) (ofZ (snapAmount t r))
              (Fin (snapDiff t r))
  else best.
Proof.
  intros Hr. unfold resolveStep.
  rewrite (div_Fin_ofZ t Hr). cbn [JS.round].
  rewrite clamp_ofZ, mul_ofZ.
  reflexivity.
Qed.

(** The closed form of the resolver on a finite non-zero target: the loop
    keeps the candidate of 60 unless that of 65 is strictly closer. *)
Lemma resolve_Fin (t : Qc) :
  t <> 0%Qc ->
  calculateMetricsFromAmount (Fin t) =
  if Qcltb (snapDiff t 65) (snapDiff t 60) then candidate t 65 else candidate t 60.
Proof.
  intros Ht. unfold calculateMetricsFromAmount.
  rewrite (is_zero_Fin_false Ht).
  unfold rateOptions. cbn [fold_left].
  rewrite (@resolveStep_Fin t _ 60) by discriminate.
  cbn [bo_diff JS.lt].
  rewrite (@resolveStep_Fin t _ 65) by discriminate.
  cbn [bo_diff JS.lt].
  destruct (Qcltb (snapDiff t 65) (snapDiff t 60)); reflexivity.
Qed.


Lemma snapHours_ge_1 (t : Qc) (r : Z) : (1 <= snapHours t r)%Z.
Proof. unfold snapHours. lia. Qed.

(** The shape of what the resolver returns on a finite non-zero target. *)
Lemma resolve_shape (t : Qc) :
  t <> 0%Qc ->
  exists h r : Z,
    (1 <= h)%Z /\ (r = 60 \/ r = 65)%Z /\ (60 <= h * r)%Z /\
    calculateMetricsFromAmount (Fin t) = mkMetrics (ofZ h) (ofZ r) (ofZ (h * r)).
Proof.
  intros Ht. rewrite (resolve_Fin Ht).
  destruct (Qcltb (snapDiff t 65) (snapDiff t 60)).
  - exists (snapHours t 65), 65%Z.
    pose proof (snapHours_ge_1 t 65).
    split; [lia|]. split; [now right|]. split; [lia|reflexivity].
  - exists (snapHours t 60), 60%Z.
    pose proof (snapHours_ge_1 t 60).
    split; [lia|]. split; [now left|]. split; [lia|reflexivity].
Qed.

(** ** The snapped amount is a nearest multiple of the rate *)

(** Among the multiples [m * R] with [m >= 1], the one the resolver picks
    for [T] is at least as close to [T] as any other. *)
Lemma nearest_Q (T R : Q) (n m : Z) :
  (0 < R)%Q ->
  (inject_Z n - (1 # 2) <= T / R < inject_Z n + (1 # 2))%Q ->
  (1 <= m)%Z ->
  (Qabs (T - inject_Z (Z.max 1 n) * R) <= Qabs (T - inject_Z m * R))%Q.
Proof.
  intros HR [Hlo Hhi] Hm.
  assert (E : (T / R * R == T)%Q) by (field; lra).
  apply (Qmult_le_compat_r _ _ R) in Hlo; [|lra].
  apply (Qmult_lt_compat_r _ _ R) in Hhi; [|lra].
  rewrite E in Hlo, Hhi.
  assert (Hm1 : (1 * R <= inject_Z m * R)%Q).
  { apply Qmult_le_compat_r; [|lra].
    change 1%Q with (inject_Z 1). now rewrite <- Zle_Qle. }
  destruct (Z.le_gt_cases n 0) as [Hn | Hn].
  - (* clamped to one hour *)
    rewrite Z.max_l by lia.
    assert (Hn0 : (inject_Z n * R <= 0 * R)%Q).
    { apply Qmult_le_compat_r; [|lra].
      change 0%Q with (inject_Z 0). now rewrite <- Zle_Qle. }
    change (inject_Z 1) with 1%Q.
    apply Qabs_case; intros; apply Qabs_case; intros; lra.
  - rewrite Z.max_r by lia.
    destruct (Z.lt_trichotomy m n) as [Hlt | [Heq | Hgt]].
    + assert (Hmn : (inject_Z m * R <= (inject_Z n - 1) * R)%Q).
      { apply Qmult_le_compat_r; [|lra].
        change 1%Q with (inject_Z 1).
        unfold Qminus. rewrite <- inject_Z_opp, <- inject_Z_plus, <- Zle_Qle. lia. }
      apply Qabs_case; intros; apply Qabs_case; intros; lra.
    + subst m. apply Qle_refl.
    + assert (Hmn : ((inject_Z n + 1) * R <= inject_Z m * R)%Q).
      { apply Qmult_le_compat_r; [|lra].
        change 1%Q with (inject_Z 1).
        rewrite <- inject_Z_plus, <- Zle_Qle. lia. }
      apply Qabs_case; intros; apply Qabs_case; intros; lra.
Qed.

Lemma snap_nearest (t : Qc) (r m : Z) :
  (0 < r)%Z -> (1 <= m)%Z ->
  (snapDiff t r <= Qcabs (t - Z2Qc (m * r)))%Qc.
Proof.
  intros Hr Hm. unfold snapDiff, snapAmount, snapHours.
  assert (HR : (0 < inject_Z r)%Q).
  { change 0%Q with (inject_Z 0). now rewrite <- Zlt_Qlt. }
  pose proof (roundZ_bounds (t / Z2Qc r)) as B.
  rewrite this_div, this_Z2Qc in B.
  to_Q. rewrite !inject_Z_mult.
  now apply nearest_Q.
Qed.

(** A multiple [h * r] of the rate, [h >= 1], snaps to itself. *)
Lemma snapHours_exact (h r : Z) :
  (1 <= h)%Z -> (0 < r)%Z -> snapHours (Z2Qc (h * r)) r = h.
Proof.
  intros Hh Hr. unfold snapHours.
  assert (E : (Z2Qc (h * r) / Z2Qc r)%Qc = Z2Qc h).
  { rewrite <- Z2Qc_mult. apply Qcdiv_mult_l.
    intros E0. apply (@Z2Qc_inj r 0) in E0. lia. }
  rewrite E, roundZ_Z2Qc. lia.
Qed.

Lemma snapDiff_exact (h r : Z) :
  (1 <= h)%Z -> (0 < r)%Z -> snapDiff (Z2Qc (h * r)) r = 0%Qc.
Proof.
  intros Hh Hr. unfold snapDiff, snapAmount.
  rewrite snapHours_exact by assumption.
  apply Qc_ext. to_Q. apply Qabs_case; intros; lra.
Qed.

(** Re-running the resolver on the amount it returned changes nothing. *)
Lemma resolve_idempotent (a : num) :
  calculateMetricsFromAmount (m_amount (calculateMetricsFromAmount a)) =
  calculateMetricsFromAmount a.
Proof.
  destruct a as [ | | | t]; try reflexivity.
  destruct (Qc_eq_dec t 0) as [-> | Ht]; [reflexivity|].
  rewrite (resolve_Fin Ht).
  destruct (Qcltb (snapDiff t 65) (snapDiff t 60)) eqn:Cmp.
  - (* the candidate of 65 was strictly closer *)
    cbn [candidate m_amount]. unfold snapAmount at 1.
    set (k := snapHours t 65).
    assert (Hk : (1 <= k)%Z) by apply snapHours_ge_1.
    change (ofZ (k * 65)) with (Fin (Z2Qc (k * 65))).
    rewrite resolve_Fin by (apply Z2Qc_neq_0; lia).
    rewrite (snapDiff_exact Hk) by lia.
    assert (Hpos : Qcltb 0 (snapDiff (Z2Qc (k * 65)) 60) = true).
    { apply Qcltb_lt. unfold snapDiff. apply Qcabs_pos_neq.
      intros E. apply Z2Qc_inj in E. unfold snapAmount in E.
      apply Qcltb_lt in Cmp. apply Qclt_not_le in Cmp. apply Cmp.
      pose proof (@snap_nearest t 60 (snapHours (Z2Qc (k * 65)) 60)
                    ltac:(lia) (snapHours_ge_1 _ _)) as N.
      rewrite <- E in N. exact N. }
    rewrite Hpos. unfold candidate, snapAmount.
    rewrite (snapHours_exact Hk) by lia. reflexivity.
  - cbn [candidate m_amount]. unfold snapAmount at 1.
    set (h := snapHours t 60).
    assert (Hh : (1 <= h)%Z) by apply snapHours_ge_1.
    change (ofZ (h * 60)) with (Fin (Z2Qc (h * 60))).
    rewrite resolve_Fin by (apply Z2Qc_neq_0; lia).
    rewrite (snapDiff_exact Hh) by lia.
    assert (Hneg : Qcltb (snapDiff (Z2Qc (h * 60)) 65) 0 = false).
    { apply Qcltb_ge. apply Qcabs_nonneg. }
    rewrite Hneg. unfold candidate, snapAmount.
    rewrite (snapHours_exact Hh) by lia. reflexivity.
Qed.

(** ** A negative target *)



(** ** The category switch, the amount field *)

(** On an item whose [hours] holds a number, as [types.ts] declares it, the
    switch keeps the amount; to expense it sets the quantity to 1 and the
    rate to the amount; to service it keeps the hours, 1 standing for hours
    that are 0 or [NaN], and sets the rate to amount / hours. *)
Lemma category_switch_on_number (item : LineItem) (n : num) :
  hours item = VNum n ->
  let e := changeItem (EditType expense) item in
  let s := changeItem (EditType service) item in
  let h := if JS.truthy n then n else ofZ 1 in
  (type e = expense /\ amount e = amount item /\
   hours e = VNum (ofZ 1) /\ rate e = VNum (amount item)) /\
  (type s = service /\ amount s = amount item /\
   hours s = VNum h /\ rate s = VNum (amount item / h)).
Proof.
  intros Hn. cbn [changeItem type amount hours rate]. rewrite Hn.
  unfold orElse. cbn [truthyV].
  split; [now repeat split|].
  destruct (JS.truthy n); now repeat split.
Qed.

Lemma category_switch_example :
  let item := mkItem "1" service "" "Residential Build"
                (VNum (ofZ 5)) (VNum (ofZ 20)) (ofZ 100) in
  changeItem (EditType expense) item =
    mkItem "1" expense "" "Residential Build"
      (VNum (ofZ 1)) (VNum (ofZ 100)) (ofZ 100) /\
  changeItem (EditType service) (changeItem (EditType expense) item) =
    mkItem "1" service "" "Residential Build"
      (VNum (ofZ 1)) (VNum (ofZ 100)) (ofZ 100).
Proof. split; compute_eq. Qed.

(** What an edit of the amount and the loss of focus do. An edit stores
    the value as typed, whatever it is: it keeps the hours ([hours || 1])
    and sets the rate to the value over these hours, so that hours * rate is
    the amount when the hours are a non-zero finite number; it does not
    resolve: typing 100 on 2 hours gives the rate 50 where the resolver
    gives 2 hours at 60, amount 120. Leaving the field replaces hours, rate
    and amount of a service item by the resolver's and leaves an expense
    item as it is; both handlers leave the items of another id alone. The
    import keeps the amount of an expense row as given. *)
Lemma amount_edit_and_blur :
  (forall (item : LineItem) (value : jsval),
     let item' := changeItem (EditAmount value) item in
     amount item' = valOf value /\
     hours item' = orElse (hours item) (VNum (ofZ 1)) /\
     rate item' = VNum (valOf value / toNum (hours item')) /\
     id item' = id item /\ type item' = type item /\
     date item' = date item /\ description item' = description item) /\
  (forall (item : LineItem) (value : jsval) (h a : Qc),
     hours item = VNum (Fin h) -> h <> 0%Qc -> valOf value = Fin a ->
     let item' := changeItem (EditAmount value) item in
     (toNum (hours item') * toNum (rate item'))%num = amount item') /\
  (let item := mkItem "1" service "" "Residential Build"
                 (VNum (ofZ 2)) (VNum (ofZ 65)) (ofZ 130) in
   changeItem (EditAmount (VStr "100")) item =
     mkItem "1" service "" "Residential Build"
       (VNum (ofZ 2)) (VNum (ofZ 50)) (ofZ 100) /\
   blurItem (changeItem (EditAmount (VStr "100")) item) =
     mkItem "1" service "" "Residential Build"
       (VNum (ofZ 2)) (VNum (ofZ 60)) (ofZ 120)) /\
  (forall item : LineItem, type item = service ->
     let metrics := calculateMetricsFromAmount (amount item) in
     blurItem item =
       mkItem (id item) service (date item) (description item)
         (VNum (m_hours metrics)) (VNum (m_rate metrics)) (m_amount metrics)) /\
  (forall item : LineItem, type item = expense -> blurItem item = item) /\
  (forall (i : string) (e : Edit) (prev : list LineItem),
     Forall (fun item => id item <> i) prev ->
     handleItemChange i e prev = prev /\ handleAmountBlur i prev = prev) /\
  (forall rowAmount rowHours rowRate : num,
     JS.isNaN rowAmount = false ->
     finalAmount (rowFinals expense rowAmount rowHours rowRate) = rowAmount).
Proof.
  split.
  { intros item value. cbn. now repeat split. }
  split.
  { intros item value h a Hh Hnz Hv. cbn [changeItem hours rate amount].
    rewrite Hh, Hv. unfold orElse. cbn [truthyV JS.truthy].
    rewrite (is_zero_Fin_false Hnz). cbn [negb toNum].
    now apply div_mul_cancel. }
  split.
  { cbv zeta. split; compute_eq. }
  split.
  { intros item Ht. cbv zeta. unfold blurItem. now rewrite Ht. }
  split.
  { intros item Ht. unfold blurItem. now rewrite Ht. }
  split.
  { intros i e prev Hall. unfold handleItemChange, handleAmountBlur.
    induction Hall as [|item prev Hid _ [IH1 IH2]]; [now split|].
    cbn [map]. apply String.eqb_neq in Hid. rewrite Hid. cbn [negb].
    now rewrite IH1, IH2. }
  intros rowAmount rowHours rowRate Ha. cbn [rowFinals]. rewrite Ha. cbn [negb].
  destruct (JS.isNaN rowRate), (JS.isNaN rowHours); reflexivity.
Qed.

(** ** Dates *)

Lemma isDateSep_cases (c : ascii) :
  isDateSep c = true -> c = "/"%char \/ c = "-"%char.
Proof.
  unfold isDateSep. intros H. apply orb_true_iff in H.
  destruct H as [H | H]; apply Ascii.eqb_eq in H; auto.
Qed.

Lemma oneOrTwoDigits_cases (s : string) :
  oneOrTwoDigits s ->
  (exists a, s = String a "" /\ Str.isDigit a = true) \/
  (exists a b, s = String a (String b "") /\
               Str.isDigit a = true /\ Str.isDigit b = true).
Proof.
  intros [D L]. destruct s as [|a [|b [|c s]]]; cbn in L.
  - destruct L; discriminate.
  - left. exists a. cbn in D. rewrite andb_true_r in D. auto.
  - right. exists a, b. cbn in D. rewrite andb_true_r in D.
    apply andb_true_iff in D. destruct D. auto.
  - destruct L; discriminate.
Qed.

Lemma fourDigits_cases (s : string) :
  fourDigits s ->
  exists a b c d,
    s = String a (String b (String c (String d ""))) /\
    Str.isDigit a = true /\ Str.isDigit b = true /\
    Str.isDigit c = true /\ Str.isDigit d = true.
Proof.
  intros [D L]. destruct s as [|a [|b [|c [|d [|e s]]]]]; try discriminate L.
  exists a, b, c, d. cbn in D. rewrite andb_true_r in D.
  apply andb_true_iff in D. destruct D as [Da D].
  apply andb_true_iff in D. destruct D as [Db D].
  apply andb_true_iff in D. destruct D as [Dc Dd].
  repeat split; assumption.
Qed.

Lemma isDigit_not_dash (c : ascii) : Str.isDigit c = true -> Ascii.eqb c "-" = false.
Proof.
  intros H. destruct (Ascii.eqb c "-") eqn:E; [|reflexivity].
  apply Ascii.eqb_eq in E. subst c. discriminate H.
Qed.

Lemma isDigit_slash : Str.isDigit "/" = false.
Proof. reflexivity. Qed.

Lemma isDigit_dash : Str.isDigit "-" = false.
Proof. reflexivity. Qed.

(** Evaluation of a matcher on a string whose digits are variables. *)
Ltac digits_step :=
  match goal with
  | H : Str.isDigit ?c = true |- context [Str.isDigit ?c] => rewrite H
  | H : Str.isDigit ?c = true |- context [Ascii.eqb ?c "-"] =>
      rewrite (@isDigit_not_dash c H)
  | |- context [Str.isDigit ?c] =>
      tryif is_var c then fail else
        let v := eval vm_compute in (Str.isDigit c) in
        change (Str.isDigit c) with v
  | |- context [Ascii.eqb ?a ?b] =>
      tryif is_var a then fail else
        let v := eval vm_compute in (Ascii.eqb a b) in
        change (Ascii.eqb a b) with v
  end.

Ltac digits_eval :=
  repeat (cbn -[Str.isDigit Ascii.eqb]; digits_step);
  cbn -[Str.isDigit Ascii.eqb].

Section DateFacts.

Variable Date_parse : string -> num.
Variable Date_toISOString : num -> string.

Let normalize := normalizeDateToISO Date_parse Date_toISOString.

Lemma normalize_canonical (s : string) :
  isoDateRe s = true -> normalize s = s.
Proof.
  intros H. unfold normalize, normalizeDateToISO.
  destruct (s =? "") eqn:E.
  - apply String.eqb_eq in E. subst s. discriminate H.
  - now rewrite H.
Qed.

(** Day, month and year digits around two separators: re-ordered, day and
    month padded to two digits. *)
Lemma normalize_dmy (d m y : string) (c1 c2 : ascii) :
  oneOrTwoDigits d -> oneOrTwoDigits m -> fourDigits y ->
  isDateSep c1 = true -> isDateSep c2 = true ->
  normalize (d ++ String c1 (m ++ String c2 y)) =
  y ++ "-" ++ Str.padStart 2 "0" m ++ "-" ++ Str.padStart 2 "0" d.
Proof.
  intros Hd Hm Hy H1 H2.
  destruct (fourDigits_cases Hy) as (y1 & y2 & y3 & y4 & -> & Y1 & Y2 & Y3 & Y4).
  unfold normalize, normalizeDateToISO.
  destruct (oneOrTwoDigits_cases Hd) as [(a & -> & A) | (a & b & -> & A & B)];
  destruct (oneOrTwoDigits_cases Hm) as [(p & -> & P) | (p & q & -> & P & Q)];
  destruct (isDateSep_cases c1 H1) as [-> | ->];
  destruct (isDateSep_cases c2 H2) as [-> | ->];
  digits_eval; reflexivity.
Qed.

(** What was normalised from day, month and year displays as day, month
    and year again, padded. *)
Lemma display_normalize_dmy (d m y : string) (c1 c2 : ascii) :
  oneOrTwoDigits d -> oneOrTwoDigits m -> fourDigits y ->
  isDateSep c1 = true -> isDateSep c2 = true ->
  formatDateForDisplay (normalize (d ++ String c1 (m ++ String c2 y))) =
  Str.padStart 2 "0" d ++ "/" ++ Str.padStart 2 "0" m ++ "/" ++ y.
Proof.
  intros Hd Hm Hy H1 H2. rewrite normalize_dmy by assumption.
  destruct (fourDigits_cases Hy) as (y1 & y2 & y3 & y4 & -> & Y1 & Y2 & Y3 & Y4).
  unfold formatDateForDisplay.
  destruct (oneOrTwoDigits_cases Hd) as [(a & -> & A) | (a & b & -> & A & B)];
  destruct (oneOrTwoDigits_cases Hm) as [(p & -> & P) | (p & q & -> & P & Q)];
  digits_eval; reflexivity.
Qed.

Lemma normalize_unparseable (s : string) :
  isoDateRe s = false -> matchDMY s = None ->
  JS.isNaN (Date_parse s) = true ->
  normalize s = s.
Proof.
  intros H1 H2 H3. unfold normalize, normalizeDateToISO.
  destruct (s =? "") eqn:E.
  - apply String.eqb_eq in E. now subst s.
  - rewrite H1, H2, H3. reflexivity.
Qed.

End DateFacts.

Lemma display_not_canonical (s : string) :
  isoDateRe s = false -> formatDateForDisplay s = s.
Proof.
  intros H. unfold formatDateForDisplay.
  destruct (s =? "") eqn:E.
  - apply String.eqb_eq in E. now subst s.
  - now rewrite H.
Qed.

(** ** Substrings and the keyword test *)

Lemma prefix_iff (x s : string) :
  String.prefix x s = true <-> exists post, s = x ++ post.
Proof.
  revert s. induction x as [|a x IH]; intros s.
  - split; [intros _; now exists s |]. intros _. now destruct s.
  - destruct s as [|b s]; cbn [String.prefix].
    + split; [discriminate | intros [post E]; discriminate E].
    + destruct (ascii_dec a b) as [-> | N].
      * rewrite IH. split; intros [post E]; exists post.
        -- cbn. now rewrite E.
        -- cbn in E. now injection E.
      * split; [discriminate|]. intros [post E]. cbn in E.
        injection E as E1 _. now symmetry in E1.
Qed.

Lemma isSubstring_cons (x s : string) (c : ascii) :
  isSubstring x (String c s) <->
  (exists post, String c s = x ++ post) \/ isSubstring x s.
Proof.
  split.
  - intros (pre & post & E). destruct pre as [|p pre].
    + left. now exists post.
    + right. cbn in E. injection E as _ E. now exists pre, post.
  - intros [[post E] | (pre & post & E)].
    + now exists "", post.
    + exists (String c pre), post. cbn. now rewrite E.
Qed.

Lemma isSubstring_empty (x : string) : isSubstring x "" <-> x = "".
Proof.
  split.
  - intros (pre & post & E). destruct pre; [|discriminate E].
    destruct x; [reflexivity | discriminate E].
  - intros ->. now exists "", "".
Qed.

Lemma includes_iff (s x : string) :
  Str.includes s x = true <-> isSubstring x s.
Proof.
  induction s as [|c s IH]; cbn [Str.includes].
  - rewrite orb_false_r, isSubstring_empty. destruct x; cbn; split; congruence.
  - rewrite orb_true_iff, isSubstring_cons, IH, prefix_iff. reflexivity.
Qed.

Lemma lowerChar_idem (c : ascii) : Str.lowerChar (Str.lowerChar c) = Str.lowerChar c.
Proof.
  destruct c as [[] [] [] [] [] [] [] []]; reflexivity.
Qed.

Lemma toLowerCase_idem (s : string) :
  Str.toLowerCase (Str.toLowerCase s) = Str.toLowerCase s.
Proof.
  induction s as [|c s IH]; [reflexivity|].
  cbn [Str.toLowerCase]. now rewrite lowerChar_idem, IH.
Qed.

(** A literal matches under the [i] flag where its lower case starts the
    lower case of the text. *)
Lemma prefix_ci_lower (lit s : string) :
  Str.prefix_ci lit s = String.prefix (Str.toLowerCase lit) (Str.toLowerCase s).
Proof.
  revert s. induction lit as [|a lit IH]; intros s.
  - now destruct s.
  - destruct s as [|b s]; [reflexivity|].
    cbn [Str.prefix_ci Str.toLowerCase String.prefix]. rewrite IH.
    destruct (ascii_dec (Str.lowerChar a) (Str.lowerChar b)) as [E | N].
    + rewrite E. now rewrite Ascii.eqb_refl.
    + apply Ascii.eqb_neq in N. now rewrite N.
Qed.

Lemma test_alt_ci_iff (alts : list string) (s : string) :
  Str.test_alt_ci alts s = true <->
  exists lit, In lit alts /\
              isSubstring (Str.toLowerCase lit) (Str.toLowerCase s).
Proof.
  induction s as [|c s IH]; cbn [Str.test_alt_ci].
  - rewrite orb_false_r, existsb_exists. split.
    + intros (lit & Hin & Hp). exists lit. split; [exact Hin|].
      rewrite prefix_ci_lower in Hp. apply prefix_iff in Hp.
      destruct Hp as [post E]. now exists "", post.
    + intros (lit & Hin & Hsub). exists lit. split; [exact Hin|].
      rewrite prefix_ci_lower. cbn [Str.toLowerCase] in *.
      apply isSubstring_empty in Hsub. now rewrite Hsub.
  - rewrite orb_true_iff, existsb_exists, IH. split.
    + intros [(lit & Hin & Hp) | (lit & Hin & Hsub)]; exists lit; (split; [exact Hin|]).
      * rewrite prefix_ci_lower in Hp. apply prefix_iff in Hp.
        destruct Hp as [post E]. now exists "", post.
      * cbn [Str.toLowerCase]. apply isSubstring_cons. now right.
    + intros (lit & Hin & Hsub). cbn [Str.toLowerCase] in Hsub.
      apply isSubstring_cons in Hsub. destruct Hsub as [Hp | Hsub].
      * left. exists lit. split; [exact Hin|].
        rewrite prefix_ci_lower. now apply prefix_iff.
      * right. now exists lit.
Qed.

Lemma expenseKeywords_lower :
  Forall (fun kw => Str.toLowerCase kw = kw) expenseKeywords.
Proof. repeat constructor. Qed.

(** The description of a row names an expense. *)
Lemma implicit_expense_iff (d : string) :
  Str.test_alt_ci expenseKeywords (Str.toLowerCase d) = true <->
  exists kw, In kw expenseKeywords /\ isSubstring kw (Str.toLowerCase d).
Proof.
  rewrite test_alt_ci_iff. rewrite toLowerCase_idem.
  pose proof expenseKeywords_lower as L. rewrite Forall_forall in L.
  split; intros (kw & Hin & Hsub); exists kw; (split; [exact Hin|]).
  - now rewrite (L kw Hin) in Hsub.
  - now rewrite (L kw Hin).
Qed.

Lemma rowType_expense_iff (row : Row) :
  rowType row = expense <-> explicitExpense row \/ implicitExpense row.
Proof.
  unfold rowType. cbv zeta.
  set (imp := Str.test_alt_ci expenseKeywords _).
  set (exp := match getRowValue row typeKeys with
              | Some t => Str.includes (Str.toLowerCase t) "expense"
              | None => false
              end).
  assert (I : imp = true <-> implicitExpense row) by apply implicit_expense_iff.
  assert (X : exp = true <-> explicitExpense row).
  { unfold exp, explicitExpense.
    destruct (getRowValue row typeKeys) as [t|].
    - rewrite includes_iff. split.
      + intros H. exists t. auto.
      + intros (t' & E & H). injection E as <-. exact H.
    - split; [discriminate | intros (t' & E & _); discriminate E]. }
  rewrite <- I, <- X.
  destruct exp, imp; cbn [orb]; intuition congruence.
Qed.

(** ** A second pass of the row normaliser *)

Ltac fin_step :=
  cbn [rowFinals JS.isNaN JS.is_zero JS.div JS.mul negb andb orb inf_of
       finalAmount finalHours finalRate].

(** The figures of an expense row, read again, are found as they are. *)
Lemma rowFinals_expense_again (A H R : num) :
  let f := rowFinals expense A H R in
  rowFinals expense (finalAmount f) (finalHours f) (finalRate f) = f.
Proof.
  cbv zeta.
  destruct A as [ | | |a], H as [ | | |h], R as [ | | |r]; fin_step;
  repeat (match goal with
          | |- context [sgn ?q] => destruct (sgn q) eqn:?; fin_step
          end);
  reflexivity.
Qed.

(** The figures of a service row resolved from its amount, read again,
    are found as they are. *)
Lemma rowFinals_service_again (A H R : num) :
  JS.isNaN A = false -> JS.is_zero A = false ->
  let f := rowFinals service A H R in
  rowFinals service (finalAmount f) (finalHours f) (finalRate f) = f.
Proof.
  intros HA HZ. cbv zeta. cbn [rowFinals]. rewrite HA, HZ. cbn [negb andb].
  cbn [finalAmount finalHours finalRate].
  destruct A as [ | | |t]; try discriminate HA; try reflexivity.
  assert (Ht : t <> 0%Qc).
  { intros ->. discriminate HZ. }
  destruct (resolve_shape Ht) as (h & r & Hh & Hr & Hhr & E).
  assert (NZ : JS.is_zero (m_amount (calculateMetricsFromAmount (Fin t))) = false).
  { rewrite E. cbn [m_amount]. rewrite is_zero_ofZ. apply Z.eqb_neq. lia. }
  assert (NN : JS.isNaN (m_amount (calculateMetricsFromAmount (Fin t))) = false).
  { rewrite E. reflexivity. }
  rewrite NZ, NN. cbn [negb andb]. now rewrite resolve_idempotent.
Qed.

Section SecondPass.

Variable Date_parse : string -> num.
Variable Date_toISOString : num -> string.

Let run := importRow Date_parse Date_toISOString.

Lemma description_not_empty (i : string) (row : Row) :
  (description (run i row) =? "") = false.
Proof.
  unfold run, importRow. cbn [description].
  destruct (orEmpty (getRowValue row descKeys) =? "") eqn:E; [|exact E].
  now destruct (rowType row).
Qed.

(** The description of a service item does not name an expense. *)
Lemma service_description (i : string) (row : Row) :
  rowType row = service ->
  Str.test_alt_ci expenseKeywords
    (Str.toLowerCase (description (run i row))) = false.
Proof.
  intros Hs. unfold run, importRow. cbn [description]. rewrite Hs.
  destruct (orEmpty (getRowValue row descKeys) =? "") eqn:E; [reflexivity|].
  unfold rowType in Hs. cbv zeta in Hs.
  destruct (Str.test_alt_ci expenseKeywords
              (Str.toLowerCase (orEmpty (getRowValue row descKeys)))); [|reflexivity].
  rewrite orb_true_r in Hs. discriminate Hs.
Qed.

(** A record that presents an item is classified as the item is. *)
Lemma presented_type (i : string) (row row' : Row) :
  presents row' (run i row) -> rowType row' = type (run i row).
Proof.
  intros (Ht & Hd & _).
  assert (T : type (run i row) = rowType row) by reflexivity.
  unfold rowType at 1. cbv zeta. rewrite Ht, Hd. cbn [orEmpty].
  rewrite T. destruct (rowType row) eqn:E.
  - cbn [typeName]. rewrite (service_description i row E). reflexivity.
  - reflexivity.
Qed.

(** The second pass on an expense, or on a service resolved from its
    amount, finds the item again. *)
Lemma second_pass (i i' : string) (row row' : Row) :
  presents row' (run i row) ->
  type (run i row) = expense \/
  (JS.isNaN (parseCell (getRowValue row amountKeys)) = false /\
   JS.is_zero (parseCell (getRowValue row amountKeys)) = false) ->
  sameItem (run i' row') (run i row).
Proof.
  intros P Hpath.
  pose proof (presented_type P) as Ty.
  pose proof (description_not_empty i row) as Dne.
  destruct P as (_ & Hd & Hh & Hr & Ha).
  assert (F : rowFinals (rowType row')
                (parseCell (getRowValue row' amountKeys))
                (parseCell (getRowValue row' hoursKeys))
                (parseCell (getRowValue row' rateKeys)) =
              rowFinals (rowType row)
                (parseCell (getRowValue row amountKeys))
                (parseCell (getRowValue row hoursKeys))
                (parseCell (getRowValue row rateKeys))).
  { rewrite Ha, Hh, Hr, Ty.
    change (type (run i row)) with (rowType row) in *.
    unfold run, importRow. cbn [amount hours rate toNum].
    destruct Hpath as [E | [NN NZ]].
    - rewrite E. apply rowFinals_expense_again.
    - destruct (rowType row).
      + now apply rowFinals_service_again.
      + apply rowFinals_expense_again. }
  unfold sameItem.
  split; [exact Ty|].
  split.
  { unfold run at 1, importRow at 1. cbn [description].
    rewrite Hd. cbn [orEmpty]. now rewrite Dne. }
  unfold run, importRow. cbn [hours rate amount]. now rewrite F.
Qed.

End SecondPass.

(** * Properties of the binary64 reading *)

(** ** Powers of two *)

Lemma pow2_pos (e : Z) : (0 < B64.pow2 e)%Q.
Proof. apply Qpower_0_lt. reflexivity. Qed.

Lemma pow2_add (a b : Z) : (B64.pow2 (a + b) == B64.pow2 a * B64.pow2 b)%Q.
Proof. apply Qpower_plus. discriminate. Qed.

Lemma pow2_Z (e : Z) : (0 <= e)%Z -> (B64.pow2 e == inject_Z (2 ^ e))%Q.
Proof. intros H. unfold B64.pow2. now rewrite Zpower_Qpower. Qed.

Lemma pow2_le (a b : Z) : (a <= b)%Z -> (B64.pow2 a <= B64.pow2 b)%Q.
Proof. intros H. apply Qpower_le_compat_l; [exact H | discriminate]. Qed.

Lemma pow2_lt (a b : Z) : (a < b)%Z -> (B64.pow2 a < B64.pow2 b)%Q.
Proof. intros H. apply Qpower_lt_compat_l; [exact H | reflexivity]. Qed.

Lemma pow2_opp (a : Z) : (B64.pow2 a * B64.pow2 (- a) == 1)%Q.
Proof. rewrite <- pow2_add, Z.add_opp_diag_r. reflexivity. Qed.

Lemma div_pow2 (x : Q) (e : Z) : (x / B64.pow2 e == x * B64.pow2 (- e))%Q.
Proof. unfold B64.pow2, Qdiv. now rewrite Qpower_opp. Qed.

(** [B64.ilog2] is the integer logarithm. *)
Lemma ilog2_spec (a : Q) :
  (0 < a)%Q -> (B64.pow2 (B64.ilog2 a) <= a < B64.pow2 (B64.ilog2 a + 1))%Q.
Proof.
  intros Ha. destruct a as [n d].
  assert (Hn : (0 < n)%Z) by (unfold Qlt in Ha; cbn in Ha; lia).
  unfold B64.ilog2. cbn [Qnum Qden].
  set (ln := Z.log2 n). set (ld := Z.log2 (Zpos d)).
  destruct (Z.log2_spec n Hn) as [N1 N2]. fold ln in N1, N2.
  destruct (Z.log2_spec (Zpos d) ltac:(lia)) as [D1 D2]. fold ld in D1, D2.
  assert (Ln : (0 <= ln)%Z) by apply Z.log2_nonneg.
  assert (Ld : (0 <= ld)%Z) by apply Z.log2_nonneg.
  assert (E : (n # d == inject_Z n * / inject_Z (Zpos d))%Q) by apply Qmake_Qdiv.
  assert (Pd : (0 < inject_Z (Zpos d))%Q) by reflexivity.
  assert (QN1 : (B64.pow2 ln <= inject_Z n)%Q) by (rewrite pow2_Z by lia; now rewrite <- Zle_Qle).
  assert (QN2 : (inject_Z n < B64.pow2 (ln + 1))%Q)
    by (rewrite pow2_Z by lia; rewrite <- Zlt_Qlt; now rewrite <- Z.add_1_r in N2).
  assert (QD1 : (B64.pow2 ld <= inject_Z (Zpos d))%Q) by (rewrite pow2_Z by lia; now rewrite <- Zle_Qle).
  assert (QD2 : (inject_Z (Zpos d) < B64.pow2 (ld + 1))%Q)
    by (rewrite pow2_Z by lia; rewrite <- Zlt_Qlt; now rewrite <- Z.add_1_r in D2).
  (* a * D = n *)
  assert (M : ((n # d) * inject_Z (Zpos d) == inject_Z n)%Q).
  { rewrite E. field. lra. }
  set (a := (n # d)%Q) in *.
  pose proof (pow2_pos ld) as Pld. pose proof (pow2_pos (ln - ld)) as P0.
  pose proof (pow2_pos (ln - ld - 1)) as Pm. pose proof (pow2_pos (ln - ld + 1)) as Pp.
  assert (U : (a < B64.pow2 (ln - ld + 1))%Q).
  { apply Qnot_le_lt. intros C.
    assert ((B64.pow2 (ln - ld + 1) * B64.pow2 ld <= a * inject_Z (Zpos d))%Q).
    { apply Qle_trans with (a * B64.pow2 ld)%Q.
      - apply Qmult_le_compat_r; lra.
      - rewrite !(Qmult_comm a). apply Qmult_le_compat_r; lra. }
    rewrite <- pow2_add in H. replace (ln - ld + 1 + ld)%Z with (ln + 1)%Z in H by lia.
    lra. }
  assert (L : (B64.pow2 (ln - ld - 1) < a)%Q).
  { apply Qnot_le_lt. intros C.
    assert ((a * inject_Z (Zpos d) < B64.pow2 (ln - ld - 1) * B64.pow2 (ld + 1))%Q).
    { apply Qle_lt_trans with (B64.pow2 (ln - ld - 1) * inject_Z (Zpos d))%Q.
      - apply Qmult_le_compat_r; lra.
      - rewrite !(Qmult_comm (B64.pow2 (ln - ld - 1))). apply Qmult_lt_compat_r; lra. }
    rewrite <- pow2_add in H. replace (ln - ld - 1 + (ld + 1))%Z with ln in H by lia.
    lra. }
  destruct (Qle_bool (B64.pow2 (ln - ld)) a) eqn:B.
  - apply Qle_bool_iff in B. split; [exact B | exact U].
  - assert (B' : ~ (B64.pow2 (ln - ld) <= a)%Q) by (rewrite <- Qle_bool_iff; congruence).
    replace (ln - ld - 1 + 1)%Z with (ln - ld)%Z by lia. split; lra.
Qed.
(** ** The nearest integer *)

Lemma floor_bounds (m : Q) : (inject_Z (Qfloor m) <= m < inject_Z (Qfloor m) + 1)%Q.
Proof.
  split; [apply Qfloor_le|].
  pose proof (Qlt_floor m) as H. rewrite inject_Z_plus in H. exact H.
Qed.

Lemma nearestEven_bounds (m : Q) :
  (inject_Z (B64.nearestEven m) - (1 # 2) <= m <= inject_Z (B64.nearestEven m) + (1 # 2))%Q.
Proof.
  unfold B64.nearestEven. destruct (floor_bounds m) as [Lo Hi].
  set (f := Qfloor m) in *.
  destruct (m - inject_Z f ?= 1 # 2)%Q eqn:C.
  - apply Qeq_alt in C.
    destruct (Z.even f); rewrite ?inject_Z_plus; change (inject_Z 1) with 1%Q; split; lra.
  - apply Qlt_alt in C. split; lra.
  - apply Qgt_alt in C. rewrite inject_Z_plus. change (inject_Z 1) with 1%Q. split; lra.
Qed.

Lemma nearestEven_nearest (m : Q) (k : Z) :
  (Qabs (m - inject_Z (B64.nearestEven m)) <= Qabs (m - inject_Z k))%Q.
Proof.
  destruct (nearestEven_bounds m) as [Lo Hi]. set (n := B64.nearestEven m) in *.
  destruct (Z.lt_trichotomy k n) as [H | [-> | H]].
  - assert (K : (inject_Z k <= inject_Z n - 1)%Q).
    { change 1%Q with (inject_Z 1). unfold Qminus.
      rewrite <- inject_Z_opp, <- inject_Z_plus, <- Zle_Qle. lia. }
    apply Qabs_case; intros; apply Qabs_case; intros; lra.
  - apply Qle_refl.
  - assert (K : (inject_Z n + 1 <= inject_Z k)%Q).
    { change 1%Q with (inject_Z 1). rewrite <- inject_Z_plus, <- Zle_Qle. lia. }
    apply Qabs_case; intros; apply Qabs_case; intros; lra.
Qed.

Lemma nearestEven_Z (k : Z) : B64.nearestEven (inject_Z k) = k.
Proof.
  unfold B64.nearestEven. rewrite Qfloor_Z.
  assert (Z0 : (inject_Z k - inject_Z k == 0)%Q) by ring.
  assert (E : (inject_Z k - inject_Z k ?= 1 # 2)%Q = Lt)
    by (rewrite Z0; reflexivity).
  now rewrite E.
Qed.

Lemma nearestEven_comp (m m' : Q) : (m == m')%Q -> B64.nearestEven m = B64.nearestEven m'.
Proof.
  intros E. unfold B64.nearestEven. rewrite (Qfloor_comp _ _ E).
  assert (C : (m - inject_Z (Qfloor m') ?= 1 # 2)%Q = (m' - inject_Z (Qfloor m') ?= 1 # 2)%Q)
    by now rewrite E.
  now rewrite C.
Qed.

Lemma nearestEven_mono (m m' : Q) :
  (m <= m')%Q -> (B64.nearestEven m <= B64.nearestEven m')%Z.
Proof.
  intros H. destruct (nearestEven_bounds m) as [Lo Hi].
  destruct (nearestEven_bounds m') as [Lo' Hi'].
  destruct (Z.le_gt_cases (B64.nearestEven m) (B64.nearestEven m')) as [L | G]; [exact L|].
  exfalso.
  (* n' + 1 <= n, so both are ties around the same half *)
  assert (K : (inject_Z (B64.nearestEven m') + 1 <= inject_Z (B64.nearestEven m))%Q).
  { change 1%Q with (inject_Z 1). rewrite <- inject_Z_plus, <- Zle_Qle. lia. }
  assert (E1 : (m == inject_Z (B64.nearestEven m) - (1 # 2))%Q) by lra.
  assert (E2 : (m' == inject_Z (B64.nearestEven m') + (1 # 2))%Q) by lra.
  assert (E3 : (inject_Z (B64.nearestEven m) == inject_Z (B64.nearestEven m') + 1)%Q) by lra.
  assert (EM : (m == m')%Q) by lra.
  apply nearestEven_comp in EM. lia.
Qed.
(** ** The nearest double *)

Section RoundPos.

Variable a : Q.
Hypothesis a_pos : (0 < a)%Q.

Let e := B64.expOf a.
Let m := (a / B64.pow2 e)%Q.
Let n := B64.nearestEven m.

Lemma roundPos_eq : B64.roundPos a = (inject_Z n * B64.pow2 e)%Q.
Proof. reflexivity. Qed.

Lemma scaled_eq : (a == m * B64.pow2 e)%Q.
Proof.
  unfold m. pose proof (pow2_pos e). field. lra.
Qed.

Lemma expOf_ge : (-1074 <= e)%Z.
Proof. unfold e, B64.expOf. lia. Qed.

Lemma scaled_lt : (m < inject_Z (2 ^ 53))%Q.
Proof.
  destruct (ilog2_spec a_pos) as [_ Hi].
  assert (E : (B64.ilog2 a + 1 <= e + 53)%Z) by (unfold e, B64.expOf; lia).
  pose proof (pow2_le E) as P. rewrite (pow2_add e 53) in P.
  rewrite (@pow2_Z 53) in P by lia.
  pose proof (pow2_pos e) as Pe. pose proof scaled_eq as S.
  apply Qnot_le_lt. intros C.
  assert ((inject_Z (2 ^ 53) * B64.pow2 e <= m * B64.pow2 e)%Q)
    by (apply Qmult_le_compat_r; lra).
  rewrite (Qmult_comm (B64.pow2 e)) in P. lra.
Qed.

Lemma scaled_ge : (-1074 < e)%Z -> (inject_Z (2 ^ 52) <= m)%Q.
Proof.
  intros H. destruct (ilog2_spec a_pos) as [Lo _].
  assert (E : B64.ilog2 a = (e + 52)%Z) by (unfold e, B64.expOf in *; lia).
  rewrite E, (pow2_add e 52), (@pow2_Z 52) in Lo by lia.
  pose proof (pow2_pos e) as Pe. pose proof scaled_eq as S.
  apply Qnot_lt_le. intros C.
  assert ((m * B64.pow2 e < inject_Z (2 ^ 52) * B64.pow2 e)%Q)
    by (apply Qmult_lt_compat_r; lra).
  rewrite (Qmult_comm (B64.pow2 e)) in Lo. lra.
Qed.

Lemma scaled_pos : (0 < m)%Q.
Proof.
  pose proof (pow2_pos e) as Pe. pose proof scaled_eq as S.
  apply Qnot_le_lt. intros C.
  assert ((m * B64.pow2 e <= 0 * B64.pow2 e)%Q) by (apply Qmult_le_compat_r; lra).
  lra.
Qed.

Lemma rounded_le : (0 <= n <= 2 ^ 53)%Z.
Proof.
  unfold n. split.
  - rewrite <- (nearestEven_Z 0). apply nearestEven_mono.
    pose proof scaled_pos. change (inject_Z 0) with 0%Q. lra.
  - rewrite <- (nearestEven_Z (2 ^ 53)). apply nearestEven_mono.
    pose proof scaled_lt. lra.
Qed.

Lemma rounded_ge : (-1074 < e)%Z -> (2 ^ 52 <= n)%Z.
Proof.
  intros H. unfold n. rewrite <- (nearestEven_Z (2 ^ 52)).
  apply nearestEven_mono. now apply scaled_ge.
Qed.

Lemma distance_scaled (k : Z) :
  (Qabs (a - inject_Z k * B64.pow2 e) == Qabs (m - inject_Z k) * B64.pow2 e)%Q.
Proof.
  pose proof (pow2_pos e) as Pe.
  rewrite <- (Qabs_pos (B64.pow2 e)) at 2 by lra.
  rewrite <- Qabs_Qmult. apply Qabs_wd. rewrite scaled_eq at 1. ring.
Qed.

(** No double is nearer to [a] than [B64.roundPos a]. *)
Lemma roundPos_nearest (d : Q) :
  representable d -> (Qabs (a - B64.roundPos a) <= Qabs (a - d))%Q.
Proof.
  intros (md & f & Hm & Hf & Ed). rewrite roundPos_eq.
  pose proof (pow2_pos e) as Pe.
  rewrite (distance_scaled n).
  destruct (Z.le_gt_cases e f) as [G | L].
  - (* [d] is a multiple of the last place *)
    assert (Ek : (d == inject_Z (md * 2 ^ (f - e)) * B64.pow2 e)%Q).
    { rewrite Ed, inject_Z_mult, <- (@pow2_Z (f - e)) by lia.
      rewrite <- Qmult_assoc, <- pow2_add. now replace (f - e + e)%Z with f by lia. }
    rewrite Ek, distance_scaled.
    apply Qmult_le_compat_r; [apply nearestEven_nearest | lra].
  - (* [d] lies below the binade of [a] *)
    assert (E52 : (-1074 < e)%Z) by lia.
    pose proof (scaled_ge E52) as M52.
    assert (D : (d < inject_Z (2 ^ 52) * B64.pow2 e)%Q).
    { rewrite Ed.
      apply Qle_lt_trans with (inject_Z (Z.abs md) * B64.pow2 f)%Q.
      - apply Qmult_le_compat_r; [|pose proof (pow2_pos f); lra].
        rewrite <- Zle_Qle. lia.
      - apply Qlt_le_trans with (inject_Z (2 ^ 53) * B64.pow2 f)%Q.
        + apply Qmult_lt_compat_r; [apply pow2_pos|]. now rewrite <- Zlt_Qlt.
        + rewrite <- !pow2_Z, <- !pow2_add by lia. apply pow2_le. lia. }
    apply Qle_trans with (Qabs (m - inject_Z (2 ^ 52)) * B64.pow2 e)%Q.
    + apply Qmult_le_compat_r; [apply nearestEven_nearest | lra].
    + rewrite <- distance_scaled.
      assert (A : (inject_Z (2 ^ 52) * B64.pow2 e <= a)%Q).
      { rewrite scaled_eq. apply Qmult_le_compat_r; lra. }
      apply Qabs_case; intros; apply Qabs_case; intros; lra.
Qed.

Lemma roundPos_nonneg : (0 <= B64.roundPos a)%Q.
Proof.
  rewrite roundPos_eq. pose proof (pow2_pos e). pose proof rounded_le as [N _].
  apply Qmult_le_0_compat; [|lra]. change 0%Q with (inject_Z 0). now rewrite <- Zle_Qle.
Qed.

(** Short of an overflow, [B64.roundPos a] is a double. *)
Lemma roundPos_representable :
  (B64.roundPos a < B64.pow2 1024)%Q -> representable (B64.roundPos a).
Proof.
  rewrite roundPos_eq. intros O.
  pose proof rounded_le as [N0 N53]. pose proof expOf_ge as E.
  assert (Big : (972 <= e)%Z -> (B64.pow2 1024 <= inject_Z n * B64.pow2 e)%Q).
  { intros H. pose proof (rounded_ge ltac:(lia)) as N52.
    apply Qle_trans with (inject_Z (2 ^ 52) * B64.pow2 e)%Q.
    - rewrite <- pow2_Z, <- pow2_add by lia. apply pow2_le. lia.
    - apply Qmult_le_compat_r; [now rewrite <- Zle_Qle | pose proof (pow2_pos e); lra]. }
  destruct (Z.eq_dec n (2 ^ 53)) as [E53 | NE].
  - exists (2 ^ 52)%Z, (e + 1)%Z.
    assert (V : (inject_Z n * B64.pow2 e == inject_Z (2 ^ 52) * B64.pow2 (e + 1))%Q).
    { rewrite E53, <- !pow2_Z, <- !pow2_add by lia. now replace (53 + e)%Z with (52 + (e + 1))%Z by lia. }
    split; [reflexivity|]. split; [|exact V].
    split; [lia|]. destruct (Z.le_gt_cases (e + 1) 971) as [?|G]; [assumption|].
    exfalso. assert ((B64.pow2 1024 <= inject_Z n * B64.pow2 e)%Q).
    { rewrite V, <- pow2_Z, <- pow2_add by lia. apply pow2_le. lia. }
    lra.
  - exists n, e. split; [lia|]. split; [|reflexivity].
    split; [lia|]. destruct (Z.le_gt_cases e 971) as [?|G]; [assumption|].
    exfalso. pose proof (Big ltac:(lia)). lra.
Qed.

End RoundPos.

Lemma ilog2_Z (z : Z) : (0 < z)%Z -> B64.ilog2 (inject_Z z) = Z.log2 z.
Proof.
  intros H. unfold B64.ilog2.
  change (Qnum (inject_Z z)) with z. change (Qden (inject_Z z)) with 1%positive.
  change (Z.log2 1) with 0%Z. rewrite Z.sub_0_r.
  assert (B : Qle_bool (B64.pow2 (Z.log2 z)) (inject_Z z) = true).
  { apply Qle_bool_iff. rewrite pow2_Z by apply Z.log2_nonneg.
    rewrite <- Zle_Qle. now apply Z.log2_spec. }
  now rewrite B.
Qed.

(** A whole number of at most 53 bits is a double. *)
Lemma roundPos_Z (z : Z) :
  (0 < z < 2 ^ 53)%Z -> (B64.roundPos (inject_Z z) == inject_Z z)%Q.
Proof.
  intros [H0 H53]. unfold B64.roundPos, B64.expOf. rewrite ilog2_Z by exact H0.
  assert (L : (0 <= Z.log2 z < 53)%Z).
  { split; [apply Z.log2_nonneg|]. apply Z.log2_lt_pow2; assumption. }
  rewrite Z.max_l by lia. set (e := (Z.log2 z - 52)%Z).
  assert (E : (inject_Z z / B64.pow2 e == inject_Z (z * 2 ^ (- e)))%Q).
  { rewrite div_pow2, inject_Z_mult, <- pow2_Z by lia. reflexivity. }
  rewrite (nearestEven_comp E), nearestEven_Z.
  rewrite inject_Z_mult, <- pow2_Z by lia.
  rewrite <- Qmult_assoc, (Qmult_comm (B64.pow2 (- e))), pow2_opp. ring.
Qed.
(** ** Rounding a number *)

Lemma this_Z2Qc_eq (z : Z) : this (Z2Qc z) = inject_Z z.
Proof.
  unfold Z2Qc. cbn [this Q2Qc]. apply Qred_identity. cbn. apply Z.gcd_1_r.
Qed.

Lemma Qc_compare_Z2Qc_0 (z : Z) : (Z2Qc z ?= 0)%Qc = (z ?= 0)%Z.
Proof. apply (Z2Qc_compare z 0). Qed.

Lemma not_overflow (p : Q) :
  (p < B64.pow2 1024)%Q -> Qle_bool (B64.pow2 1024) p = false.
Proof.
  intros H. destruct (Qle_bool (B64.pow2 1024) p) eqn:B; [|reflexivity].
  apply Qle_bool_iff in B. lra.
Qed.

Lemma small_Z (z : Z) : (z < 2 ^ 53)%Z -> (inject_Z z < B64.pow2 1024)%Q.
Proof.
  intros H. apply Qlt_trans with (inject_Z (2 ^ 53)); [now rewrite <- Zlt_Qlt|].
  rewrite <- pow2_Z by lia. apply pow2_lt. lia.
Qed.

(** A whole number below [2^53] in absolute value is a double. *)
Lemma rnd_Z (z : Z) : (Z.abs z < 2 ^ 53)%Z -> B64.rnd (Z2Qc z) = Fin (Z2Qc z).
Proof.
  intros H. unfold B64.rnd. rewrite Qc_compare_Z2Qc_0, this_Z2Qc_eq.
  destruct (Z.compare_spec z 0) as [E | L | G]; [reflexivity | |].
  - assert (P : (0 < - z < 2 ^ 53)%Z) by lia.
    change (- inject_Z z)%Q with (inject_Z (- z)).
    pose proof (roundPos_Z P) as R.
    rewrite not_overflow by (rewrite R; apply small_Z; lia).
    unfold ofQ. f_equal. apply Qc_ext. rewrite this_Q2Qc, this_Z2Qc, R.
    rewrite inject_Z_opp. ring.
  - assert (P : (0 < z < 2 ^ 53)%Z) by lia.
    pose proof (roundPos_Z P) as R.
    rewrite not_overflow by (rewrite R; apply small_Z; lia).
    unfold ofQ. f_equal. apply Qc_ext. now rewrite this_Q2Qc, this_Z2Qc, R.
Qed.

Lemma rndN_ofZ (z : Z) : (Z.abs z < 2 ^ 53)%Z -> B64.rndN (ofZ z) = ofZ z.
Proof. apply rnd_Z. Qed.

Lemma representable_opp (d : Q) : representable d -> representable (- d).
Proof.
  intros (m & e & Hm & He & E). exists (- m)%Z, e.
  split; [lia|]. split; [exact He|]. rewrite E, inject_Z_opp. ring.
Qed.

Lemma representable_comp (d d' : Q) :
  (d == d')%Q -> representable d -> representable d'.
Proof.
  intros E (m & e & Hm & He & Ed). exists m, e. now rewrite <- E.
Qed.

(** What [B64.rnd] gives, short of an infinity, is a double, and no double is
    nearer. *)
Lemma rnd_nearest (q p : Qc) :
  B64.rnd q = Fin p ->
  representable (this p) /\
  forall d, representable d -> (Qabs (this q - this p) <= Qabs (this q - d))%Q.
Proof.
  unfold B64.rnd. destruct (q ?= 0)%Qc eqn:C.
  - intros H. injection H as <-. apply Qceq_alt in C. subst q.
    split.
    + exists 0%Z, 0%Z. split; [reflexivity|]. split; [lia|]. reflexivity.
    + intros d _. change (this 0%Qc) with 0%Q.
      apply Qabs_case; intros; apply Qabs_case; intros; lra.
  - apply Qclt_alt in C. assert (P : (0 < - this q)%Q).
    { unfold Qclt in C. change (this 0%Qc) with 0%Q in C. lra. }
    destruct (Qle_bool (B64.pow2 1024) (B64.roundPos (- this q))) eqn:O; [discriminate|].
    assert (O' : (B64.roundPos (- this q) < B64.pow2 1024)%Q).
    { apply Qnot_le_lt. rewrite <- Qle_bool_iff. congruence. }
    intros H. injection H as <-. split.
    + apply representable_comp with (- B64.roundPos (- this q))%Q;
        [now rewrite this_Q2Qc|].
      apply representable_opp. now apply roundPos_representable.
    + intros d Hd. rewrite this_Q2Qc.
      pose proof (roundPos_nearest P (representable_opp Hd)) as N.
      revert N. apply Qabs_case; intros; apply Qabs_case; intros;
        revert N; apply Qabs_case; intros; apply Qabs_case; intros; lra.
  - apply Qcgt_alt in C. assert (P : (0 < this q)%Q).
    { unfold Qclt in C. change (this 0%Qc) with 0%Q in C. lra. }
    destruct (Qle_bool (B64.pow2 1024) (B64.roundPos (this q))) eqn:O; [discriminate|].
    assert (O' : (B64.roundPos (this q) < B64.pow2 1024)%Q).
    { apply Qnot_le_lt. rewrite <- Qle_bool_iff. congruence. }
    intros H. injection H as <-. split.
    + apply representable_comp with (B64.roundPos (this q)); [now rewrite this_Q2Qc|].
      now apply roundPos_representable.
    + intros d Hd. rewrite this_Q2Qc. now apply roundPos_nearest.
Qed.

(** ** The error of a rounding *)

Lemma ilog2_lt (a : Q) (k : Z) : (0 < a)%Q -> (a < B64.pow2 k)%Q -> (B64.ilog2 a < k)%Z.
Proof.
  intros P H. destruct (ilog2_spec P) as [Lo _].
  destruct (Z.lt_ge_cases (B64.ilog2 a) k) as [L | G]; [exact L|].
  pose proof (pow2_le G). lra.
Qed.

Lemma roundPos_finite (a : Q) :
  (0 < a)%Q -> (a < B64.pow2 1023)%Q -> (B64.roundPos a < B64.pow2 1024)%Q.
Proof.
  intros P H. pose proof (@ilog2_lt a 1023 P H) as L.
  pose proof (rounded_le P) as [_ N]. rewrite roundPos_eq.
  apply Qle_lt_trans with (inject_Z (2 ^ 53) * B64.pow2 (B64.expOf a))%Q.
  - apply Qmult_le_compat_r; [now rewrite <- Zle_Qle|].
    pose proof (pow2_pos (B64.expOf a)). lra.
  - rewrite <- pow2_Z, <- pow2_add by lia. apply pow2_lt. unfold B64.expOf. lia.
Qed.

Lemma roundPos_error (a : Q) :
  (0 < a)%Q ->
  (Qabs (a - B64.roundPos a) <= a * B64.pow2 (-53) + B64.pow2 (-1075))%Q.
Proof.
  intros P. rewrite roundPos_eq, (distance_scaled a).
  set (e := B64.expOf a). set (m := (a / B64.pow2 e)%Q).
  pose proof (nearestEven_bounds m) as [Lo Hi].
  pose proof (pow2_pos e) as Pe.
  assert (A : (Qabs (m - inject_Z (B64.nearestEven m)) <= 1 # 2)%Q)
    by (apply Qabs_case; intros; lra).
  apply Qle_trans with ((1 # 2) * B64.pow2 e)%Q.
  { apply Qmult_le_compat_r; [exact A | lra]. }
  destruct (ilog2_spec P) as [Lg _].
  pose proof (pow2_pos (-1075)) as P1. pose proof (pow2_pos (-53)) as P2.
  assert (H2 : ((1 # 2) == B64.pow2 (-1))%Q) by reflexivity.
  rewrite H2, <- pow2_add.
  destruct (Z.le_gt_cases (B64.ilog2 a - 52) (-1074)) as [S | N].
  - replace (-1 + e)%Z with (-1075)%Z by (unfold e, B64.expOf; lia).
    assert ((0 <= a * B64.pow2 (-53))%Q) by (apply Qmult_le_0_compat; lra). lra.
  - replace (-1 + e)%Z with (B64.ilog2 a + -53)%Z by (unfold e, B64.expOf; lia).
    rewrite pow2_add.
    assert ((B64.pow2 (B64.ilog2 a) * B64.pow2 (-53) <= a * B64.pow2 (-53))%Q)
      by (apply Qmult_le_compat_r; lra).
    lra.
Qed.

(** A number below [2 ^ 1023] in absolute value is rounded to a finite
    double. *)
Lemma rnd_finite (q : Qc) :
  (Qabs (this q) < B64.pow2 1023)%Q -> exists p, B64.rnd q = Fin p.
Proof.
  intros B. unfold B64.rnd. destruct (q ?= 0)%Qc eqn:C.
  - now exists q.
  - apply Qclt_alt in C. assert (P : (0 < - this q)%Q).
    { unfold Qclt in C. change (this 0%Qc) with 0%Q in C. lra. }
    assert (B' : (- this q < B64.pow2 1023)%Q).
    { revert B. apply Qabs_case; intros; lra. }
    rewrite (not_overflow (roundPos_finite P B')). eexists. reflexivity.
  - apply Qcgt_alt in C. assert (P : (0 < this q)%Q).
    { unfold Qclt in C. change (this 0%Qc) with 0%Q in C. lra. }
    assert (B' : (this q < B64.pow2 1023)%Q).
    { revert B. apply Qabs_case; intros; lra. }
    rewrite (not_overflow (roundPos_finite P B')). eexists. reflexivity.
Qed.

(** The relative error of a rounding is at most [2 ^ -53], but for the
    numbers below the normal range. *)
Lemma rnd_error (q p : Qc) :
  B64.rnd q = Fin p ->
  (Qabs (this q - this p) <= Qabs (this q) * B64.pow2 (-53) + B64.pow2 (-1075))%Q.
Proof.
  unfold B64.rnd. destruct (q ?= 0)%Qc eqn:C.
  - intros H. injection H as <-.
    pose proof (pow2_pos (-1075)). pose proof (pow2_pos (-53)).
    assert ((0 <= Qabs (this q) * B64.pow2 (-53))%Q)
      by (apply Qmult_le_0_compat; [apply Qabs_nonneg | lra]).
    assert (Z0 : (this q - this q == 0)%Q) by ring.
    rewrite Z0. change (Qabs 0) with 0%Q. lra.
  - apply Qclt_alt in C. assert (P : (0 < - this q)%Q).
    { unfold Qclt in C. change (this 0%Qc) with 0%Q in C. lra. }
    destruct (Qle_bool (B64.pow2 1024) (B64.roundPos (- this q))); [discriminate|].
    intros H. injection H as <-. rewrite this_Q2Qc.
    pose proof (roundPos_error P) as E.
    rewrite (Qabs_neg (this q)) by lra.
    revert E. apply Qabs_case; intros; apply Qabs_case; intros; lra.
  - apply Qcgt_alt in C. assert (P : (0 < this q)%Q).
    { unfold Qclt in C. change (this 0%Qc) with 0%Q in C. lra. }
    destruct (Qle_bool (B64.pow2 1024) (B64.roundPos (this q))); [discriminate|].
    intros H. injection H as <-. rewrite this_Q2Qc.
    rewrite (Qabs_pos (this q)) by lra. now apply roundPos_error.
Qed.

(** ** Rounding next to a whole number *)

Lemma inject_Z_sub (a b : Z) : (inject_Z (a - b) == inject_Z a - inject_Z b)%Q.
Proof.
  unfold Z.sub. rewrite inject_Z_plus, inject_Z_opp. ring.
Qed.

Lemma representable_32 (m : Z) :
  (Z.abs m < 2 ^ 53)%Z -> representable (inject_Z m * (1 # 32)).
Proof.
  intros H. exists m, (-5)%Z. split; [exact H|]. split; [lia|]. reflexivity.
Qed.

(** Rounding to the nearest double does not cross [n - 1/2], nor reach
    [n + 1/2] from [n + 15/32] or below. *)
Lemma rnd_above (q p : Qc) (n : Z) :
  (Z.abs n < 2 ^ 48)%Z ->
  (inject_Z n - (1 # 2) <= this q)%Q ->
  B64.rnd q = Fin p -> (inject_Z n - (1 # 2) <= this p)%Q.
Proof.
  intros Hn Lo R. destruct (@rnd_nearest q p R) as [_ N].
  apply Qnot_lt_le. intros C.
  assert (D : representable (inject_Z (32 * n - 16) * (1 # 32)))
    by (apply representable_32; lia).
  pose proof (N _ D) as M. rewrite inject_Z_sub, inject_Z_mult in M.
  change (inject_Z 32) with 32%Q in M. change (inject_Z 16) with 16%Q in M.
  revert M. apply Qabs_case; intros ?; apply Qabs_case; intros ? ?; lra.
Qed.

Lemma rnd_below (q p : Qc) (n : Z) :
  (Z.abs n < 2 ^ 48)%Z ->
  (this q <= inject_Z n + (15 # 32))%Q ->
  B64.rnd q = Fin p -> (this p < inject_Z n + (1 # 2))%Q.
Proof.
  intros Hn Hi R. destruct (@rnd_nearest q p R) as [_ N].
  apply Qnot_le_lt. intros C.
  assert (D : representable (inject_Z (32 * n + 15) * (1 # 32)))
    by (apply representable_32; lia).
  pose proof (N _ D) as M. rewrite inject_Z_plus, inject_Z_mult in M.
  change (inject_Z 32) with 32%Q in M. change (inject_Z 15) with 15%Q in M.
  revert M. apply Qabs_case; intros ?; apply Qabs_case; intros ? ?; lra.
Qed.

(** A number between [n - 1/2] and [n + 15/32] is rounded to a double that
    [Math.round] takes to [n]. *)
Lemma round_near (q p : Qc) (n : Z) :
  (Z.abs n < 2 ^ 48)%Z ->
  (inject_Z n - (1 # 2) <= this q <= inject_Z n + (15 # 32))%Q ->
  B64.rnd q = Fin p -> roundZ p = n.
Proof.
  intros Hn [Lo Hi] R. apply roundZ_unique. split.
  - exact (@rnd_above q p n Hn Lo R).
  - exact (@rnd_below q p n Hn Hi R).
Qed.

(** ** Whole amounts *)

Lemma add_ofZ (a b : Z) : (ofZ a + ofZ b)%num = ofZ (a + b).
Proof.
  change (Fin (Z2Qc a + Z2Qc b) = Fin (Z2Qc (a + b))). f_equal.
  apply Qc_ext. to_Q. rewrite inject_Z_plus. reflexivity.
Qed.

Lemma sub_ofZ (a b : Z) : (ofZ a - ofZ b)%num = ofZ (a - b).
Proof.
  change (Fin (Z2Qc a + - Z2Qc b) = Fin (Z2Qc (a - b))). f_equal.
  apply Qc_ext. to_Q. rewrite inject_Z_sub. ring.
Qed.

Lemma add64_ofZ (a b : Z) :
  (Z.abs (a + b) < 2 ^ 53)%Z -> B64.add (ofZ a) (ofZ b) = ofZ (a + b).
Proof.
  intros H. unfold B64.add. rewrite add_ofZ. now apply rndN_ofZ.
Qed.

Lemma sub64_ofZ (a b : Z) :
  (Z.abs (a - b) < 2 ^ 53)%Z -> B64.sub (ofZ a) (ofZ b) = ofZ (a - b).
Proof.
  intros H. unfold B64.sub. rewrite sub_ofZ. now apply rndN_ofZ.
Qed.

(** ** Totals of whole amounts *)

Lemma sumZ_le_sumAbs (zs : list Z) : (Z.abs (sumZ zs) <= sumAbs zs)%Z.
Proof.
  induction zs as [|z zs IH]; cbn [sumZ sumAbs fold_right]; [lia|].
  fold (sumZ zs). fold (sumAbs zs). lia.
Qed.

Lemma sumAbs_nonneg (zs : list Z) : (0 <= sumAbs zs)%Z.
Proof. pose proof (sumZ_le_sumAbs zs). lia. Qed.

(** Both readings of the sum of whole amounts give the whole sum. *)
Lemma fold_add_whole (items : list LineItem) (zs : list Z) (acc : Z) :
  map amount items = map ofZ zs ->
  fold_left (fun sum item => (sum + amount item)%num) items (ofZ acc) =
  ofZ (acc + sumZ zs).
Proof.
  revert zs acc. induction items as [|i items IH]; intros [|z zs] acc E;
    try discriminate E.
  - cbn. now rewrite Z.add_0_r.
  - cbn [map] in E. injection E as Ei E. cbn [fold_left]. rewrite Ei, add_ofZ.
    rewrite (IH zs _ E). cbn [sumZ fold_right]. fold (sumZ zs). f_equal. lia.
Qed.

Lemma fold_add64_whole (items : list LineItem) (zs : list Z) (acc : Z) :
  map amount items = map ofZ zs ->
  (Z.abs acc + sumAbs zs < 2 ^ 53)%Z ->
  fold_left (fun sum item => B64.add sum (amount item)) items (ofZ acc) =
  ofZ (acc + sumZ zs).
Proof.
  revert zs acc. induction items as [|i items IH]; intros [|z zs] acc E B;
    try discriminate E.
  - cbn. now rewrite Z.add_0_r.
  - cbn [map] in E. injection E as Ei E. cbn [fold_left].
    cbn [sumAbs fold_right] in B. fold (sumAbs zs) in B.
    pose proof (sumAbs_nonneg zs).
    rewrite Ei, add64_ofZ by lia.
    rewrite (IH zs _ E) by lia. cbn [sumZ fold_right]. fold (sumZ zs). f_equal. lia.
Qed.

(** The service items of a list of whole amounts. *)
Lemma filter_whole (f : LineItem -> bool) (items : list LineItem) (zs : list Z) :
  map amount items = map ofZ zs ->
  exists zs', map amount (filter f items) = map ofZ zs' /\
              (sumAbs zs' <= sumAbs zs)%Z.
Proof.
  revert zs. induction items as [|i items IH]; intros [|z zs] E; try discriminate E.
  - exists []. split; [reflexivity | cbn; lia].
  - cbn [map] in E. injection E as Ei E. destruct (IH zs E) as (zs' & E' & L).
    cbn [filter]. destruct (f i).
    + exists (z :: zs'). split; [cbn [map]; now rewrite Ei, E'|].
      cbn [sumAbs fold_right]. fold (sumAbs zs). fold (sumAbs zs'). lia.
    + exists zs'. split; [exact E'|].
      cbn [sumAbs fold_right]. fold (sumAbs zs). lia.
Qed.

(** ** The two percentages *)

Lemma lit_15 : B64.lit (15 # 100) = ofQ (5404319552844595 # 36028797018963968).
Proof. compute_eq. Qed.

Lemma lit_20 : B64.lit (20 # 100) = ofQ (3602879701896397 # 18014398509481984).
Proof. compute_eq. Qed.

Lemma inject_Z_bound (s b : Z) :
  (Z.abs s <= b)%Z -> (- inject_Z b <= inject_Z s <= inject_Z b)%Q.
Proof.
  intros H. rewrite <- inject_Z_opp, <- !Zle_Qle. lia.
Qed.

Lemma small_finite (q : Qc) :
  (Qabs (this q) <= inject_Z (2 ^ 53))%Q -> exists p, B64.rnd q = Fin p.
Proof.
  intros H. apply rnd_finite. apply Qle_lt_trans with (inject_Z (2 ^ 53)); [exact H|].
  rewrite <- pow2_Z by lia. apply pow2_lt. lia.
Qed.

(** A double just below half an odd number [w] is at least one unit in the
    last place away from it. *)
Lemma below_half_gap (p : Q) (w : Z) :
  representable p -> (0 < w < 2 ^ 50)%Z ->
  (p < inject_Z w * (1 # 2))%Q ->
  (inject_Z w * (1 # 2) - p <= inject_Z w * (1 # 27021597764222976))%Q -> False.
Proof.
  intros (M & e & HM & He & Ep) Hw Lt Near.
  destruct (Z.le_gt_cases (-1) e) as [G | L].
  - (* [p] is a multiple of one half *)
    assert (E2 : (p * 2 == inject_Z (M * 2 ^ (e + 1)))%Q).
    { rewrite Ep, inject_Z_mult, <- (@pow2_Z (e + 1)) by lia.
      rewrite pow2_add. change (B64.pow2 1) with 2%Q. ring. }
    assert (I : (M * 2 ^ (e + 1) < w)%Z).
    { rewrite Zlt_Qlt, <- E2. lra. }
    assert (I' : (inject_Z (M * 2 ^ (e + 1)) + 1 <= inject_Z w)%Q).
    { change 1%Q with (inject_Z 1). rewrite <- inject_Z_plus, <- Zle_Qle. lia. }
    assert (W : (inject_Z w < inject_Z (2 ^ 50))%Q) by (rewrite <- Zlt_Qlt; lia).
    assert (W0 : (0 < inject_Z w)%Q)
      by (change 0%Q with (inject_Z 0); rewrite <- Zlt_Qlt; lia).
    change (inject_Z (2 ^ 50)) with 1125899906842624%Q in W. lra.
  - (* [p] is a multiple of [2 ^ e], of less than 53 bits *)
    set (K := (2 ^ (- e))%Z).
    assert (HK : (B64.pow2 (- e) == inject_Z K)%Q) by (apply pow2_Z; lia).
    assert (K0 : (0 < inject_Z K)%Q) by (rewrite <- HK; apply pow2_pos).
    assert (EM : (p * inject_Z K == inject_Z M)%Q).
    { rewrite Ep, <- HK, <- Qmult_assoc, pow2_opp. ring. }
    set (X := (w * 2 ^ (- e - 1))%Z).
    assert (EX : (inject_Z w * (1 # 2) * inject_Z K == inject_Z X)%Q).
    { unfold X, K. rewrite inject_Z_mult, <- !pow2_Z by lia.
      replace (- e)%Z with (1 + (- e - 1))%Z at 1 by lia.
      rewrite pow2_add. change (B64.pow2 1) with 2%Q. ring. }
    assert (I : (M < X)%Z).
    { rewrite Zlt_Qlt, <- EM, <- EX. apply Qmult_lt_compat_r; assumption. }
    assert (N : ((inject_Z w * (1 # 2) - p) * inject_Z K <=
                 inject_Z w * (1 # 27021597764222976) * inject_Z K)%Q)
      by (apply Qmult_le_compat_r; lra).
    assert (N' : (27021597764222976 * (inject_Z X - inject_Z M) <= 2 * inject_Z X)%Q).
    { rewrite <- EM, <- EX. lra. }
    change 27021597764222976%Q with (inject_Z 27021597764222976) in N'.
    change 2%Q with (inject_Z 2) in N'.
    rewrite <- inject_Z_sub, <- !inject_Z_mult, <- Zle_Qle in N'. lia.
Qed.

Lemma mul_ofZ_ofQ (s : Z) (c : Q) :
  (ofZ s * ofQ c)%num = Fin (Z2Qc s * Q2Qc c).
Proof. reflexivity. Qed.

(** On a whole subtotal below [10 ^ 15] the two rounded shares are those of
    the exact products. *)
Lemma gst64_whole (s : Z) :
  (Z.abs s <= 10 ^ 15)%Z ->
  JS.round (B64.mul (ofZ s) (B64.lit (15 # 100))) = ofZ ((3 * s + 10) / 20).
Proof.
  intros B. rewrite lit_15. unfold B64.mul. rewrite mul_ofZ_ofQ. cbn [B64.rndN].
  set (q := (Z2Qc s * Q2Qc (5404319552844595 # 36028797018963968))%Qc).
  assert (Eq : (this q == inject_Z s * (5404319552844595 # 36028797018963968))%Q).
  { unfold q. to_Q. reflexivity. }
  pose proof (@inject_Z_bound s (10 ^ 15) B) as [S1 S2].
  change (inject_Z (10 ^ 15)) with 1000000000000000%Q in S1, S2.
  destruct (@small_finite q) as [p R].
  { rewrite Eq. change (inject_Z (2 ^ 53)) with 9007199254740992%Q.
    apply Qabs_case; intros; lra. }
  rewrite R. change (JS.round (Fin p)) with (ofZ (roundZ p)). f_equal.
  set (n := ((3 * s + 10) / 20)%Z).
  pose proof (Z.div_mod (3 * s + 10) 20 ltac:(lia)) as DM.
  pose proof (Z.mod_pos_bound (3 * s + 10) 20 ltac:(lia)) as MB.
  fold n in DM. set (r := ((3 * s + 10) mod 20)%Z) in *.
  assert (Hn : (Z.abs n < 2 ^ 48)%Z) by lia.
  assert (DQ : (3 * inject_Z s + 10 == 20 * inject_Z n + inject_Z r)%Q).
  { change 3%Q with (inject_Z 3). change 10%Q with (inject_Z 10).
    change 20%Q with (inject_Z 20).
    rewrite <- !inject_Z_mult, <- !inject_Z_plus. now rewrite DM. }
  assert (R0 : (0 <= inject_Z r)%Q)
    by (change 0%Q with (inject_Z 0); rewrite <- Zle_Qle; lia).
  assert (R19 : (inject_Z r <= 19)%Q)
    by (change 19%Q with (inject_Z 19); rewrite <- Zle_Qle; lia).
  destruct (Z.eq_dec r 0) as [Er | Nr].
  - destruct (Z.le_gt_cases s 0) as [Neg | Pos].
    + apply (@round_near q p n Hn); [|exact R]. rewrite Eq.
      rewrite Er in DQ. change (inject_Z 0) with 0%Q in DQ.
      assert ((inject_Z s <= 0)%Q)
        by (change 0%Q with (inject_Z 0); rewrite <- Zle_Qle; lia).
      split; lra.
    + (* the exact share is half an odd number, the product just below *)
      rewrite Er in DQ. change (inject_Z 0) with 0%Q in DQ.
      assert (Sp : (0 < inject_Z s)%Q)
        by (change 0%Q with (inject_Z 0); rewrite <- Zlt_Qlt; lia).
      apply roundZ_unique. split.
      * apply Qnot_lt_le. intros C.
        destruct (@rnd_nearest q p R) as [Rp N].
        assert (W : (inject_Z (2 * n - 1) == 2 * inject_Z n - 1)%Q).
        { rewrite inject_Z_sub, inject_Z_mult. reflexivity. }
        assert (D : representable (inject_Z (2 * n - 1) * (1 # 2))).
        { exists (2 * n - 1)%Z, (-1)%Z. split; [lia|]. split; [lia|]. reflexivity. }
        pose proof (N _ D) as M.
        apply (@below_half_gap (this p) (2 * n - 1) Rp); [lia | rewrite W; lra |].
        rewrite W in *. rewrite Eq in M. revert M.
        apply Qabs_case; intros ?; apply Qabs_case; intros ? ?; lra.
      * apply (@rnd_below q p n Hn); [|exact R]. rewrite Eq. lra.
  - apply (@round_near q p n Hn); [|exact R]. rewrite Eq.
    assert ((1 <= inject_Z r)%Q)
      by (change 1%Q with (inject_Z 1); rewrite <- Zle_Qle; lia).
    split; lra.
Qed.

Lemma tax64_whole (s : Z) :
  (Z.abs s <= 10 ^ 15)%Z ->
  JS.round (B64.mul (ofZ s) (B64.lit (20 # 100))) = ofZ ((2 * s + 5) / 10).
Proof.
  intros B. rewrite lit_20. unfold B64.mul. rewrite mul_ofZ_ofQ. cbn [B64.rndN].
  set (q := (Z2Qc s * Q2Qc (3602879701896397 # 18014398509481984))%Qc).
  assert (Eq : (this q == inject_Z s * (3602879701896397 # 18014398509481984))%Q).
  { unfold q. to_Q. reflexivity. }
  pose proof (@inject_Z_bound s (10 ^ 15) B) as [S1 S2].
  change (inject_Z (10 ^ 15)) with 1000000000000000%Q in S1, S2.
  destruct (@small_finite q) as [p R].
  { rewrite Eq. change (inject_Z (2 ^ 53)) with 9007199254740992%Q.
    apply Qabs_case; intros; lra. }
  rewrite R. change (JS.round (Fin p)) with (ofZ (roundZ p)). f_equal.
  set (n := ((2 * s + 5) / 10)%Z).
  pose proof (Z.div_mod (2 * s + 5) 10 ltac:(lia)) as DM.
  pose proof (Z.mod_pos_bound (2 * s + 5) 10 ltac:(lia)) as MB.
  fold n in DM. set (r := ((2 * s + 5) mod 10)%Z) in *.
  assert (Hn : (Z.abs n < 2 ^ 48)%Z) by lia.
  assert (R1 : (1 <= r)%Z) by lia.
  assert (DQ : (2 * inject_Z s + 5 == 10 * inject_Z n + inject_Z r)%Q).
  { change 2%Q with (inject_Z 2). change 5%Q with (inject_Z 5).
    change 10%Q with (inject_Z 10).
    rewrite <- !inject_Z_mult, <- !inject_Z_plus. now rewrite DM. }
  assert (R1' : (1 <= inject_Z r)%Q)
    by (change 1%Q with (inject_Z 1); rewrite <- Zle_Qle; lia).
  assert (R9 : (inject_Z r <= 9)%Q)
    by (change 9%Q with (inject_Z 9); rewrite <- Zle_Qle; lia).
  apply (@round_near q p n Hn); [|exact R]. rewrite Eq. split; lra.
Qed.

Lemma fold_add64_map (items : list LineItem) (acc : num) :
  fold_left (fun sum item => B64.add sum (amount item)) items acc =
  fold_left B64.add (map amount items) acc.
Proof.
  revert acc. induction items as [|i items IH]; intros acc; [reflexivity|].
  cbn [fold_left map]. apply IH.
Qed.

Lemma sumAmounts64_sum64 (items : list LineItem) :
  B64.sumAmounts items = sum64 (map amount items).
Proof. apply fold_add64_map. Qed.

(** On whole amounts below [10 ^ 15] in all, the totals in binary64 are the
    exact totals. *)
Lemma totals64_whole (items : list LineItem) (zs : list Z) :
  map amount items = map ofZ zs -> (sumAbs zs <= 10 ^ 15)%Z ->
  B64.calculateTotals items = calculateTotals items.
Proof.
  intros E B.
  destruct (@filter_whole (fun i => LineItemType_eqb (type i) service) items zs E)
    as (zs' & E' & L').
  pose proof (sumZ_le_sumAbs zs) as G. pose proof (sumZ_le_sumAbs zs') as G'.
  assert (S64 : B64.sumAmounts items = ofZ (sumZ zs)).
  { unfold B64.sumAmounts. rewrite (@fold_add64_whole items zs 0 E); [reflexivity | lia]. }
  assert (S : sumAmounts items = ofZ (sumZ zs)).
  { unfold sumAmounts. now rewrite (@fold_add_whole items zs 0 E). }
  assert (V64 : B64.serviceGross items = ofZ (sumZ zs')).
  { unfold B64.serviceGross, B64.sumAmounts. cbv zeta.
    rewrite (@fold_add64_whole _ zs' 0 E'); [reflexivity | lia]. }
  assert (V : serviceGross items = ofZ (sumZ zs')).
  { unfold serviceGross, sumAmounts. cbv zeta. now rewrite (@fold_add_whole _ zs' 0 E'). }
  unfold B64.calculateTotals, calculateTotals. cbv zeta.
  rewrite S64, S, V64, V.
  rewrite gst64_whole, tax64_whole by lia.
  destruct (round_percent (sumZ zs')) as [-> ->].
  set (s := sumZ zs') in *. set (g := sumZ zs) in *.
  pose proof (Z.div_mod (3 * s + 10) 20 ltac:(lia)).
  pose proof (Z.mod_pos_bound (3 * s + 10) 20 ltac:(lia)).
  pose proof (Z.div_mod (2 * s + 5) 10 ltac:(lia)).
  pose proof (Z.mod_pos_bound (2 * s + 5) 10 ltac:(lia)).
  rewrite add64_ofZ, sub64_ofZ, add_ofZ, sub_ofZ by lia. reflexivity.
Qed.

(** ** The line amount in binary64 *)

Lemma lineAmount64_Fin (h r : Qc) :
  B64.calculateLineAmount (VNum (Fin h)) (VNum (Fin r)) =
  JS.round (B64.rnd (h * r)).
Proof. reflexivity. Qed.

Lemma round_mul64_0_l (a : num) :
  JS.is_finite a = true -> JS.round (B64.mul (ofZ 0) a) = ofZ 0.
Proof.
  destruct a as [ | | | q]; try discriminate. intros _.
  change (JS.round (B64.rnd (0 * q)) = ofZ 0).
  rewrite Qcmult_0_l. change (ofZ (roundZ 0) = ofZ 0). now rewrite roundZ_0.
Qed.

Lemma round_mul64_0_r (a : num) :
  JS.is_finite a = true -> JS.round (B64.mul a (ofZ 0)) = ofZ 0.
Proof.
  destruct a as [ | | | q]; try discriminate. intros _.
  change (JS.round (B64.rnd (q * 0)) = ofZ 0).
  rewrite Qcmult_0_r. change (ofZ (roundZ 0) = ofZ 0). now rewrite roundZ_0.
Qed.

Lemma orElse_0_finite64 (v : jsval) :
  JS.is_finite (B64.toNum v) = true ->
  JS.is_finite (B64.toNum (orElse v (VNum (ofZ 0)))) = true.
Proof. unfold orElse. destruct (truthyV v); [trivial | reflexivity]. Qed.

(** A product at some distance from the halves is rounded as the exact
    product is. *)
Lemma lineAmount64_exact (h r : Qc) :
  let u := (Qabs (this (h * r)) * B64.pow2 (-53) + B64.pow2 (-1075))%Q in
  let n := roundZ (h * r) in
  (Qabs (this (h * r)) < B64.pow2 1023)%Q ->
  (inject_Z n - (1 # 2) + u <= this (h * r))%Q ->
  (this (h * r) + u < inject_Z n + (1 # 2))%Q ->
  B64.calculateLineAmount (VNum (Fin h)) (VNum (Fin r)) = ofZ n.
Proof.
  intros u n F Lo Hi. rewrite lineAmount64_Fin.
  destruct (rnd_finite _ F) as [p R]. rewrite R.
  change (ofZ (roundZ p) = ofZ n). f_equal. apply roundZ_unique.
  pose proof (rnd_error _ R) as E. fold u in E. revert E.
  apply Qabs_case; intros ? ?; split; lra.
Qed.

Lemma lineAmount64_whole (h r : Z) :
  (Z.abs (h * r) < 2 ^ 53)%Z ->
  B64.calculateLineAmount (VNum (ofZ h)) (VNum (ofZ r)) = ofZ (h * r).
Proof.
  intros B. unfold B64.calculateLineAmount. cbn [B64.toNum]. unfold B64.mul.
  rewrite mul_ofZ, rndN_ofZ by exact B.
  change (ofZ (roundZ (Z2Qc (h * r))) = ofZ (h * r)). now rewrite roundZ_Z2Qc.
Qed.

(** ** The resolver in binary64, on an amount in whole cents *)

(** A double is rounded to itself. *)
Lemma rnd_fix (q : Qc) :
  representable (this q) -> (Qabs (this q) < B64.pow2 1023)%Q -> B64.rnd q = Fin q.
Proof.
  intros Rq B. destruct (rnd_finite q B) as [p R]. rewrite R. f_equal.
  destruct (@rnd_nearest q p R) as [_ N]. pose proof (N _ Rq) as M.
  apply Qc_ext. revert M.
  apply Qabs_case; intros ?; apply Qabs_case; intros ? ?; lra.
Qed.

(** Rounding keeps the order. *)
Lemma rnd_mono (q q' p p' : Qc) :
  (this q <= this q')%Q -> B64.rnd q = Fin p -> B64.rnd q' = Fin p' ->
  (this p <= this p')%Q.
Proof.
  intros L R R'. apply Qnot_lt_le. intros C.
  destruct (@rnd_nearest q p R) as [Rp N].
  destruct (@rnd_nearest q' p' R') as [Rp' N'].
  pose proof (N _ Rp') as M. pose proof (N' _ Rp) as M'.
  assert (E : q = q').
  { apply Qc_ext. apply Qle_antisym; [exact L|].
    revert M M'.
    apply Qabs_case; intros ?; apply Qabs_case; intros ? ?;
      apply Qabs_case; intros ?; apply Qabs_case; intros ? ?; lra. }
  subst q'. rewrite R in R'. injection R' as <-. lra.
Qed.

Lemma rnd_below_14 (q p : Qc) (n : Z) :
  (Z.abs n < 2 ^ 38)%Z ->
  (this q <= inject_Z n + (1 # 2) - (1 # 16384))%Q ->
  B64.rnd q = Fin p -> (this p < inject_Z n + (1 # 2))%Q.
Proof.
  intros Hn Hi R. destruct (@rnd_nearest q p R) as [_ N].
  apply Qnot_le_lt. intros C.
  assert (D : representable (inject_Z (16384 * n + 8191) * (1 # 16384))).
  { exists (16384 * n + 8191)%Z, (-14)%Z. split; [lia|]. split; [lia|]. reflexivity. }
  pose proof (N _ D) as M. rewrite inject_Z_plus, inject_Z_mult in M.
  change (inject_Z 16384) with 16384%Q in M.
  change (inject_Z 8191) with 8191%Q in M.
  revert M. apply Qabs_case; intros ?; apply Qabs_case; intros ? ?; lra.
Qed.

Lemma pow2_m53 : (B64.pow2 (-53) == 1 # 9007199254740992)%Q.
Proof. reflexivity. Qed.

Lemma cents_Q (c : Z) : (this (Q2Qc (c # 100)) == inject_Z c * (1 # 100))%Q.
Proof.
  rewrite this_Q2Qc. unfold Qeq. cbn. lia.
Qed.

(** A double of 32 or more minus a whole number within 33 of it is a
    double. *)
Lemma representable_minus_whole (x : Q) (a : Z) :
  representable x -> (32 <= x)%Q -> (Qabs (x - inject_Z a) <= 33)%Q ->
  representable (x - inject_Z a).
Proof.
  intros (M & e & HM & He & Ex) Lo Near.
  destruct (Z.le_gt_cases 0 e) as [G | L].
  - assert (Ez : (x == inject_Z (M * 2 ^ e))%Q).
    { rewrite Ex, inject_Z_mult, <- pow2_Z by lia. reflexivity. }
    exists (M * 2 ^ e - a)%Z, 0%Z.
    assert (Ed : (x - inject_Z a == inject_Z (M * 2 ^ e - a))%Q).
    { rewrite inject_Z_sub, Ez. reflexivity. }
    split.
    + rewrite Ed in Near.
      assert (B : (- inject_Z 33 <= inject_Z (M * 2 ^ e - a) <= inject_Z 33)%Q).
      { change (inject_Z 33) with 33%Q. revert Near.
        apply Qabs_case; intros; split; lra. }
      rewrite <- inject_Z_opp, <- !Zle_Qle in B. lia.
    + split; [lia|]. rewrite Ed. change (B64.pow2 0) with 1%Q. ring.
  - assert (E47 : (-47 <= e)%Z).
    { destruct (Z.le_gt_cases (-47) e) as [?|S]; [assumption|]. exfalso.
      assert (P : (B64.pow2 e <= B64.pow2 (-48))%Q) by (apply pow2_le; lia).
      pose proof (pow2_pos e) as Pe.
      assert (M0 : (0 < inject_Z M)%Q).
      { apply Qnot_le_lt. intros C.
        assert ((inject_Z M * B64.pow2 e <= 0 * B64.pow2 e)%Q)
          by (apply Qmult_le_compat_r; lra).
        lra. }
      assert (M1 : (inject_Z M <= inject_Z (2 ^ 53 - 1))%Q) by (rewrite <- Zle_Qle; lia).
      assert (X' : (inject_Z M * B64.pow2 e <= inject_Z (2 ^ 53 - 1) * B64.pow2 (-48))%Q).
      { apply Qle_trans with (inject_Z M * B64.pow2 (-48))%Q.
        - rewrite !(Qmult_comm (inject_Z M)). apply Qmult_le_compat_r; lra.
        - apply Qmult_le_compat_r; [exact M1|]. pose proof (pow2_pos (-48)). lra. }
      assert (V' : (inject_Z (2 ^ 53 - 1) * B64.pow2 (-48) < 32)%Q) by reflexivity.
      lra. }
    set (K := (2 ^ (- e))%Z).
    assert (HK : (B64.pow2 (- e) == inject_Z K)%Q) by (apply pow2_Z; lia).
    assert (K0 : (0 < inject_Z K)%Q) by (rewrite <- HK; apply pow2_pos).
    assert (K47 : (K <= 2 ^ 47)%Z) by (apply Z.pow_le_mono_r; lia).
    assert (EM : (x * inject_Z K == inject_Z M)%Q).
    { rewrite Ex, <- HK, <- Qmult_assoc, pow2_opp. ring. }
    exists (M - a * K)%Z, e.
    assert (Ed : ((x - inject_Z a) * inject_Z K == inject_Z (M - a * K))%Q).
    { rewrite inject_Z_sub, inject_Z_mult, <- EM. ring. }
    split.
    + assert (B : (- (33 * inject_Z K) <= inject_Z (M - a * K) <= 33 * inject_Z K)%Q).
      { rewrite <- Ed. revert Near. apply Qabs_case; intros ? ?.
        - split.
          + apply Qle_trans with 0%Q; [lra|]. apply Qmult_le_0_compat; lra.
          + apply Qmult_le_compat_r; lra.
        - split.
          + assert ((- (x - inject_Z a)) * inject_Z K <= 33 * inject_Z K)%Q
              by (apply Qmult_le_compat_r; lra).
            lra.
          + apply Qle_trans with 0%Q; [|lra].
            assert ((x - inject_Z a) * inject_Z K <= 0 * inject_Z K)%Q
              by (apply Qmult_le_compat_r; lra).
            lra. }
      change 33%Q with (inject_Z 33) in B.
      rewrite <- inject_Z_mult, <- inject_Z_opp, <- !Zle_Qle in B. lia.
    + split; [lia|].
      rewrite <- Ed, <- HK, <- Qmult_assoc, (Qmult_comm (B64.pow2 (- e))), pow2_opp.
      ring.
Qed.

(** ** The candidates of the resolver *)

Lemma snap_quotient (t : Qc) (r : Z) :
  (0 < r)%Z -> (this (t / Z2Qc r) * inject_Z r == this t)%Q.
Proof.
  intros Hr. rewrite this_div, this_Z2Qc.
  assert ((0 < inject_Z r)%Q)
    by (change 0%Q with (inject_Z 0); rewrite <- Zlt_Qlt; lia).
  field. lra.
Qed.

Lemma snapAmount_near (t : Qc) (r : Z) :
  (r = 60 \/ r = 65)%Z ->
  (33 <= this t)%Q ->
  (Qabs (this t - inject_Z (snapAmount t r)) <= 33)%Q.
Proof.
  intros Hr Big. pose proof (roundZ_bounds (t / Z2Qc r)) as [Lo Hi].
  pose proof (@snap_quotient t r ltac:(destruct Hr; lia)) as Q.
  unfold snapAmount, snapHours.
  set (n := roundZ (t / Z2Qc r)) in *. set (q := this (t / Z2Qc r)) in *.
  assert (N1 : (1 <= n)%Z).
  { assert (B : (inject_Z 0 < inject_Z n)%Q).
    { change (inject_Z 0) with 0%Q.
      destruct Hr as [-> | ->];
        [change (inject_Z 60) with 60%Q in Q | change (inject_Z 65) with 65%Q in Q];
        lra. }
    rewrite <- Zlt_Qlt in B. lia. }
  rewrite Z.max_r by lia. rewrite inject_Z_mult.
  destruct Hr as [-> | ->];
    [change (inject_Z 60) with 60%Q in * | change (inject_Z 65) with 65%Q in *];
    apply Qabs_case; intros; lra.
Qed.

Lemma snapAmount_small (t : Qc) (r : Z) :
  (r = 60 \/ r = 65)%Z -> (this t < 33)%Q -> snapAmount t r = r.
Proof.
  intros Hr Small. pose proof (roundZ_bounds (t / Z2Qc r)) as [Lo Hi].
  pose proof (@snap_quotient t r ltac:(destruct Hr; lia)) as Q.
  unfold snapAmount, snapHours.
  set (n := roundZ (t / Z2Qc r)) in *. set (q := this (t / Z2Qc r)) in *.
  assert (N1 : (n <= 1)%Z).
  { assert (B : (inject_Z n < inject_Z 2)%Q).
    { change (inject_Z 2) with 2%Q.
      destruct Hr as [-> | ->];
        [change (inject_Z 60) with 60%Q in Q | change (inject_Z 65) with 65%Q in Q];
        lra. }
    rewrite <- Zlt_Qlt in B. lia. }
  rewrite Z.max_l by lia. lia.
Qed.

Lemma snapAmount_le (t : Qc) (r : Z) :
  (r = 60 \/ r = 65)%Z -> (inject_Z (snapAmount t r) <= Qabs (this t) + 66)%Q.
Proof.
  intros Hr. destruct (Qlt_le_dec (this t) 33) as [S | B].
  - rewrite (@snapAmount_small t r Hr S).
    pose proof (Qabs_nonneg (this t)).
    destruct Hr as [-> | ->];
      [change (inject_Z 60) with 60%Q | change (inject_Z 65) with 65%Q]; lra.
  - pose proof (@snapAmount_near t r Hr B) as N. revert N.
    apply Qabs_case; intros ?; apply Qabs_case; intros ? ?; lra.
Qed.

Section Cents.

Variable c : Z.
Variable t : Qc.
Hypothesis c_bound : (Z.abs c <= 10 ^ 12)%Z.
Hypothesis c_nonzero : c <> 0%Z.
Hypothesis t_double : B64.rnd (Q2Qc (c # 100)) = Fin t.

Let C := inject_Z c.
Let T := this t.

Lemma cents_bound : (- (1000000000000) <= C <= 1000000000000)%Q.
Proof.
  pose proof (@inject_Z_bound c (10 ^ 12) c_bound) as [A B].
  change (inject_Z (10 ^ 12)) with 1000000000000%Q in A, B. split; assumption.
Qed.

(** The double is next to the amount in cents. *)
Lemma cents_near : (Qabs (C * (1 # 100) - T) <= 1 # 524288)%Q.
Proof.
  pose proof (@rnd_error _ _ t_double) as E. rewrite cents_Q in E.
  fold C T in E. rewrite pow2_m53 in E.
  assert (P : (B64.pow2 (-1075) <= 1 # 9007199254740992)%Q).
  { rewrite <- pow2_m53. apply pow2_le. lia. }
  destruct cents_bound as [A B].
  eapply Qle_trans; [exact E|].
  apply Qabs_case; intros; lra.
Qed.

Lemma cents_representable : representable T.
Proof. exact (proj1 (@rnd_nearest _ _ t_double)). Qed.

Lemma cents_abs : (Qabs T <= 10000000001)%Q.
Proof.
  pose proof cents_near as N. destruct cents_bound as [A B]. revert N.
  apply Qabs_case; intros ?; apply Qabs_case; intros ? ?; lra.
Qed.

Lemma cents_not_0 : t <> 0%Qc.
Proof.
  intros E. pose proof cents_near as N. unfold T in N. rewrite E in N.
  change (this 0%Qc) with 0%Q in N.
  assert (H : (1 <= C \/ C <= -1)%Q).
  { unfold C. change 1%Q with (inject_Z 1). change (-1)%Q with (inject_Z (-1)).
    rewrite <- !Zle_Qle. lia. }
  revert N. apply Qabs_case; intros ? ?; destruct H; lra.
Qed.

Lemma cents_hours_bound (r : Z) :
  (r = 60 \/ r = 65)%Z -> (Z.abs (roundZ (t / Z2Qc r)) <= 200000000)%Z.
Proof.
  intros Hr. pose proof (roundZ_bounds (t / Z2Qc r)) as [Lo Hi].
  pose proof (@snap_quotient t r ltac:(lia)) as Q. fold T in Q.
  pose proof cents_abs as A.
  set (n := roundZ (t / Z2Qc r)) in *. set (q := this (t / Z2Qc r)) in *.
  assert (B : (- inject_Z 200000000 <= inject_Z n <= inject_Z 200000000)%Q).
  { change (inject_Z 200000000) with 200000000%Q.
    destruct Hr as [-> | ->];
      [change (inject_Z 60) with 60%Q in Q | change (inject_Z 65) with 65%Q in Q];
      revert A; apply Qabs_case; intros ? ?; split; lra. }
  rewrite <- inject_Z_opp, <- !Zle_Qle in B. lia.
Qed.

(** The quotient by a rate is rounded to a double that [Math.round] takes
    where it takes the exact quotient. *)
Lemma cents_hours (r : Z) (p : Qc) :
  (r = 60 \/ r = 65)%Z ->
  B64.rnd (t / Z2Qc r) = Fin p -> roundZ p = roundZ (t / Z2Qc r).
Proof.
  intros Hr R. pose proof (roundZ_bounds (t / Z2Qc r)) as [Lo Hi].
  pose proof (@snap_quotient t r ltac:(lia)) as Q. fold T in Q.
  pose proof (cents_hours_bound Hr) as Bn.
  set (n := roundZ (t / Z2Qc r)) in *.
  apply roundZ_unique. split.
  - apply (@rnd_above (t / Z2Qc r) p n); [lia | exact Lo | exact R].
  - apply (@rnd_below_14 (t / Z2Qc r) p n); [lia | | exact R].
    apply Qnot_lt_le. intros Gap. exfalso.
    set (q := this (t / Z2Qc r)) in *.
    pose proof cents_near as Near.
    set (k := (c - 50 * r * (2 * n + 1))%Z).
    assert (Ek : (inject_Z k == C - 50 * inject_Z r * (2 * inject_Z n + 1))%Q).
    { unfold k, C. rewrite inject_Z_sub, !inject_Z_mult, inject_Z_plus, inject_Z_mult.
      reflexivity. }
    assert (K0 : k = 0%Z).
    { assert (B : (inject_Z (-1) < inject_Z k < inject_Z 1)%Q).
      { change (inject_Z (-1)) with (-1)%Q. change (inject_Z 1) with 1%Q.
        rewrite Ek.
        destruct Hr as [-> | ->];
          [change (inject_Z 60) with 60%Q in *
          |change (inject_Z 65) with 65%Q in *];
          revert Near; apply Qabs_case; intros ? ?; split; lra. }
      rewrite <- !Zlt_Qlt in B. lia. }
    rewrite K0 in Ek. change (inject_Z 0) with 0%Q in Ek.
    assert (Rc : representable (this (Q2Qc (c # 100)))).
    { exists (r * (2 * n + 1))%Z, (-1)%Z. split; [lia|]. split; [lia|].
      rewrite cents_Q. fold C. change (B64.pow2 (-1)) with (1 # 2)%Q.
      rewrite inject_Z_mult, inject_Z_plus, inject_Z_mult.
      change (inject_Z 2) with 2%Q. change (inject_Z 1) with 1%Q. lra. }
    assert (Bc : (Qabs (this (Q2Qc (c # 100))) < B64.pow2 1023)%Q).
    { rewrite cents_Q. fold C. destruct cents_bound as [A B].
      apply Qle_lt_trans with (inject_Z (2 ^ 53)).
      - change (inject_Z (2 ^ 53)) with 9007199254740992%Q.
        apply Qabs_case; intros; lra.
      - rewrite <- pow2_Z by lia. apply pow2_lt. lia. }
    pose proof (rnd_fix _ Rc Bc) as Fx. rewrite t_double in Fx.
    injection Fx as Fx.
    assert (ET : (T == C * (1 # 100))%Q).
    { unfold T. rewrite Fx. apply cents_Q. }
    destruct Hr as [-> | ->];
      [change (inject_Z 60) with 60%Q in *
      |change (inject_Z 65) with 65%Q in *]; lra.
Qed.

Lemma cents_snapHours_bound (r : Z) :
  (r = 60 \/ r = 65)%Z -> (1 <= snapHours t r <= 200000000)%Z.
Proof.
  intros Hr. pose proof (cents_hours_bound Hr). unfold snapHours. lia.
Qed.

(** The rounded difference of the target from the candidate of a rate. *)
Lemma cents_diff (r : Z) :
  (r = 60 \/ r = 65)%Z ->
  exists d : Qc, B64.rnd (t + - Z2Qc (snapAmount t r)) = Fin d.
Proof.
  intros Hr. apply small_finite.
  pose proof (cents_snapHours_bound Hr) as Bh. pose proof cents_abs as A.
  to_Q. fold T.
  assert (BZ : (0 <= snapAmount t r <= 13000000000)%Z)
    by (unfold snapAmount; destruct Hr as [-> | ->]; lia).
  assert (B : (inject_Z 0 <= inject_Z (snapAmount t r) <= inject_Z 13000000000)%Q)
    by (rewrite <- !Zle_Qle; exact BZ).
  change (inject_Z 13000000000) with 13000000000%Q in B.
  change (inject_Z 0) with 0%Q in B.
  change (inject_Z (2 ^ 53)) with 9007199254740992%Q.
  revert A. apply Qabs_case; intros ? ?; apply Qabs_case; intros ?; lra.
Qed.

(** One turn of the loop. *)
Lemma cents_step (best : BestOption) (r : Z) (d : Qc) :
  (r = 60 \/ r = 65)%Z ->
  B64.rnd (t + - Z2Qc (snapAmount t r)) = Fin d ->
  B64.resolveStep (Fin t) best (ofZ r) =
  if JS.lt (Fin (Qcabs d)) (bo_diff best)
  then mkBest (ofZ (snapHours t r)) (ofZ r) (ofZ (snapAmount t r)) (Fin (Qcabs d))
  else best.
Proof.
  intros Hr Rd. unfold B64.resolveStep, B64.div.
  rewrite div_Fin_ofZ by (destruct Hr; lia). cbn [B64.rndN].
  destruct (@small_finite (t / Z2Qc r)) as [p Rp].
  { pose proof (roundZ_bounds (t / Z2Qc r)) as [Lo Hi].
    pose proof (cents_hours_bound Hr) as Bn.
    assert (B : (- inject_Z 200000000 <= inject_Z (roundZ (t / Z2Qc r))
                 <= inject_Z 200000000)%Q)
      by (rewrite <- inject_Z_opp, <- !Zle_Qle; lia).
    change (inject_Z 200000000) with 200000000%Q in B.
    change (inject_Z (2 ^ 53)) with 9007199254740992%Q.
    apply Qabs_case; intros; lra. }
  rewrite Rp. cbn [JS.round]. rewrite (cents_hours Hr Rp), clamp_ofZ.
  fold (snapHours t r).
  pose proof (cents_snapHours_bound Hr) as Bh.
  unfold B64.mul. rewrite mul_ofZ.
  rewrite rndN_ofZ by (destruct Hr as [-> | ->]; lia).
  fold (snapAmount t r).
  change (B64.sub (Fin t) (ofZ (snapAmount t r)))
    with (B64.rnd (t + - Z2Qc (snapAmount t r))).
  rewrite Rd. reflexivity.
Qed.

(** The comparison of the two rounded differences is that of the exact
    ones. *)
Lemma cents_compare (d60 d65 : Qc) :
  B64.rnd (t + - Z2Qc (snapAmount t 60)) = Fin d60 ->
  B64.rnd (t + - Z2Qc (snapAmount t 65)) = Fin d65 ->
  Qcltb (Qcabs d65) (Qcabs d60) = Qcltb (snapDiff t 65) (snapDiff t 60).
Proof.
  intros R60 R65. destruct (Qlt_le_dec T 33) as [S | B].
  - (* one hour at either rate: the candidate of 60 is the nearer *)
    rewrite (@snapAmount_small t 60 (or_introl eq_refl) S) in R60.
    rewrite (@snapAmount_small t 65 (or_intror eq_refl) S) in R65.
    assert (Z0 : B64.rnd 0 = Fin 0%Qc) by reflexivity.
    assert (L1 : (this d65 <= this d60)%Q).
    { apply (@rnd_mono (t + - Z2Qc 65) (t + - Z2Qc 60) d65 d60); [|assumption ..].
      to_Q. change (inject_Z 65) with 65%Q. change (inject_Z 60) with 60%Q. lra. }
    assert (L2 : (this d60 <= 0)%Q).
    { change 0%Q with (this 0%Qc).
      apply (@rnd_mono (t + - Z2Qc 60) 0%Qc d60 0%Qc); [|assumption ..].
      to_Q. fold T. change (inject_Z 60) with 60%Q. lra. }
    unfold snapDiff.
    rewrite (@snapAmount_small t 60 (or_introl eq_refl) S).
    rewrite (@snapAmount_small t 65 (or_intror eq_refl) S).
    transitivity false; [|symmetry]; apply Qcltb_ge; to_Q; fold T.
    + apply Qabs_case; intros ?; apply Qabs_case; intros ?; lra.
    + change (inject_Z 65) with 65%Q. change (inject_Z 60) with 60%Q.
      apply Qabs_case; intros ?; apply Qabs_case; intros ?; lra.
  - (* the differences are doubles *)
    assert (F : forall r d, (r = 60 \/ r = 65)%Z ->
                B64.rnd (t + - Z2Qc (snapAmount t r)) = Fin d ->
                Qcabs d = snapDiff t r).
    { intros r d Hr Rd. unfold snapDiff. f_equal.
      assert (Rp : representable (this (t + - Z2Qc (snapAmount t r)))).
      { apply representable_comp with (T - inject_Z (snapAmount t r))%Q.
        - to_Q. fold T. ring.
        - apply representable_minus_whole;
            [exact cents_representable | lra | now apply snapAmount_near]. }
      assert (Bp : (Qabs (this (t + - Z2Qc (snapAmount t r))) < B64.pow2 1023)%Q).
      { apply Qle_lt_trans with 33%Q.
        - pose proof (@snapAmount_near t r Hr B) as N. fold T in N.
          assert (E : (this (t + - Z2Qc (snapAmount t r)) ==
                       T - inject_Z (snapAmount t r))%Q) by (to_Q; fold T; ring).
          now rewrite E.
        - apply Qlt_trans with (inject_Z (2 ^ 53)); [reflexivity|].
          rewrite <- pow2_Z by lia. apply pow2_lt. lia. }
      pose proof (rnd_fix _ Rp Bp) as Fx. rewrite Rd in Fx. now injection Fx. }
    rewrite (F 60%Z d60 (or_introl eq_refl) R60).
    rewrite (F 65%Z d65 (or_intror eq_refl) R65). reflexivity.
Qed.

(** On an amount in whole cents the resolver in binary64 returns what the
    exact resolver returns. *)
Lemma resolve64_cents :
  B64.calculateMetricsFromAmount (Fin t) = calculateMetricsFromAmount (Fin t).
Proof.
  rewrite (resolve_Fin cents_not_0). unfold B64.calculateMetricsFromAmount.
  rewrite (is_zero_Fin_false cents_not_0).
  unfold rateOptions. cbn [fold_left].
  destruct (@cents_diff 60 (or_introl eq_refl)) as [d60 R60].
  destruct (@cents_diff 65 (or_intror eq_refl)) as [d65 R65].
  rewrite (@cents_step _ 60 d60 (or_introl eq_refl) R60). cbn [bo_diff JS.lt].
  rewrite (@cents_step _ 65 d65 (or_intror eq_refl) R65). cbn [bo_diff JS.lt].
  rewrite (cents_compare R60 R65).
  destruct (Qcltb (snapDiff t 65) (snapDiff t 60)); reflexivity.
Qed.

End Cents.

Lemma Q2Qc_whole_cents (a : Z) : Q2Qc ((100 * a) # 100) = Z2Qc a.
Proof.
  apply Qc_ext. rewrite this_Q2Qc, this_Z2Qc. unfold Qeq, inject_Z, Qnum, Qden. lia.
Qed.

(** On an amount in whole cents, of at most [10 ^ 11] cents, the resolver in
    binary64 reproduces on the amount it returned what it returned. *)
Lemma resolve64_again (c : Z) (t : Qc) :
  (Z.abs c <= 10 ^ 11)%Z -> c <> 0%Z ->
  B64.rnd (Q2Qc (c # 100)) = Fin t ->
  let m := B64.calculateMetricsFromAmount (Fin t) in
  m = calculateMetricsFromAmount (Fin t) /\
  JS.isNaN (m_amount m) = false /\ JS.is_zero (m_amount m) = false /\
  B64.calculateMetricsFromAmount (m_amount m) = m.
Proof.
  intros Bc Nc Rt m.
  assert (Bc' : (Z.abs c <= 10 ^ 12)%Z) by lia.
  assert (E : m = calculateMetricsFromAmount (Fin t))
    by exact (resolve64_cents Bc' Nc Rt).
  split; [exact E|]. rewrite E.
  pose proof (cents_not_0 Bc' Nc Rt) as Nt.
  assert (S : exists r : Z, (r = 60 \/ r = 65)%Z /\
                calculateMetricsFromAmount (Fin t) = candidate t r).
  { rewrite (resolve_Fin Nt).
    destruct (Qcltb (snapDiff t 65) (snapDiff t 60));
      [exists 65%Z | exists 60%Z]; split; auto. }
  destruct S as (r & Hr & Er).
  pose proof (snapHours_ge_1 t r) as H1.
  pose proof (@snapAmount_le t r Hr) as Le.
  assert (Ba : (60 <= snapAmount t r <= 1000000100)%Z).
  { split; [unfold snapAmount; destruct Hr as [-> | ->]; lia|].
    pose proof (@cents_near c t Bc' Rt) as Near.
    pose proof (@inject_Z_bound c (10 ^ 11) Bc) as [A B].
    change (inject_Z (10 ^ 11)) with 100000000000%Q in A, B.
    assert (X : (inject_Z (snapAmount t r) <= inject_Z 1000000100)%Q).
    { change (inject_Z 1000000100) with 1000000100%Q.
      revert Le Near.
      apply Qabs_case; intros ?; apply Qabs_case; intros ? ? ?; lra. }
    now rewrite <- Zle_Qle in X. }
  assert (Ea : m_amount (calculateMetricsFromAmount (Fin t)) =
               Fin (Z2Qc (snapAmount t r))) by (rewrite Er; reflexivity).
  split; [now rewrite Ea|].
  split.
  { rewrite Ea. change (Fin (Z2Qc (snapAmount t r))) with (ofZ (snapAmount t r)).
    rewrite is_zero_ofZ. apply Z.eqb_neq. lia. }
  rewrite <- (resolve_idempotent (Fin t)) at 2. rewrite Ea.
  apply (@resolve64_cents (100 * snapAmount t r)); [lia | lia |].
  rewrite Q2Qc_whole_cents. apply rnd_Z. lia.
Qed.

(** The figures of a service row with an amount in whole cents, read
    again, are found as they are. *)
Lemma rowFinals64_service_again (c : Z) (H R : num) :
  (Z.abs c <= 10 ^ 11)%Z -> c <> 0%Z ->
  let f := B64.rowFinals service (B64.lit (c # 100)) H R in
  B64.rowFinals service (finalAmount f) (finalHours f) (finalRate f) = f.
Proof.
  intros Bc Nc. cbv zeta.
  destruct (@small_finite (Q2Qc (c # 100))) as [t Rt].
  { rewrite cents_Q.
    pose proof (@inject_Z_bound c (10 ^ 11) Bc) as [A B].
    change (inject_Z (10 ^ 11)) with 100000000000%Q in A, B.
    change (inject_Z (2 ^ 53)) with 9007199254740992%Q.
    apply Qabs_case; intros; lra. }
  unfold B64.lit. rewrite Rt.
  destruct (resolve64_again Bc Nc Rt) as (_ & NN & NZ & Again).
  assert (Nt : JS.is_zero (Fin t) = false).
  { apply is_zero_Fin_false. apply (@cents_not_0 c t); [lia | exact Nc | exact Rt]. }
  assert (E : B64.rowFinals service (Fin t) H R =
              let m := B64.calculateMetricsFromAmount (Fin t) in
              mkFinals (m_amount m) (m_hours m) (m_rate m)).
  { unfold B64.rowFinals. rewrite Nt. reflexivity. }
  rewrite E. cbv zeta. cbn [finalAmount finalHours finalRate].
  unfold B64.rowFinals at 1. rewrite NN, NZ. cbn [negb andb].
  now rewrite Again.
Qed.

(** ** A second pass of the row normaliser, in binary64 *)

(** The figures of an expense row, read again, are found as they are,
    whatever the quotient and the product are rounded to. *)
Lemma rowFinals64_expense_again (A H R : num) :
  let f := B64.rowFinals expense A H R in
  B64.rowFinals expense (finalAmount f) (finalHours f) (finalRate f) = f.
Proof.
  cbv zeta.
  destruct (JS.isNaN A) eqn:NA.
  - destruct (JS.isNaN H) eqn:NH; [|destruct (JS.isNaN R) eqn:NR].
    + assert (E : B64.rowFinals expense A H R = mkFinals (ofZ 0) (ofZ 0) (ofZ 65))
        by (unfold B64.rowFinals; rewrite NA, NH; reflexivity).
      rewrite E. reflexivity.
    + assert (E : B64.rowFinals expense A H R = mkFinals (ofZ 0) (ofZ 0) (ofZ 65))
        by (unfold B64.rowFinals; rewrite NA, NH, NR; reflexivity).
      rewrite E. reflexivity.
    + assert (E : B64.rowFinals expense A H R = mkFinals (B64.mul H R) H R)
        by (unfold B64.rowFinals; rewrite NA, NH, NR; reflexivity).
      rewrite E. cbn [finalAmount finalHours finalRate]. unfold B64.rowFinals.
      rewrite NH, NR. now destruct (JS.isNaN (B64.mul H R)).
  - destruct (JS.isNaN R) eqn:NR; [|destruct (JS.isNaN H) eqn:NH].
    + set (h := if negb (JS.isNaN H) then H else ofZ 1).
      assert (Nh : JS.isNaN h = false).
      { unfold h. destruct (JS.isNaN H) eqn:NH; [reflexivity | exact NH]. }
      assert (E : B64.rowFinals expense A H R = mkFinals A h (B64.div A h))
        by (unfold B64.rowFinals; rewrite NA, NR; reflexivity).
      rewrite E. cbn [finalAmount finalHours finalRate]. unfold B64.rowFinals.
      rewrite NA, Nh. now destruct (JS.isNaN (B64.div A h)).
    + set (h := B64.div A R).
      set (h' := if JS.isNaN h || JS.is_zero h then ofZ 1 else h).
      assert (Nh : JS.isNaN h' = false).
      { unfold h'. destruct (JS.isNaN h) eqn:E; [reflexivity|].
        cbn [orb]. destruct (JS.is_zero h); [reflexivity | exact E]. }
      assert (E : B64.rowFinals expense A H R = mkFinals A h' R)
        by (unfold B64.rowFinals; rewrite NA, NR, NH; reflexivity).
      rewrite E. cbn [finalAmount finalHours finalRate]. unfold B64.rowFinals.
      now rewrite NA, NR, Nh.
    + assert (E : B64.rowFinals expense A H R = mkFinals A H R)
        by (unfold B64.rowFinals; rewrite NA, NR, NH; reflexivity).
      rewrite E. cbn [finalAmount finalHours finalRate]. unfold B64.rowFinals.
      now rewrite NA, NR, NH.
Qed.

Section SecondPass64.

Variable Date_parse : string -> num.
Variable Date_toISOString : num -> string.

Let run := B64.importRow Date_parse Date_toISOString.

Lemma description_not_empty64 (i : string) (row : Row) :
  (description (run i row) =? "") = false.
Proof. exact (description_not_empty Date_parse Date_toISOString i row). Qed.

(** A record that presents an item is classified as the item is. *)
Lemma presented_type64 (i : string) (row row' : Row) :
  presents64 row' (run i row) -> rowType row' = type (run i row).
Proof.
  intros (Ht & Hd & _).
  assert (T : type (run i row) = rowType row) by reflexivity.
  unfold rowType at 1. cbv zeta. rewrite Ht, Hd. cbn [orEmpty].
  rewrite T. destruct (rowType row) eqn:E.
  - cbn [typeName].
    change (description (run i row))
      with (description (importRow Date_parse Date_toISOString i row)).
    rewrite (service_description Date_parse Date_toISOString i row E). reflexivity.
  - reflexivity.
Qed.

(** The second pass on an expense finds the item again. *)
Lemma second_pass64 (i i' : string) (row row' : Row) :
  type (run i row) = expense ->
  presents64 row' (run i row) ->
  sameItem (run i' row') (run i row).
Proof.
  intros E P.
  pose proof (presented_type64 P) as Ty.
  pose proof (description_not_empty64 i row) as Dne.
  destruct P as (_ & Hd & Hh & Hr & Ha).
  assert (F : B64.rowFinals (rowType row')
                (B64.parseCell (getRowValue row' amountKeys))
                (B64.parseCell (getRowValue row' hoursKeys))
                (B64.parseCell (getRowValue row' rateKeys)) =
              B64.rowFinals (rowType row)
                (B64.parseCell (getRowValue row amountKeys))
                (B64.parseCell (getRowValue row hoursKeys))
                (B64.parseCell (getRowValue row rateKeys))).
  { rewrite Ha, Hh, Hr, Ty.
    change (type (run i row)) with (rowType row) in *.
    unfold run, B64.importRow. cbn [amount hours rate B64.toNum].
    rewrite E. apply rowFinals64_expense_again. }
  unfold sameItem.
  split; [exact Ty|].
  split.
  { unfold run at 1, B64.importRow at 1. cbn [description].
    rewrite Hd. cbn [orEmpty]. now rewrite Dne. }
  unfold run, B64.importRow. cbn [hours rate amount]. now rewrite F.
Qed.

(** The second pass on a service row with an amount in whole cents finds
    the item again. *)
Lemma second_pass64_service (i i' : string) (row row' : Row) (c : Z) :
  type (run i row) = service ->
  parseCell (getRowValue row amountKeys) = ofQ (c # 100) ->
  (Z.abs c <= 10 ^ 11)%Z -> c <> 0%Z ->
  presents64 row' (run i row) ->
  sameItem (run i' row') (run i row).
Proof.
  intros E Hc Bc Nc P.
  pose proof (presented_type64 P) as Ty.
  pose proof (description_not_empty64 i row) as Dne.
  destruct P as (_ & Hd & Hh & Hr & Ha).
  assert (A : B64.parseCell (getRowValue row amountKeys) = B64.lit (c # 100)).
  { unfold B64.parseCell. rewrite Hc. reflexivity. }
  assert (F : B64.rowFinals (rowType row')
                (B64.parseCell (getRowValue row' amountKeys))
                (B64.parseCell (getRowValue row' hoursKeys))
                (B64.parseCell (getRowValue row' rateKeys)) =
              B64.rowFinals (rowType row)
                (B64.parseCell (getRowValue row amountKeys))
                (B64.parseCell (getRowValue row hoursKeys))
                (B64.parseCell (getRowValue row rateKeys))).
  { rewrite Ha, Hh, Hr, Ty.
    change (type (run i row)) with (rowType row) in *.
    unfold run, B64.importRow. cbn [amount hours rate B64.toNum].
    rewrite E, A. now apply rowFinals64_service_again. }
  unfold sameItem.
  split; [exact Ty|].
  split.
  { unfold run at 1, B64.importRow at 1. cbn [description].
    rewrite Hd. cbn [orEmpty]. now rewrite Dne. }
  unfold run, B64.importRow. cbn [hours rate amount]. now rewrite F.
Qed.

(** The second pass on an expense, or on a service resolved from an amount
    in whole cents, finds the item again. *)
Lemma second_pass64_both (i i' : string) (row row' : Row) :
  presents64 row' (run i row) ->
  type (run i row) = expense \/
  (exists c : Z,
     parseCell (getRowValue row amountKeys) = ofQ (c # 100) /\
     (Z.abs c <= 10 ^ 11)%Z /\ c <> 0%Z) ->
  sameItem (run i' row') (run i row).
Proof.
  intros P [E | (c & Hc & Bc & Nc)]; [now apply second_pass64|].
  destruct (type (run i row)) eqn:E.
  - now apply (@second_pass64_service i i' row row' c).
  - now apply second_pass64.
Qed.

End SecondPass64.

(** * The claims *)

(** ** C1: totals *)

(** C1, counterexample. An amount typed as 9.7 is stored as the double
    nearest to 9.7. With service amounts of 0.1, 0.2 and 9.7, as the doubles
    they are, the GST is 2, and 1 when the item of 9.7 comes first; 0.15
    times the sum of the three doubles, rounded, is 1, and 0.15 times the
    sum of the three decimal fractions, 10, rounds to 2. With 0.1, 8.2 and
    1.7 the GST is 1, where the decimal fractions sum to 10 again. *)
Lemma calculateTotals_is_sensitive_to_the_order :
  let item a := mkItem "1" service "" "Residential Build" (VNum (ofZ 1)) (VNum a) a in
  let d1 := B64.lit (1 # 10) in
  let d2 := B64.lit (2 # 10) in
  let d97 := B64.lit (97 # 10) in
  amount (B64.changeItem (EditAmount (VStr "9.7")) (item (ofZ 0))) = d97 /\
  gst (B64.calculateTotals [item d1; item d2; item d97]) = ofZ 2 /\
  gst (B64.calculateTotals [item d97; item d1; item d2]) = ofZ 1 /\
  JS.round (sumOf [d1; d2; d97] * ofQ (15 # 100)) = ofZ 1 /\
  JS.round (sumOf [ofQ (1 # 10); ofQ (2 # 10); ofQ (97 # 10)] * ofQ (15 # 100)) =
    ofZ 2 /\
  gst (B64.calculateTotals
         [item d1; item (B64.lit (82 # 10)); item (B64.lit (17 # 10))]) = ofZ 1 /\
  JS.round (sumOf [ofQ (1 # 10); ofQ (82 # 10); ofQ (17 # 10)] * ofQ (15 # 100)) =
    ofZ 2.
Proof.
  cbv zeta. repeat split; compute_eq.
Qed.

(** C1, amended. For every list of items, [calculateTotals] returns as gross
    the amounts added one after the other from 0, in the order of the list,
    each sum rounded to the nearest double; as GST and as withholding tax
    the service subtotal (the amounts of the service items added in the same
    way: the figures of a list and of its service items alone agree) times
    the double nearest to 0.15 and to 0.20, the product rounded to the
    nearest double and then to the nearest whole number, a half going up;
    as payable the gross plus the GST and as net the gross minus the tax,
    each rounded to the nearest double. When every amount is a whole number
    and the absolute values of the amounts sum to at most 10^15, the five
    figures are those of exact arithmetic: the gross is the sum of the
    amounts, the GST and the tax are the rounded 0.15 and 0.20 of the sum of
    the service amounts, [floor ((3 s + 10) / 20)] and
    [floor ((2 s + 5) / 10)] on a subtotal [s], the payable is the gross
    plus the GST and the net the gross minus the tax. The empty list gives
    five zeros; a service item of 100 and an expense item of 50 give a
    subtotal of 100 and the figures 150, 15, 20, 165 and 130. *)
Theorem calculateTotals_spec :
  (forall items : list LineItem,
     let subtotal := sum64 (map amount (filter isService items)) in
     let g := sum64 (map amount items) in
     let gst' := JS.round (B64.mul subtotal (B64.lit (15 # 100))) in
     let tax' := JS.round (B64.mul subtotal (B64.lit (20 # 100))) in
     B64.serviceGross items = subtotal /\
     B64.calculateTotals items =
       mkTotals g gst' tax' (B64.add g gst') (B64.sub g tax') /\
     gst (B64.calculateTotals (filter isService items)) =
       gst (B64.calculateTotals items) /\
     tax (B64.calculateTotals (filter isService items)) =
       tax (B64.calculateTotals items)) /\
  (forall (items : list LineItem) (zs : list Z),
     map amount items = map ofZ zs -> (sumAbs zs <= 10 ^ 15)%Z ->
     let subtotal := serviceSubtotal items in
     let g := sumOf (map amount items) in
     let gst' := JS.round (subtotal * ofQ (15 # 100)) in
     let tax' := JS.round (subtotal * ofQ (20 # 100)) in
     B64.serviceGross items = subtotal /\
     B64.calculateTotals items =
       mkTotals g gst' tax' (g + gst')%num (g - tax')%num) /\
  (forall s : Z,
     JS.round (ofZ s * ofQ (15 # 100)) = ofZ ((3 * s + 10) / 20) /\
     JS.round (ofZ s * ofQ (20 # 100)) = ofZ ((2 * s + 5) / 10)) /\
  B64.calculateTotals [] = mkTotals (ofZ 0) (ofZ 0) (ofZ 0) (ofZ 0) (ofZ 0) /\
  (forall i1 d1 t1 h1 r1 i2 d2 t2 h2 r2,
     let items := [mkItem i1 service d1 t1 h1 r1 (ofZ 100);
                   mkItem i2 expense d2 t2 h2 r2 (ofZ 50)] in
     B64.serviceGross items = ofZ 100 /\
     B64.calculateTotals items =
       mkTotals (ofZ 150) (ofZ 15) (ofZ 20) (ofZ 165) (ofZ 130)).
Proof.
  split; [|split; [|split; [exact round_percent|split]]].
  - intros items subtotal g gst' tax'.
    assert (S : B64.serviceGross items = subtotal).
    { unfold B64.serviceGross. cbv zeta. apply sumAmounts64_sum64. }
    split; [exact S|]. split; [|split].
    + unfold B64.calculateTotals. cbv zeta. rewrite S, sumAmounts64_sum64.
      reflexivity.
    + unfold B64.calculateTotals. cbn [gst]. unfold B64.serviceGross. cbv zeta.
      change (fun i => LineItemType_eqb (type i) service) with isService.
      now rewrite filter_isService_idem.
    + unfold B64.calculateTotals. cbn [tax]. unfold B64.serviceGross. cbv zeta.
      change (fun i => LineItemType_eqb (type i) service) with isService.
      now rewrite filter_isService_idem.
  - intros items zs E B subtotal g gst' tax'.
    rewrite (@totals64_whole items zs E B).
    assert (V : B64.serviceGross items = serviceGross items).
    { destruct (@filter_whole (fun i => LineItemType_eqb (type i) service)
                  items zs E) as (zs' & E' & L').
      unfold B64.serviceGross, serviceGross, B64.sumAmounts, sumAmounts. cbv zeta.
      pose proof (sumAbs_nonneg zs').
      rewrite (@fold_add64_whole _ zs' 0 E') by lia.
      now rewrite (@fold_add_whole _ zs' 0 E'). }
    rewrite V, serviceGross_subtotal. split; [reflexivity|].
    unfold calculateTotals. cbv zeta.
    rewrite serviceGross_subtotal, sumAmounts_sumOf. reflexivity.
  - compute_eq.
  - intros. split; compute_eq.
Qed.

Lemma calculateTotals_spec_witness :
  let items := [mkItem "1" service "2024-03-01" "Residential Build"
                  (VNum (ofZ 2)) (VNum (ofZ 65)) (ofZ 130);
                mkItem "2" expense "2024-03-02" "Materials"
                  (VNum (ofZ 1)) (VNum (ofZ 45)) (ofZ 45);
                mkItem "3" service "2024-03-03" "Residential Build"
                  (VNum (ofZ 1)) (VNum (ofZ 60)) (ofZ 60)] in
  B64.serviceGross items = serviceSubtotal items /\
  B64.calculateTotals items =
    mkTotals (sumOf (map amount items))
      (JS.round (serviceSubtotal items * ofQ (15 # 100)))
      (JS.round (serviceSubtotal items * ofQ (20 # 100)))
      (sumOf (map amount items) +
       JS.round (serviceSubtotal items * ofQ (15 # 100)))%num
      (sumOf (map amount items) -
       JS.round (serviceSubtotal items * ofQ (20 # 100)))%num.
Proof.
  cbv zeta.
  apply (proj1 (proj2 calculateTotals_spec) _ [130; 45; 60]%Z).
  - reflexivity.
  - vm_compute. discriminate.
Defined.

(** ** C2: the reverse metrics resolver *)




(** ** C3: the category and the figures of a row *)

(** C3. A row is an expense if the text of its category cell (the cell
    found under [type] or [category]), in lower case, contains [expense],
    or else if its description, in lower case, contains one of the expense
    keywords; it is a service otherwise. The item made of the row has this
    category and the figures resolved for it: an expense of which only the
    amount is given is 1 unit at that amount, a service with an amount
    that is not zero has the figures of the reverse resolver. A row
    "Bunnings screws", 45, gives an expense of quantity 1 at 45, amount 45;
    a row "Site consultation", 130, gives a service of 2 hours at 65,
    amount 130. *)
Theorem row_classification_spec :
  (forall row : Row,
     (rowType row = expense <-> explicitExpense row \/ implicitExpense row) /\
     (rowType row = service <-> ~ (explicitExpense row \/ implicitExpense row))) /\
  (forall Date_parse Date_toISOString newId row,
     type (importRow Date_parse Date_toISOString newId row) = rowType row) /\
  (forall a : Qc,
     rowFinals expense (Fin a) NaN NaN = mkFinals (Fin a) (ofZ 1) (Fin a)) /\
  (forall rowAmount rowHours rowRate : num,
     JS.isNaN rowAmount = false -> JS.is_zero rowAmount = false ->
     let metrics := calculateMetricsFromAmount rowAmount in
     rowFinals service rowAmount rowHours rowRate =
     mkFinals (m_amount metrics) (m_hours metrics) (m_rate metrics)) /\
  (forall Date_parse Date_toISOString newId,
     importRow Date_parse Date_toISOString newId
       [("Description", "Bunnings screws"); ("Amount", "45")] =
     mkItem newId expense "" "Bunnings screws"
       (VNum (ofZ 1)) (VNum (ofZ 45)) (ofZ 45)) /\
  (forall Date_parse Date_toISOString newId,
     importRow Date_parse Date_toISOString newId
       [("description", "Site consultation"); ("amount", "130")] =
     mkItem newId service "" "Site consultation"
       (VNum (ofZ 2)) (VNum (ofZ 65)) (ofZ 130)).
Proof.
  split.
  { intros row. split; [apply rowType_expense_iff|].
    rewrite <- rowType_expense_iff.
    destruct (rowType row); split; congruence. }
  split; [reflexivity|].
  split.
  { intros a. cbn [rowFinals JS.isNaN negb]. now rewrite div_Fin_1. }
  split.
  { intros rowAmount rowHours rowRate HN HZ. cbn [rowFinals].
    now rewrite HN, HZ. }
  split; intros; compute_eq.
Qed.

Lemma row_classification_spec_witness :
  rowFinals service (ofZ 130) NaN NaN = mkFinals (ofZ 130) (ofZ 2) (ofZ 65) /\
  rowType [("Type", "Expense"); ("Description", "Site consultation")] = expense.
Proof.
  split.
  - rewrite (proj1 (proj2 (proj2 (proj2 row_classification_spec)))).
    + vm_compute. reflexivity.
    + reflexivity.
    + reflexivity.
  - apply (proj1 row_classification_spec).
    left. exists "Expense". split; [reflexivity|].
    exists "", "". reflexivity.
Defined.

(** ** C4: the category switch *)

(** C4. The switch to service of an item whose quantity was typed as 0.
    The quantity field stores its text, ["0"], which is not falsy: the
    default of 1 hour is not taken and the rate is the amount over zero.
    From a fresh form: switch the item to expense, type 0 in the quantity,
    (type 100 in the amount,) switch back to service. The hours stay ["0"]
    and the rate is [NaN] (amount 0) or [Infinity] (amount 100), where the
    hours of a zero quantity are to default to 1 and the rate to be the
    amount. *)
Theorem category_switch_on_text_zero :
  let typed0 :=
    handleItemChange "1" (EditHours (VStr "0"))
      (handleItemChange "1" (EditType expense) initialItems) in
  let typed100 := handleItemChange "1" (EditAmount (VStr "100")) typed0 in
  typed0 =
    [mkItem "1" expense "" "Residential Build" (VStr "0") (VNum (ofZ 0)) (ofZ 0)] /\
  handleItemChange "1" (EditType service) typed0 =
    [mkItem "1" service "" "Residential Build" (VStr "0") (VNum NaN) (ofZ 0)] /\
  typed100 =
    [mkItem "1" expense "" "Residential Build" (VStr "0") (VNum PInf) (ofZ 100)] /\
  handleItemChange "1" (EditType service) typed100 =
    [mkItem "1" service "" "Residential Build" (VStr "0") (VNum PInf) (ofZ 100)].
Proof.
  cbv zeta. split; [compute_eq|]. split; [compute_eq|].
  split; compute_eq.
Qed.

(** ** C5: the line amount *)

(** C5, counterexample. The product is rounded to a double before it is
    rounded to a whole number: 0.3 hours at 5, the double 0.3 being a little
    below 3/10, give 2 where their exact product rounds to 1, and hours
    typed as 1.005 at a rate of 100 give 100 where the product of the
    decimal fractions, 100.5, rounds to 101. Nor is 0 hours at any rate 0:
    the hours set to 0 and the amount to 100 leave the rate at [Infinity],
    and the hours emptied then give the amount [NaN]. *)
Lemma calculateLineAmount_rounds_the_double_of_the_product :
  let item0 := mkItem "1" service "" "Residential Build"
                 (VNum (ofZ 1)) (VNum (ofZ 100)) (ofZ 100) in
  B64.calculateLineAmount (VNum (B64.lit (3 # 10))) (VNum (ofZ 5)) = ofZ 2 /\
  JS.round (B64.lit (3 # 10) * ofZ 5) = ofZ 1 /\
  amount (B64.changeItem (EditHours (VStr "1.005")) item0) = ofZ 100 /\
  JS.round (ofQ (1005 # 1000) * ofZ 100) = ofZ 101 /\
  B64.calculateLineAmount (VNum (ofZ 0)) (VNum PInf) = NaN /\
  B64.handleItemChange "1" (EditHours (VStr ""))
    (B64.handleItemChange "1" (EditAmount (VStr "100"))
       (B64.handleItemChange "1" (EditHours (VStr "0")) initialItems)) =
  [mkItem "1" service "" "Residential Build" (VStr "") (VNum PInf) NaN].
Proof.
  cbv zeta. repeat split; compute_eq.
Qed.

(** C5, amended. For finite hours [h] and rate [r] the line amount is
    [Math.round] of the double [p] nearest to [h * r]: the whole number [n]
    with [n - 1/2 <= p < n + 1/2], where no double is nearer to [h * r]
    than [p] and [p] differs from [h * r] by at most
    [|h * r| * 2^-53 + 2^-1075]; it is [Infinity] with the sign of the
    product when the product overflows. It is the rounded exact product, a
    half going up, when [h * r] is at least that far from [n - 1/2] and
    farther than that from [n + 1/2], and it is [h * r] itself when [h] and
    [r] are whole and [|h * r| < 2^53]. It is 0 when one operand is 0 and
    the other is finite. The function does not replace a missing operand;
    the edit of the hours or of the rate of an item passes [h || 0] and
    [r || 0], so that an empty, zero or non-numeric operand gives the
    amount 0 when the other operand reads as a finite number, and the
    import of a service row passes 0 for missing hours and 65 for a missing
    rate. *)
Theorem calculateLineAmount_spec :
  (forall h r p : Qc,
     B64.rnd (h * r) = Fin p ->
     B64.calculateLineAmount (VNum (Fin h)) (VNum (Fin r)) = ofZ (roundZ p) /\
     (inject_Z (roundZ p) - (1 # 2) <= this p < inject_Z (roundZ p) + (1 # 2))%Q /\
     representable (this p) /\
     (forall d : Q, representable d ->
        Qabs (this (h * r) - this p) <= Qabs (this (h * r) - d))%Q /\
     (Qabs (this (h * r) - this p) <=
      Qabs (this (h * r)) * B64.pow2 (-53) + B64.pow2 (-1075))%Q) /\
  (forall h r : Qc,
     (B64.rnd (h * r) = PInf ->
      B64.calculateLineAmount (VNum (Fin h)) (VNum (Fin r)) = PInf) /\
     (B64.rnd (h * r) = NInf ->
      B64.calculateLineAmount (VNum (Fin h)) (VNum (Fin r)) = NInf)) /\
  (forall h r : Qc,
     let u := (Qabs (this (h * r)) * B64.pow2 (-53) + B64.pow2 (-1075))%Q in
     let n := roundZ (h * r) in
     (Qabs (this (h * r)) < B64.pow2 1023)%Q ->
     (inject_Z n - (1 # 2) + u <= this (h * r))%Q ->
     (this (h * r) + u < inject_Z n + (1 # 2))%Q ->
     B64.calculateLineAmount (VNum (Fin h)) (VNum (Fin r)) = ofZ n) /\
  (forall h r : Z,
     (Z.abs (h * r) < 2 ^ 53)%Z ->
     B64.calculateLineAmount (VNum (ofZ h)) (VNum (ofZ r)) = ofZ (h * r)) /\
  (forall r : Qc, B64.calculateLineAmount (VNum (ofZ 0)) (VNum (Fin r)) = ofZ 0) /\
  (forall h : Qc, B64.calculateLineAmount (VNum (Fin h)) (VNum (ofZ 0)) = ofZ 0) /\
  (forall (item : LineItem) (value : jsval),
     JS.truthy (B64.valOf value) = false ->
     JS.is_finite (B64.toNum (rate item)) = true ->
     amount (B64.changeItem (EditHours value) item) = ofZ 0) /\
  (forall (item : LineItem) (value : jsval),
     truthyV (rate item) = false ->
     JS.is_finite (B64.valOf value) = true ->
     amount (B64.changeItem (EditHours value) item) = ofZ 0) /\
  (forall (item : LineItem) (value : jsval),
     JS.truthy (B64.valOf value) = false ->
     JS.is_finite (B64.toNum (hours item)) = true ->
     amount (B64.changeItem (EditRate value) item) = ofZ 0) /\
  (forall (item : LineItem) (value : jsval),
     truthyV (hours item) = false ->
     JS.is_finite (B64.valOf value) = true ->
     amount (B64.changeItem (EditRate value) item) = ofZ 0) /\
  (forall rowHours : num,
     B64.rowFinals service NaN rowHours NaN =
     let h := if JS.isNaN rowHours then ofZ 0 else rowHours in
     mkFinals (B64.calculateLineAmount (VNum h) (VNum (ofZ 65))) h (ofZ 65)).
Proof.
  split.
  { intros h r p R. rewrite lineAmount64_Fin, R.
    split; [reflexivity|]. split; [apply roundZ_bounds|].
    destruct (@rnd_nearest (h * r) p R) as [Rp N].
    split; [exact Rp|]. split; [exact N|]. exact (@rnd_error (h * r) p R). }
  split.
  { intros h r. rewrite lineAmount64_Fin. split; intros ->; reflexivity. }
  split; [exact lineAmount64_exact|].
  split; [exact lineAmount64_whole|].
  split.
  { intros r. apply (@round_mul64_0_l (Fin r)). reflexivity. }
  split.
  { intros h. apply (@round_mul64_0_r (Fin h)). reflexivity. }
  split.
  { intros item value Hv Hr. cbn [B64.changeItem amount].
    unfold B64.calculateLineAmount.
    rewrite (orElse_0_falsy (VNum (B64.valOf value))) by exact Hv.
    apply round_mul64_0_l. now apply orElse_0_finite64. }
  split.
  { intros item value Hr Hv. cbn [B64.changeItem amount].
    unfold B64.calculateLineAmount.
    rewrite (orElse_0_falsy (rate item)) by exact Hr.
    apply round_mul64_0_r. now apply (orElse_0_finite64 (VNum (B64.valOf value))). }
  split.
  { intros item value Hv Hh. cbn [B64.changeItem amount].
    unfold B64.calculateLineAmount.
    rewrite (orElse_0_falsy (VNum (B64.valOf value))) by exact Hv.
    apply round_mul64_0_r. now apply orElse_0_finite64. }
  split.
  { intros item value Hh Hv. cbn [B64.changeItem amount].
    unfold B64.calculateLineAmount.
    rewrite (orElse_0_falsy (hours item)) by exact Hh.
    apply round_mul64_0_l. now apply (orElse_0_finite64 (VNum (B64.valOf value))). }
  intros rowHours. destruct rowHours; reflexivity.
Qed.

Lemma calculateLineAmount_spec_witness :
  let item h r a := mkItem "1" service "" "Residential Build" h r a in
  B64.calculateLineAmount (VNum (ofQ (25 # 10))) (VNum (ofZ 65)) = ofZ 163 /\
  B64.calculateLineAmount (VNum (ofZ (10 ^ 200))) (VNum (ofZ (10 ^ 200))) = PInf /\
  B64.calculateLineAmount (VNum (ofQ (131 # 100))) (VNum (ofZ 60)) = ofZ 79 /\
  B64.calculateLineAmount (VNum (ofZ 8)) (VNum (ofZ 65)) = ofZ (8 * 65) /\
  amount (B64.changeItem (EditHours (VStr ""))
            (item (VNum (ofZ 2)) (VNum (ofZ 65)) (ofZ 130))) = ofZ 0 /\
  amount (B64.changeItem (EditHours (VStr "2.5"))
            (item (VNum (ofZ 2)) (VStr "") (ofZ 0))) = ofZ 0 /\
  amount (B64.changeItem (EditRate (VStr "abc"))
            (item (VNum (ofZ 2)) (VNum (ofZ 65)) (ofZ 130))) = ofZ 0 /\
  amount (B64.changeItem (EditRate (VStr "65"))
            (item (VStr "") (VNum (ofZ 60)) (ofZ 0))) = ofZ 0.
Proof.
  cbv zeta. split; [|split; [|split; [|split; [|split; [|split; [|split]]]]]].
  - refine (proj1 (proj1 calculateLineAmount_spec
              (Q2Qc (25 # 10)) (Z2Qc 65) (Q2Qc (325 # 2)) _)).
    compute_eq.
  - apply (proj1 (proj1 (proj2 calculateLineAmount_spec)
                   (Z2Qc (10 ^ 200)) (Z2Qc (10 ^ 200)))).
    vm_compute. reflexivity.
  - apply (proj1 (proj2 (proj2 calculateLineAmount_spec))
             (Q2Qc (131 # 100)) (Z2Qc 60)).
    + vm_compute. reflexivity.
    + vm_compute. discriminate.
    + vm_compute. reflexivity.
  - apply (proj1 (proj2 (proj2 (proj2 calculateLineAmount_spec))) 8%Z 65%Z).
    reflexivity.
  - apply (proj1 (proj2 (proj2 (proj2 (proj2 (proj2 (proj2
             calculateLineAmount_spec))))))).
    + reflexivity.
    + reflexivity.
  - apply (proj1 (proj2 (proj2 (proj2 (proj2 (proj2 (proj2 (proj2
             calculateLineAmount_spec)))))))).
    + reflexivity.
    + reflexivity.
  - apply (proj1 (proj2 (proj2 (proj2 (proj2 (proj2 (proj2 (proj2 (proj2
             calculateLineAmount_spec))))))))).
    + reflexivity.
    + reflexivity.
  - apply (proj1 (proj2 (proj2 (proj2 (proj2 (proj2 (proj2 (proj2 (proj2 (proj2
             calculateLineAmount_spec)))))))))).
    + reflexivity.
    + reflexivity.
Defined.

(** ** C6: divisions by zero in the import *)

(** C6. The import of an expense row that divides by zero. With an amount
    of 45 and a quantity of 0 the rate is 45 / 0, [Infinity]; with an
    amount of 45 and a rate of 0 the derived quantity 45 / 0 is [Infinity]
    too, and passes the test that sends an invalid or zero quantity to 1;
    with an amount of 0 and a quantity of 0 the rate is 0 / 0, [NaN]. The
    test does catch 0 / 0 and 0 / 5, and a cell left empty counts as
    missing. *)
Theorem import_divides_by_zero :
  forall (Date_parse : string -> num) (Date_toISOString : num -> string)
         (newId : string),
  let run := importRow Date_parse Date_toISOString newId in
  run [("Description", "Bunnings screws"); ("Amount", "45"); ("Qty", "0")] =
    mkItem newId expense "" "Bunnings screws"
      (VNum (ofZ 0)) (VNum PInf) (ofZ 45) /\
  run [("Description", "Bunnings screws"); ("Amount", "45"); ("Rate", "0")] =
    mkItem newId expense "" "Bunnings screws"
      (VNum PInf) (VNum (ofZ 0)) (ofZ 45) /\
  run [("Description", "Bunnings screws"); ("Amount", "0"); ("Qty", "0")] =
    mkItem newId expense "" "Bunnings screws"
      (VNum (ofZ 0)) (VNum NaN) (ofZ 0) /\
  run [("Description", "Bunnings screws"); ("Amount", "0"); ("Rate", "0")] =
    mkItem newId expense "" "Bunnings screws"
      (VNum (ofZ 1)) (VNum (ofZ 0)) (ofZ 0) /\
  run [("Description", "Bunnings screws"); ("Amount", "0"); ("Rate", "5")] =
    mkItem newId expense "" "Bunnings screws"
      (VNum (ofZ 1)) (VNum (ofZ 5)) (ofZ 0) /\
  run [("Description", "Bunnings screws"); ("Amount", ""); ("Qty", "")] =
    mkItem newId expense "" "Bunnings screws"
      (VNum (ofZ 0)) (VNum (ofZ 65)) (ofZ 0).
Proof.
  intros Date_parse Date_toISOString newId run. unfold run.
  split; [compute_eq|]. split; [compute_eq|]. split; [compute_eq|].
  split; [compute_eq|]. split; compute_eq.
Qed.

(** ** C7: dates *)

(** C7. [normalizeDateToISO] returns a string of the shape YYYY-MM-DD as it
    is; it re-orders a day and a month of one or two digits and a year of
    four, separated by [/] or [-], into year, month, day, the day and the
    month padded with a zero, so that the display of the result is the
    padded day, month and year again (["15/03/2024"] comes back as it
    was); it returns as it is a string that has neither shape and that the
    host does not parse, and the empty string. [formatDateForDisplay]
    returns as it is a string that has not the shape YYYY-MM-DD. *)
Theorem date_normalizer_spec :
  forall (Date_parse : string -> num) (Date_toISOString : num -> string),
  let toCanonical := normalizeDateToISO Date_parse Date_toISOString in
  let toDisplay := formatDateForDisplay in
  (forall s, isoDateRe s = true -> toCanonical s = s) /\
  toCanonical "2024-03-15" = "2024-03-15" /\
  (forall d m y c1 c2,
     oneOrTwoDigits d -> oneOrTwoDigits m -> fourDigits y ->
     isDateSep c1 = true -> isDateSep c2 = true ->
     toCanonical (d ++ String c1 (m ++ String c2 y)) =
       y ++ "-" ++ Str.padStart 2 "0" m ++ "-" ++ Str.padStart 2 "0" d /\
     toDisplay (toCanonical (d ++ String c1 (m ++ String c2 y))) =
       Str.padStart 2 "0" d ++ "/" ++ Str.padStart 2 "0" m ++ "/" ++ y) /\
  toCanonical "15/03/2024" = "2024-03-15" /\
  toDisplay (toCanonical "15/03/2024") = "15/03/2024" /\
  (forall s, isoDateRe s = false -> matchDMY s = None ->
             JS.isNaN (Date_parse s) = true -> toCanonical s = s) /\
  toCanonical "" = "" /\
  (forall s, isoDateRe s = false -> toDisplay s = s).
Proof.
  intros Date_parse Date_toISOString toCanonical toDisplay.
  split; [apply normalize_canonical|].
  split; [reflexivity|].
  split.
  { intros d m y c1 c2 Hd Hm Hy H1 H2. split.
    - now apply normalize_dmy.
    - now apply display_normalize_dmy. }
  split; [reflexivity|].
  split; [reflexivity|].
  split; [apply normalize_unparseable|].
  split; [reflexivity|].
  apply display_not_canonical.
Qed.

Lemma date_normalizer_spec_witness :
  let toCanonical := normalizeDateToISO (fun _ => NaN) (fun _ => "") in
  toCanonical "1999-12-31" = "1999-12-31" /\
  toCanonical ("5" ++ String "-" ("3" ++ String "/" "2024")) = "2024-03-05" /\
  formatDateForDisplay (toCanonical ("5" ++ String "-" ("3" ++ String "/" "2024"))) =
    "05/03/2024" /\
  toCanonical "next tuesday" = "next tuesday" /\
  formatDateForDisplay "15 March" = "15 March".
Proof.
  pose proof (date_normalizer_spec (fun _ => NaN) (fun _ => "")) as
    (Hiso & _ & Hdmy & _ & _ & Hun & _ & Hdisp).
  cbv zeta in *.
  assert (D5 : oneOrTwoDigits "5") by (split; [reflexivity | left; reflexivity]).
  assert (D3 : oneOrTwoDigits "3") by (split; [reflexivity | left; reflexivity]).
  assert (Y : fourDigits "2024") by (split; reflexivity).
  split; [apply Hiso; reflexivity|].
  split; [apply (Hdmy "5" "3" "2024" "-"%char "/"%char D5 D3 Y); reflexivity|].
  split; [apply (Hdmy "5" "3" "2024" "-"%char "/"%char D5 D3 Y); reflexivity|].
  split; [apply Hun; reflexivity|].
  apply Hdisp; reflexivity.
Defined.

(** ** C8: a second pass of the import *)

(** C8, counterexample. A service row without amount, 2 hours at 50, gives
    an item of amount 100; the record that presents this item, read again,
    gives 2 hours at 60 and 120. The doubles of the program give the same
    two items. *)
Lemma import_twice_drifts :
  let run := importRow (fun _ => NaN) (fun _ => "") in
  let run64 := B64.importRow (fun _ => NaN) (fun _ => "") in
  let row := [("description", "Site consultation"); ("hours", "2"); ("rate", "50")] in
  let row' := [("type", "service"); ("description", "Site consultation");
               ("hours", "2"); ("rate", "50"); ("amount", "100")] in
  run "a" row =
    mkItem "a" service "" "Site consultation"
      (VNum (ofZ 2)) (VNum (ofZ 50)) (ofZ 100) /\
  presents row' (run "a" row) /\
  run "b" row' =
    mkItem "b" service "" "Site consultation"
      (VNum (ofZ 2)) (VNum (ofZ 60)) (ofZ 120) /\
  ~ sameItem (run "b" row') (run "a" row) /\
  run64 "a" row = run "a" row /\
  presents64 row' (run64 "a" row) /\
  run64 "b" row' = run "b" row' /\
  ~ sameItem (run64 "b" row') (run64 "a" row).
Proof.
  cbv zeta.
  split; [compute_eq|].
  split.
  { unfold presents. split; [reflexivity|]. split; [reflexivity|].
    split; [compute_eq|]. split; compute_eq. }
  split; [compute_eq|].
  split.
  { intros (_ & _ & _ & _ & A). vm_compute in A.
    injection A as A. discriminate A. }
  split; [compute_eq|].
  split.
  { unfold presents64. split; [reflexivity|]. split; [reflexivity|].
    split; [compute_eq|]. split; compute_eq. }
  split; [compute_eq|].
  intros (_ & _ & _ & _ & A). vm_compute in A.
  injection A as A. discriminate A.
Qed.

(** C8, amended. In the doubles of the program, the row normaliser finds
    the item again when it reads a record that presents the item it made
    (same category, description, hours or quantity, rate and amount), for
    every row it classified as an expense, whatever figures the row gave,
    the quotient of an amount by a quantity included, and for every service
    row whose amount is a whole number of cents, not zero and of at most
    [10 ^ 11] cents, the path of the reverse resolution: on such an amount
    the resolver returns what exact arithmetic returns, and resolving the
    amount it returned gives the same hours, rate and amount. With the
    arithmetic taken as exact the same holds for every service row whose
    amount was given and not zero, and the resolver reproduces its result
    on every amount. A service row without an amount, or with the amount
    0, is not always found again. *)
Theorem import_second_pass :
  (forall A H R : num,
     let f := B64.rowFinals expense A H R in
     B64.rowFinals expense (finalAmount f) (finalHours f) (finalRate f) = f) /\
  (forall (c : Z) (H R : num),
     (Z.abs c <= 10 ^ 11)%Z -> c <> 0%Z ->
     let f := B64.rowFinals service (B64.lit (c # 100)) H R in
     B64.rowFinals service (finalAmount f) (finalHours f) (finalRate f) = f) /\
  (forall (Date_parse : string -> num) (Date_toISOString : num -> string)
          (i i' : string) (row row' : Row),
     let run := B64.importRow Date_parse Date_toISOString in
     presents64 row' (run i row) ->
     type (run i row) = expense \/
     (exists c : Z,
        parseCell (getRowValue row amountKeys) = ofQ (c # 100) /\
        (Z.abs c <= 10 ^ 11)%Z /\ c <> 0%Z) ->
     sameItem (run i' row') (run i row)) /\
  (forall (c : Z) (t : Qc),
     (Z.abs c <= 10 ^ 11)%Z -> c <> 0%Z ->
     B64.lit (c # 100) = Fin t ->
     let m := B64.calculateMetricsFromAmount (Fin t) in
     m = calculateMetricsFromAmount (Fin t) /\
     B64.calculateMetricsFromAmount (m_amount m) = m) /\
  (forall (Date_parse : string -> num) (Date_toISOString : num -> string)
          (i i' : string) (row row' : Row),
     let run := importRow Date_parse Date_toISOString in
     type (run i row) = service ->
     JS.isNaN (parseCell (getRowValue row amountKeys)) = false ->
     JS.is_zero (parseCell (getRowValue row amountKeys)) = false ->
     presents row' (run i row) ->
     sameItem (run i' row') (run i row)) /\
  (forall a : num,
     calculateMetricsFromAmount (m_amount (calculateMetricsFromAmount a)) =
     calculateMetricsFromAmount a).
Proof.
  split; [exact rowFinals64_expense_again|].
  split; [exact rowFinals64_service_again|].
  split.
  { intros Date_parse Date_toISOString i i' row row' run. apply second_pass64_both. }
  split.
  { intros c t Bc Nc Rt m.
    destruct (resolve64_again Bc Nc Rt) as (E & _ & _ & Again).
    split; assumption. }
  split.
  - intros Date_parse Date_toISOString i i' row row' run _ NN NZ P.
    apply second_pass; [exact P | right; split; assumption].
  - exact resolve_idempotent.
Qed.

Lemma import_second_pass_witness :
  let run := importRow (fun _ => NaN) (fun _ => "") in
  let run64 := B64.importRow (fun _ => NaN) (fun _ => "") in
  sameItem
    (run64 "b" [("category", "expense"); ("item", "Bunnings screws");
                ("qty", "3"); ("cost", "33.333333333333336"); ("total", "100")])
    (run64 "a" [("Description", "Bunnings screws"); ("Amount", "100"); ("Qty", "3")]) /\
  sameItem
    (run64 "b" [("category", "expense"); ("item", "Bunnings screws");
                ("qty", "1"); ("cost", "45"); ("total", "45")])
    (run64 "a" [("Description", "Bunnings screws"); ("Amount", "45")]) /\
  sameItem
    (run64 "b" [("category", "service"); ("description", "Site consultation");
                ("hours", "2"); ("rate", "65"); ("amount", "130")])
    (run64 "a" [("description", "Site consultation"); ("amount", "131.25")]) /\
  sameItem
    (run "b" [("category", "service"); ("description", "Site consultation");
              ("hours", "2"); ("rate", "65"); ("amount", "130")])
    (run "a" [("description", "Site consultation"); ("amount", "131")]) /\
  (let f := B64.rowFinals service (B64.lit (13125 # 100)) NaN NaN in
   B64.rowFinals service (finalAmount f) (finalHours f) (finalRate f) = f) /\
  (let m := B64.calculateMetricsFromAmount (ofQ (13125 # 100)) in
   m = calculateMetricsFromAmount (ofQ (13125 # 100)) /\
   B64.calculateMetricsFromAmount (m_amount m) = m).
Proof.
  cbv zeta. split; [|split; [|split; [|split; [|split]]]].
  - apply (proj1 (proj2 (proj2 import_second_pass))).
    + unfold presents64. split; [reflexivity|]. split; [reflexivity|].
      split; [compute_eq|]. split; compute_eq.
    + left. reflexivity.
  - apply (proj1 (proj2 (proj2 import_second_pass))).
    + unfold presents64. split; [reflexivity|]. split; [reflexivity|].
      split; [compute_eq|]. split; compute_eq.
    + left. reflexivity.
  - apply (proj1 (proj2 (proj2 import_second_pass))).
    + unfold presents64. split; [reflexivity|]. split; [reflexivity|].
      split; [compute_eq|]. split; compute_eq.
    + right. exists 13125%Z. split; [compute_eq|]. split; [|discriminate].
      vm_compute. discriminate.
  - apply (proj1 (proj2 (proj2 (proj2 (proj2 import_second_pass))))).
    + reflexivity.
    + reflexivity.
    + reflexivity.
    + unfold presents. split; [reflexivity|]. split; [reflexivity|].
      split; [vm_compute; reflexivity|]. split; vm_compute; reflexivity.
  - apply (proj1 (proj2 import_second_pass) 13125%Z NaN NaN).
    + vm_compute. discriminate.
    + discriminate.
  - apply (proj1 (proj2 (proj2 (proj2 import_second_pass)))
             13125%Z (Q2Qc (13125 # 100))).
    + vm_compute. discriminate.
    + discriminate.
    + compute_eq.
Defined.

(** ** C9: typing an amount *)

(** C9. The amount typed on hours that were typed as 0. The hours field
    stores its text, ["0"], which is not falsy, so the edit of the amount
    divides by zero: from a fresh form, typing 0 in the hours and then 100
    in the amount leaves the hours ["0"], the rate [Infinity] and the
    amount 100, and hours * rate is [NaN], not the amount. On a service
    item the loss of focus then resolves the amount (2 hours at 60); an
    expense item keeps the infinite rate. No edit resolves the amount:
    the value typed is stored as it is. *)
Theorem amount_edit_on_text_zero :
  let typed0 := handleItemChange "1" (EditHours (VStr "0")) initialItems in
  let typed100 := handleItemChange "1" (EditAmount (VStr "100")) typed0 in
  typed0 =
    [mkItem "1" service "" "Residential Build" (VStr "0") (VNum (ofZ 65)) (ofZ 0)] /\
  typed100 =
    [mkItem "1" service "" "Residential Build" (VStr "0") (VNum PInf) (ofZ 100)] /\
  map (fun item => (toNum (hours item) * toNum (rate item))%num) typed100 = [NaN] /\
  handleAmountBlur "1" typed100 =
    [mkItem "1" service "" "Residential Build"
       (VNum (ofZ 2)) (VNum (ofZ 60)) (ofZ 120)] /\
  handleAmountBlur "1"
    (handleItemChange "1" (EditAmount (VStr "100"))
       (handleItemChange "1" (EditHours (VStr "0"))
          (handleItemChange "1" (EditType expense) initialItems))) =
    [mkItem "1" expense "" "Residential Build" (VStr "0") (VNum PInf) (ofZ 100)].
Proof.
  cbv zeta. split; [compute_eq|]. split; [compute_eq|].
  split; [compute_eq|]. split; compute_eq.
Qed.

(** ** C10: what the resolver returns *)




(** * Further properties of the program *)

(** ** Totals of amounts that are not negative *)

Lemma sumOf_nonNegative (l : list num) :
  Forall nonNegative l -> nonNegative (sumOf l).
Proof.
  induction 1 as [|a l (q & -> & Hq) _ (s & E & Hs)]; cbn [sumOf].
  - exists (Z2Qc 0). split; [reflexivity|]. vm_compute. discriminate.
  - rewrite E. exists (q + s)%Qc. split; [reflexivity|].
    to_Q. lra.
Qed.







(** ** The resolver: the amounts it keeps, how far it moves the others *)









(** ** Printing and reading integers *)

Lemma allDigits_string_of_uint (d : Decimal.uint) :
  Str.allDigits (NilEmpty.string_of_uint d) = true.
Proof. induction d; simpl; auto. Qed.

Lemma allDigits_showNat (n : nat) : Str.allDigits (showNat n) = true.
Proof. apply allDigits_string_of_uint. Qed.

Lemma digitsFrom_string_of_uint (d : Decimal.uint) (acc : nat) :
  Str.digitsFrom (Z.of_nat acc) (NilEmpty.string_of_uint d) =
  Z.of_nat (Nat.of_uint_acc d acc).
Proof.
  revert acc; induction d; intros acc;
    cbn [NilEmpty.string_of_uint Str.digitsFrom Nat.of_uint_acc]; auto;
    rewrite <- IHd; f_equal; rewrite Nat.tail_mul_spec;
    match goal with |- context [Str.digitVal ?c] =>
      let v := eval vm_compute in (Str.digitVal c) in
      change (Str.digitVal c) with v end; lia.
Qed.

(** Reading back the digits of a number gives the number. *)
Lemma parseInt_showNat (n : nat) : parseInt (showNat n) = n.
Proof.
  unfold parseInt, showNat, Str.digitsToZ.
  change 0%Z with (Z.of_nat 0).
  rewrite (digitsFrom_string_of_uint (Nat.to_uint n) 0).
  rewrite Nat2Z.id. apply (Unsigned.of_to n).
Qed.

Lemma digitsFrom_zeros (k : nat) (s : string) :
  Str.digitsFrom 0 (Str.replicate k "0" ++ s) = Str.digitsFrom 0 s.
Proof. induction k; simpl; auto. Qed.

Lemma parseInt_padStart (k : nat) (s : string) :
  parseInt (Str.padStart k "0" s) = parseInt s.
Proof.
  unfold parseInt, Str.padStart, Str.digitsToZ. now rewrite digitsFrom_zeros.
Qed.

Lemma length_append (s t : string) :
  String.length (s ++ t) = (String.length s + String.length t)%nat.
Proof. induction s; simpl; auto. Qed.

Lemma length_replicate (k : nat) (c : ascii) :
  String.length (Str.replicate k c) = k.
Proof. induction k; simpl; auto. Qed.

Lemma length_padStart (k : nat) (c : ascii) (s : string) :
  String.length (Str.padStart k c s) = Nat.max k (String.length s).
Proof.
  unfold Str.padStart. rewrite length_append, length_replicate. lia.
Qed.

Lemma allDigits_append (s t : string) :
  Str.allDigits (s ++ t) = Str.allDigits s && Str.allDigits t.
Proof. induction s; simpl; auto. now rewrite IHs, andb_assoc. Qed.

Lemma allDigits_padStart (k : nat) (s : string) :
  Str.allDigits s = true -> Str.allDigits (Str.padStart k "0" s) = true.
Proof.
  intros H. unfold Str.padStart. rewrite allDigits_append, H, andb_true_r.
  induction (k - String.length s)%nat; simpl; auto.
Qed.

(** A string of [k] digits matches [\d{k}]; a match has the length of the
    pattern. *)
Lemma matchClasses_digits (s : string) :
  Str.allDigits s = true ->
  matchClasses (repeat Str.isDigit (String.length s)) s = true.
Proof.
  induction s; simpl; auto. intros H. apply andb_true_iff in H as [H1 H2].
  now rewrite H1, IHs.
Qed.

Lemma matchClasses_app (p q : list (ascii -> bool)) (s t : string) :
  matchClasses p s = true ->
  matchClasses (p ++ q) (s ++ t) = matchClasses q t.
Proof.
  revert s; induction p as [|f p IH]; intros [|c s]; simpl; try discriminate; auto.
  intros H. apply andb_true_iff in H as [H1 H2]. now rewrite H1, IH.
Qed.

Lemma matchClasses_length (p : list (ascii -> bool)) (s : string) :
  matchClasses p s = true -> String.length s = List.length p.
Proof.
  revert s; induction p as [|f p IH]; intros [|c s]; simpl; try discriminate; auto.
  intros H. apply andb_true_iff in H as [_ H]. now rewrite (IH s H).
Qed.

(** The value of [k] digits is below [10^k]. *)
Lemma digitsFrom_bound (s : string) (acc : Z) :
  Str.allDigits s = true -> (0 <= acc)%Z ->
  (0 <= Str.digitsFrom acc s < (acc + 1) * 10 ^ Z.of_nat (String.length s))%Z.
Proof.
  revert acc; induction s as [|c s IH]; intros acc H Hacc.
  - simpl. lia.
  - cbn [Str.allDigits] in H. apply andb_true_iff in H as [H1 H2].
    cbn [Str.digitsFrom String.length].
    assert (D : (0 <= Str.digitVal c <= 9)%Z).
    { unfold Str.isDigit, Str.between in H1. apply andb_true_iff in H1 as [A B].
      apply N.leb_le in A, B. unfold Str.digitVal. lia. }
    specialize (IH (10 * acc + Str.digitVal c)%Z H2 ltac:(lia)).
    rewrite Nat2Z.inj_succ, Z.pow_succ_r by lia.
    nia.
Qed.

Lemma length_showNat_ge (n k : nat) :
  (10 ^ Z.of_nat k <= Z.of_nat n)%Z -> (k < String.length (showNat n))%nat.
Proof.
  intros H. destruct (Nat.lt_ge_cases k (String.length (showNat n))) as [L|L]; auto.
  exfalso.
  pose proof (@digitsFrom_bound (showNat n) 0%Z (allDigits_showNat n) ltac:(lia)) as B.
  pose proof (parseInt_showNat n) as P. unfold parseInt, Str.digitsToZ in P.
  assert (Z.of_nat n = Str.digitsFrom 0 (showNat n)) by lia.
  assert ((10 ^ Z.of_nat (String.length (showNat n)) <= 10 ^ Z.of_nat k)%Z)
    by (apply Z.pow_le_mono_r; lia).
  lia.
Qed.

(** The lengths of the numbers the program prints: a count below 1000,
    a year of four digits. *)
Lemma length_showNat_below (n : nat) :
  (n < 1000)%nat ->
  String.length (showNat n) =
  if (n <? 10)%nat then 1%nat else if (n <? 100)%nat then 2%nat else 3%nat.
Proof.
  intros H.
  assert (A : forallb (fun n =>
            (String.length (showNat n) =?
             if (n <? 10)%nat then 1%nat else if (n <? 100)%nat then 2%nat
             else 3%nat)%nat)
            (seq 0 1000) = true) by (vm_compute; reflexivity).
  rewrite forallb_forall in A. apply Nat.eqb_eq, A, in_seq. lia.
Qed.

Lemma showZ_nonneg (z : Z) : (0 <= z)%Z -> showZ z = showNat (Z.to_nat z).
Proof. destruct z; intros H; try reflexivity. lia. Qed.

Lemma length_showZ_year (y : Z) :
  (1000 <= y <= 9999)%Z -> String.length (showZ y) = 4%nat.
Proof.
  intros H.
  assert (A : forallb (fun k =>
            (String.length (showZ (1000 + Z.of_nat k)) =? 4)%nat)
            (seq 0 (Z.to_nat 9000)) = true) by (vm_compute; reflexivity).
  rewrite forallb_forall in A.
  specialize (A (Z.to_nat (y - 1000))).
  rewrite Z2Nat.id in A by lia. replace (1000 + (y - 1000))%Z with y in A by lia.
  apply Nat.eqb_eq, A, in_seq. lia.
Qed.

Lemma allDigits_showZ (z : Z) : (0 <= z)%Z -> Str.allDigits (showZ z) = true.
Proof. intros H. rewrite showZ_nonneg by auto. apply allDigits_showNat. Qed.

(** The two digits of a month or a day. *)
Lemma two_digits (n : nat) :
  (n < 100)%nat ->
  Str.allDigits (Str.padStart 2 "0" (showNat n)) = true /\
  String.length (Str.padStart 2 "0" (showNat n)) = 2%nat.
Proof.
  intros H. split.
  - apply allDigits_padStart, allDigits_showNat.
  - rewrite length_padStart, length_showNat_below by lia.
    destruct (n <? 10)%nat eqn:E1; [reflexivity|].
    destruct (n <? 100)%nat eqn:E2; [reflexivity|].
    apply Nat.ltb_ge in E2. lia.
Qed.

(** ** More on dates *)

Lemma isoDateRe_cases (s : string) :
  isoDateRe s = true ->
  exists y1 y2 y3 y4 m1 m2 d1 d2,
    s = String y1 (String y2 (String y3 (String y4 (String "-"
          (String m1 (String m2 (String "-" (String d1 (String d2 ""))))))))) /\
    Str.isDigit y1 = true /\ Str.isDigit y2 = true /\ Str.isDigit y3 = true /\
    Str.isDigit y4 = true /\ Str.isDigit m1 = true /\ Str.isDigit m2 = true /\
    Str.isDigit d1 = true /\ Str.isDigit d2 = true.
Proof.
  unfold isoDateRe. intros H.
  destruct s as [|y1 [|y2 [|y3 [|y4 [|c1 [|m1 [|m2 [|c2 [|d1 [|d2 [|e s]]]]]]]]]]];
    cbn [matchClasses] in H; rewrite ?andb_false_r in H; try discriminate H.
  repeat (apply andb_true_iff in H; destruct H as [? H]).
  unfold isDash in *.
  repeat match goal with
         | E : Ascii.eqb _ _ = true |- _ => apply Ascii.eqb_eq in E; subst
         end.
  exists y1, y2, y3, y4, m1, m2, d1, d2. repeat split; assumption.
Qed.

Lemma isoDateRe_build (y m d : string) :
  fourDigits y ->
  Str.allDigits m = true -> String.length m = 2%nat ->
  Str.allDigits d = true -> String.length d = 2%nat ->
  isoDateRe (y ++ "-" ++ m ++ "-" ++ d) = true.
Proof.
  intros Hy Am Lm Ad Ld.
  destruct (fourDigits_cases Hy) as (y1 & y2 & y3 & y4 & -> & Y1 & Y2 & Y3 & Y4).
  destruct m as [|m1 [|m2 [|? ?]]]; try discriminate Lm.
  destruct d as [|d1 [|d2 [|? ?]]]; try discriminate Ld.
  cbn [Str.allDigits] in Am, Ad. rewrite andb_true_r in Am, Ad.
  apply andb_true_iff in Am as [M1 M2]. apply andb_true_iff in Ad as [D1 D2].
  unfold isoDateRe. digits_eval. reflexivity.
Qed.

Lemma padStart2_digits (s : string) :
  oneOrTwoDigits s ->
  Str.allDigits (Str.padStart 2 "0" s) = true /\
  String.length (Str.padStart 2 "0" s) = 2%nat.
Proof.
  intros H.
  destruct (oneOrTwoDigits_cases H) as [(a & -> & A) | (a & b & -> & A & B)];
    cbn; rewrite ?A, ?B; auto.
Qed.

Lemma firstSome_Some {A B : Type} (f : A -> option B) (l : list A) (y : B) :
  firstSome f l = Some y -> exists x, In x l /\ f x = Some y.
Proof.
  induction l as [|x l IH]; cbn [firstSome]; [discriminate|].
  destruct (f x) eqn:E.
  - intros H. exists x. split; [now left | congruence].
  - intros H. destruct (IH H) as (x' & I & F). exists x'. split; [now right | auto].
Qed.

Lemma firstSome_None {A B : Type} (f : A -> option B) (l : list A) :
  (forall x, In x l -> f x = None) -> firstSome f l = None.
Proof.
  induction l as [|x l IH]; cbn [firstSome]; auto.
  intros H. rewrite (H x) by now left. apply IH. intros; apply H; now right.
Qed.

Lemma digits12_In (s d r : string) :
  In (d, r) (digits12 s) -> oneOrTwoDigits d /\ s = d ++ r.
Proof.
  unfold digits12, oneOrTwoDigits.
  destruct s as [|a t]; [intros []|].
  destruct (Str.isDigit a) eqn:A; [|intros []].
  destruct t as [|b t'].
  - intros [E | []]. inversion E; subst. cbn. rewrite A. auto.
  - destruct (Str.isDigit b) eqn:B.
    + intros [E | [E | []]]; inversion E; subst; cbn; rewrite A, ?B; auto.
    + intros [E | []]. inversion E; subst. cbn. rewrite A. auto.
Qed.

(** What the pattern of day, month and year captures. *)
Lemma matchDMY_Some (s d m y : string) :
  matchDMY s = Some (d, m, y) ->
  oneOrTwoDigits d /\ oneOrTwoDigits m /\ fourDigits y /\
  exists c1 c2, isDateSep c1 = true /\ isDateSep c2 = true /\
                s = d ++ String c1 (m ++ String c2 y).
Proof.
  unfold matchDMY. intros H.
  apply firstSome_Some in H as ((d' & r1) & I1 & H).
  apply digits12_In in I1 as [Hd ->].
  destruct r1 as [|c1 r2]; [discriminate|].
  destruct (isDateSep c1) eqn:S1; [|discriminate].
  apply firstSome_Some in H as ((m' & r3) & I2 & H).
  apply digits12_In in I2 as [Hm ->].
  destruct r3 as [|c2 y']; [discriminate|].
  destruct (isDateSep c2) eqn:S2; [|discriminate].
  cbn [andb] in H.
  destruct (matchClasses _ y') eqn:M; [|discriminate].
  inversion H; subst. split; [auto|]. split; [auto|]. split.
  - destruct y as [|y1 [|y2 [|y3 [|y4 [|e y]]]]];
      cbn [matchClasses] in M; rewrite ?andb_false_r in M; try discriminate M.
    split; [|reflexivity]. cbn [Str.allDigits].
    repeat (apply andb_true_iff in M; destruct M as [-> M]). reflexivity.
  - exists c1, c2. auto.
Qed.

(** What [normalizeDateToISO] makes of day, month and year is canonical. *)
Lemma normalize_dmy_canonical (s d m y : string) :
  matchDMY s = Some (d, m, y) ->
  isoDateRe (y ++ "-" ++ Str.padStart 2 "0" m ++ "-" ++ Str.padStart 2 "0" d) = true.
Proof.
  intros H. apply matchDMY_Some in H as (Hd & Hm & Hy & _).
  destruct (padStart2_digits Hd), (padStart2_digits Hm).
  now apply isoDateRe_build.
Qed.

Lemma fourDigits_year (y : Z) : (1000 <= y <= 9999)%Z -> fourDigits (showZ y).
Proof.
  intros H. split; [apply allDigits_showZ; lia | now apply length_showZ_year].
Qed.

Lemma formatDateToISO_isoDateRe (d : DateObj) :
  (1000 <= getFullYear d <= 9999)%Z -> (getMonth d < 12)%nat ->
  (getDate d <= 31)%nat ->
  isoDateRe (formatDateToISO d) = true.
Proof.
  intros Hy Hm Hd. unfold formatDateToISO.
  destruct (@two_digits (getMonth d + 1)) as [A1 L1]; [lia|].
  destruct (@two_digits (getDate d)) as [A2 L2]; [lia|].
  apply isoDateRe_build; auto using fourDigits_year.
Qed.

(** X4: [normalizeDateToISO] applied twice is [normalizeDateToISO] applied
    once, on every text for which the host's parser, when the text reaches
    it and it accepts the text, answers with a canonical date. *)
Theorem normalizeDateToISO_idempotent
    (Date_parse : string -> num) (Date_toISOString : num -> string)
    (dateStr : string) :
  (isoDateRe dateStr = false -> matchDMY dateStr = None ->
   JS.isNaN (Date_parse dateStr) = false ->
   isoDateRe (part 0 (Str.split "T" (Date_toISOString (Date_parse dateStr)))) = true) ->
  normalizeDateToISO Date_parse Date_toISOString
    (normalizeDateToISO Date_parse Date_toISOString dateStr) =
  normalizeDateToISO Date_parse Date_toISOString dateStr.
Proof.
  intros H.
  set (normalize := normalizeDateToISO Date_parse Date_toISOString).
  assert (N : normalize dateStr = dateStr \/ isoDateRe (normalize dateStr) = true).
  { unfold normalize, normalizeDateToISO.
    destruct (dateStr =? "") eqn:E; [apply String.eqb_eq in E; auto|].
    destruct (isoDateRe dateStr) eqn:I; [auto|].
    destruct (matchDMY dateStr) as [[[d m] y]|] eqn:M.
    - right. eapply normalize_dmy_canonical; eauto.
    - destruct (JS.isNaN (Date_parse dateStr)) eqn:N; cbn [negb]; auto. }
  destruct N as [N | N].
  - rewrite N. exact N.
  - now apply normalize_canonical.
Qed.

Lemma normalizeDateToISO_idempotent_witness :
  let Date_parse := fun _ : string => ofZ 1710460800000 in
  let Date_toISOString := fun _ : num => "2024-03-15T00:00:00.000Z" in
  normalizeDateToISO Date_parse Date_toISOString
    (normalizeDateToISO Date_parse Date_toISOString "March 15, 2024") =
  normalizeDateToISO Date_parse Date_toISOString "March 15, 2024".
Proof.
  apply normalizeDateToISO_idempotent.
  intros _ _ _. reflexivity.
Defined.

(** X5: A canonical date put in display form by [formatDateForDisplay] is
    brought back to itself by [normalizeDateToISO]. *)
Theorem a_displayed_date_normalises_back
    (Date_parse : string -> num) (Date_toISOString : num -> string)
    (dateStr : string) :
  isoDateRe dateStr = true ->
  normalizeDateToISO Date_parse Date_toISOString (formatDateForDisplay dateStr) =
  dateStr.
Proof.
  intros H.
  destruct (isoDateRe_cases dateStr H)
    as (y1 & y2 & y3 & y4 & m1 & m2 & d1 & d2 & -> & Y1 & Y2 & Y3 & Y4 & M1 & M2 & D1 & D2).
  assert (Hd : oneOrTwoDigits (String d1 (String d2 "")))
    by (split; [cbn; now rewrite D1, D2 | now right]).
  assert (Hm : oneOrTwoDigits (String m1 (String m2 "")))
    by (split; [cbn; now rewrite M1, M2 | now right]).
  assert (Hy : fourDigits (String y1 (String y2 (String y3 (String y4 "")))))
    by (split; [cbn; now rewrite Y1, Y2, Y3, Y4 | reflexivity]).
  pose proof (@normalize_dmy Date_parse Date_toISOString _ _ _
                "/"%char "/"%char Hd Hm Hy eq_refl eq_refl) as N.
  assert (D : formatDateForDisplay
            (String y1 (String y2 (String y3 (String y4 (String "-"
               (String m1 (String m2 (String "-" (String d1 (String d2 "")))))))))) =
          String d1 (String d2 "") ++
          String "/" (String m1 (String m2 "") ++
          String "/" (String y1 (String y2 (String y3 (String y4 ""))))))
    by (unfold formatDateForDisplay; rewrite H; digits_eval; reflexivity).
  rewrite D. exact N.
Qed.

Lemma a_displayed_date_normalises_back_witness :
  normalizeDateToISO (fun _ => NaN) (fun _ => "")
    (formatDateForDisplay "2024-03-05") = "2024-03-05".
Proof.
  apply a_displayed_date_normalises_back. reflexivity.
Defined.

(** X6: For a day of a year of four digits, [formatDateToISO] gives a
    canonical date: [normalizeDateToISO] leaves it as it is and
    [formatDateForDisplay] shows it as day, month and year, the first two on
    two digits. *)
Theorem formatDateToISO_is_canonical
    (Date_parse : string -> num) (Date_toISOString : num -> string)
    (dateObj : DateObj) :
  validDate dateObj ->
  isoDateRe (formatDateToISO dateObj) = true /\
  normalizeDateToISO Date_parse Date_toISOString (formatDateToISO dateObj) =
    formatDateToISO dateObj /\
  formatDateForDisplay (formatDateToISO dateObj) =
    Str.padStart 2 "0" (showNat (getDate dateObj)) ++ "/" ++
    Str.padStart 2 "0" (showNat (getMonth dateObj + 1)) ++ "/" ++
    showZ (getFullYear dateObj).
Proof.
  intros (Hy & Hm & Hd).
  assert (C : isoDateRe (formatDateToISO dateObj) = true)
    by (apply formatDateToISO_isoDateRe; lia).
  split; [exact C|]. split; [now apply normalize_canonical|].
  unfold formatDateToISO in *.
  destruct (@two_digits (getMonth dateObj + 1)) as [A1 L1]; [lia|].
  destruct (@two_digits (getDate dateObj)) as [A2 L2]; [lia|].
  pose proof (fourDigits_year Hy) as Y.
  destruct (fourDigits_cases Y) as (y1 & y2 & y3 & y4 & Ey & Y1 & Y2 & Y3 & Y4).
  revert C. rewrite Ey.
  destruct (Str.padStart 2 "0" (showNat (getMonth dateObj + 1)))
    as [|m1 [|m2 [|? ?]]]; try discriminate L1.
  destruct (Str.padStart 2 "0" (showNat (getDate dateObj)))
    as [|d1 [|d2 [|? ?]]]; try discriminate L2.
  cbn [Str.allDigits] in A1, A2. rewrite andb_true_r in A1, A2.
  apply andb_true_iff in A1 as [M1 M2]. apply andb_true_iff in A2 as [D1 D2].
  intros C. unfold formatDateForDisplay.
  cbn [append] in *. rewrite C. digits_eval. reflexivity.
Qed.

Lemma formatDateToISO_is_canonical_witness :
  isoDateRe (formatDateToISO (mkDate 2026 10 3)) = true /\
  normalizeDateToISO (fun _ => NaN) (fun _ => "")
    (formatDateToISO (mkDate 2026 10 3)) = formatDateToISO (mkDate 2026 10 3) /\
  formatDateForDisplay (formatDateToISO (mkDate 2026 10 3)) = "03/11/2026".
Proof.
  apply (@formatDateToISO_is_canonical (fun _ => NaN) (fun _ => "")
           (mkDate 2026 10 3)).
  unfold validDate. cbn. lia.
Defined.

(** ** The handlers of the items *)

Lemma resolve_consistent (a : num) :
  let m := calculateMetricsFromAmount a in
  (m_hours m * m_rate m)%num = m_amount m /\
  JS.round (m_hours m * m_rate m) = m_amount m /\
  (m_rate m = ofZ 60 \/ m_rate m = ofZ 65).
Proof.
  assert (Z : let m := mkMetrics (ofZ 0) (ofZ 65) (ofZ 0) in
              (m_hours m * m_rate m)%num = m_amount m /\
              JS.round (m_hours m * m_rate m) = m_amount m /\
              (m_rate m = ofZ 60 \/ m_rate m = ofZ 65)).
  { cbn. split; [compute_eq|]. split; [compute_eq|]. now right. }
  destruct a as [ | | | t]; try exact Z.
  destruct (Qc_eq_dec t 0) as [-> | Ht]; [exact Z|].
  destruct (resolve_shape Ht) as (h & r & Hh & Hr & _ & E).
  rewrite E. cbn [m_hours m_rate m_amount]. rewrite mul_ofZ.
  split; [reflexivity|]. split.
  - change (ofZ (h * r)) with (Fin (Z2Qc (h * r))). cbn [JS.round].
    now rewrite roundZ_Z2Qc.
  - destruct Hr as [-> | ->]; auto.
Qed.




(** X8: After [handleAmountBlur (id)], a service item with that id has
    [hours * rate = amount], its amount is [calculateLineAmount (hours,
    rate)] and its rate is 60 or 65, whatever its fields held before. *)
Theorem handleAmountBlur_makes_service_items_consistent
    (i : string) (prev : list LineItem) (it : LineItem) :
  In it (handleAmountBlur i prev) -> id it = i -> type it = service ->
  (toNum (hours it) * toNum (rate it))%num = amount it /\
  calculateLineAmount (hours it) (rate it) = amount it /\
  (rate it = VNum (ofZ 60) \/ rate it = VNum (ofZ 65)).
Proof.
  unfold handleAmountBlur. intros I Hid Hty.
  apply in_map_iff in I as (x & <- & _).
  destruct (negb (id x =? i)) eqn:E.
  - apply negb_true_iff, String.eqb_neq in E. contradiction.
  - unfold blurItem in *. destruct (type x) eqn:T.
    + cbn [hours rate amount toNum]. unfold calculateLineAmount. cbn [toNum].
      destruct (resolve_consistent (amount x)) as (A & B & C).
      split; [exact A|]. split; [exact B|].
      destruct C as [C | C]; rewrite C; auto.
    + congruence.
Qed.

Lemma handleAmountBlur_makes_service_items_consistent_witness :
  let it := mkItem "1" service "" "Residential Build"
              (VNum (ofZ 2)) (VNum (ofZ 60)) (ofZ 120) in
  (toNum (hours it) * toNum (rate it))%num = amount it /\
  calculateLineAmount (hours it) (rate it) = amount it /\
  (rate it = VNum (ofZ 60) \/ rate it = VNum (ofZ 65)).
Proof.
  apply (@handleAmountBlur_makes_service_items_consistent "1"
           [mkItem "1" service "" "Residential Build"
              (VStr "0") (VNum PInf) (ofZ 100)]).
  - left. vm_compute. reflexivity.
  - reflexivity.
  - reflexivity.
Defined.

Lemma valOf_toNum (v : jsval) : valOf v = toNum v.
Proof. destruct v as [ | n | s]; try reflexivity. now destruct s. Qed.

Lemma toNum_orElse_0 (v : jsval) :
  JS.isNaN (toNum v) = false -> toNum (orElse v (VNum (ofZ 0))) = toNum v.
Proof.
  intros H. unfold orElse. destruct (truthyV v) eqn:T; [reflexivity|].
  destruct v as [ | n | s]; cbn [toNum] in *.
  - discriminate H.
  - destruct n as [ | | | q]; try discriminate.
    cbn [truthyV JS.truthy] in T. apply negb_false_iff in T.
    apply is_zero_Fin in T. subst q. reflexivity.
  - cbn [truthyV] in T. apply negb_false_iff, String.eqb_eq in T. subst s.
    reflexivity.
Qed.

(** X9: After an edit of the hours or of the rate of an item, its amount is
    [round (hours * rate)] of the fields as they are stored, as long as both
    read as numbers. *)
Theorem forward_edit_keeps_amount_in_step
    (i : string) (value : jsval) (prev : list LineItem) (it : LineItem) :
  In it (handleItemChange i (EditHours value) prev) \/
  In it (handleItemChange i (EditRate value) prev) ->
  id it = i ->
  JS.isNaN (toNum (hours it)) = false -> JS.isNaN (toNum (rate it)) = false ->
  amount it = JS.round (toNum (hours it) * toNum (rate it)).
Proof.
  unfold handleItemChange. intros I Hid Hh Hr.
  destruct I as [I | I]; apply in_map_iff in I as (x & <- & _);
    (destruct (negb (id x =? i)) eqn:E;
     [apply negb_true_iff, String.eqb_neq in E; contradiction|]);
    cbn [changeItem hours rate amount] in *; unfold calculateLineAmount.
  - rewrite (toNum_orElse_0 (rate x) Hr).
    rewrite (@toNum_orElse_0 (VNum (valOf value)))
      by (cbn [toNum]; now rewrite valOf_toNum).
    cbn [toNum]. now rewrite valOf_toNum.
  - rewrite (toNum_orElse_0 (hours x) Hh).
    rewrite (@toNum_orElse_0 (VNum (valOf value)))
      by (cbn [toNum]; now rewrite valOf_toNum).
    cbn [toNum]. now rewrite valOf_toNum.
Qed.

Lemma forward_edit_keeps_amount_in_step_witness :
  let it := mkItem "1" service "" "Residential Build"
              (VStr "2.5") (VNum (ofZ 65)) (ofZ 163) in
  amount it = JS.round (toNum (hours it) * toNum (rate it)).
Proof.
  apply (@forward_edit_keeps_amount_in_step "1" (VStr "2.5") initialItems).
  - left. left. vm_compute. reflexivity.
  - reflexivity.
  - vm_compute. reflexivity.
  - reflexivity.
Defined.

Lemma calculateTotals_ext (l1 l2 : list LineItem) :
  map figures l1 = map figures l2 -> calculateTotals l1 = calculateTotals l2.
Proof.
  intros H.
  assert (A : map amount l1 = map amount l2).
  { apply (f_equal (map (fun f => snd f))) in H. now rewrite !map_map in H. }
  assert (S : map amount (filter isService l1) = map amount (filter isService l2)).
  { clear A. revert l2 H. induction l1 as [|x l1 IH]; intros [|y l2] H;
      try discriminate H; [reflexivity|].
    cbn [map] in H. inversion H as [[Hi Ht Hh Hr Ha Hl]]. cbn [filter].
    assert (Sx : isService x = isService y) by (unfold isService; now rewrite Ht).
    rewrite Sx. destruct (isService y); cbn [map]; rewrite ?Ha;
      now rewrite (IH l2 Hl). }
  unfold calculateTotals.
  now rewrite !sumAmounts_sumOf, !serviceGross_subtotal; unfold serviceSubtotal;
    rewrite A, S.
Qed.

Lemma figures_text_edit (i : string) (e : Edit) (prev : list LineItem) :
  (forall item, figures (changeItem e item) = figures item) ->
  map figures (handleItemChange i e prev) = map figures prev.
Proof.
  intros H. unfold handleItemChange. rewrite map_map. apply map_ext.
  intros item. destruct (negb (id item =? i)); auto.
Qed.

(** X10: An edit of the date or of the description of an item changes no
    identifier, category, hours, rate or amount, and so no total. *)
Theorem text_edits_keep_the_figures (i value : string) (prev : list LineItem) :
  map figures (handleItemChange i (EditDate value) prev) = map figures prev /\
  map figures (handleItemChange i (EditDescription value) prev) = map figures prev /\
  calculateTotals (handleItemChange i (EditDate value) prev) = calculateTotals prev /\
  calculateTotals (handleItemChange i (EditDescription value) prev) =
    calculateTotals prev.
Proof.
  assert (D : map figures (handleItemChange i (EditDate value) prev) = map figures prev)
    by now apply figures_text_edit.
  assert (T : map figures (handleItemChange i (EditDescription value) prev) =
              map figures prev)
    by now apply figures_text_edit.
  auto using calculateTotals_ext.
Qed.

(** ** Adding, deleting and polishing *)

Lemma sumAmounts_app (l : list LineItem) (x : LineItem) :
  sumAmounts (l ++ [x]) = (sumAmounts l + amount x)%num.
Proof. unfold sumAmounts. now rewrite fold_left_app. Qed.

(** X11: [handleAddItem] leaves the totals as they are, and the item it adds
    has [amount = calculateLineAmount (hours, rate)]. *)
Theorem adding_an_item_keeps_the_totals
    (newId : string) (ty : LineItemType) (items : list LineItem) :
  calculateTotals (handleAddItem newId ty items) = calculateTotals items /\
  calculateLineAmount (hours (newItem newId ty)) (rate (newItem newId ty)) =
    amount (newItem newId ty).
Proof.
  split.
  - unfold calculateTotals, serviceGross, handleAddItem.
    rewrite filter_app, sumAmounts_app. cbn [filter newItem type amount].
    rewrite add_0_r.
    destruct ty; cbn [LineItemType_eqb].
    + rewrite sumAmounts_app. cbn [amount]. now rewrite add_0_r.
    + now rewrite app_nil_r.
  - destruct ty; compute_eq.
Qed.

Lemma handleDeleteItem_fresh (i : string) (prev : list LineItem) :
  (forall it, In it prev -> id it <> i) -> handleDeleteItem i prev = prev.
Proof.
  unfold handleDeleteItem. induction prev as [|x l IH]; intros H; [reflexivity|].
  cbn [filter]. assert (E : (id x =? i) = false)
    by (apply String.eqb_neq, H; now left).
  rewrite E. cbn [negb]. f_equal. apply IH. intros it I. apply H. now right.
Qed.

(** X12: [handleDeleteItem] keeps exactly the items with another id;
    deleting the id of the item [handleAddItem] has just added also deletes
    any older item with that id, and gives back the items of before when the
    id was fresh. *)
Theorem deleting_the_item_just_added
    (newId : string) (ty : LineItemType) (items : list LineItem) :
  handleDeleteItem newId (handleAddItem newId ty items) =
    handleDeleteItem newId items /\
  ((forall it, In it items -> id it <> newId) ->
   handleDeleteItem newId (handleAddItem newId ty items) = items) /\
  (forall it, In it (handleDeleteItem newId items) <->
              In it items /\ id it <> newId).
Proof.
  assert (A : handleDeleteItem newId (handleAddItem newId ty items) =
              handleDeleteItem newId items).
  { unfold handleDeleteItem, handleAddItem. rewrite filter_app.
    cbn [filter newItem id]. rewrite String.eqb_refl. cbn [negb].
    apply app_nil_r. }
  split; [exact A|]. split.
  - intros F. rewrite A. now apply handleDeleteItem_fresh.
  - intros it. unfold handleDeleteItem. rewrite filter_In, negb_true_iff.
    now rewrite String.eqb_neq.
Qed.

Lemma deleting_the_item_just_added_witness :
  handleDeleteItem "k3x9q" (handleAddItem "k3x9q" expense initialItems) =
  initialItems.
Proof.
  apply (proj1 (proj2 (@deleting_the_item_just_added "k3x9q" expense initialItems))).
  intros it [<- | []]. vm_compute. discriminate.
Defined.

Lemma trim_empty (s : string) : Str.trim s <> "" -> s <> "".
Proof. intros H ->. now apply H. Qed.

(** X13: [handlePolishDescription] does nothing on a blank text; otherwise
    it changes no figure and no total, and the description it writes is not
    empty: the text itself, or the trimmed answer of the model. *)
Theorem polishing_a_description
    (response : option (option string)) (i text : string)
    (prev : list LineItem) :
  (Str.trim text = "" -> handlePolishDescription response i text prev = prev) /\
  map figures (handlePolishDescription response i text prev) = map figures prev /\
  calculateTotals (handlePolishDescription response i text prev) =
    calculateTotals prev /\
  (Str.trim text <> "" ->
   forall it, In it (handlePolishDescription response i text prev) ->
     id it = i ->
     description it <> "" /\
     (description it = text \/
      exists t, response = Some (Some t) /\ description it = Str.trim t)).
Proof.
  assert (F : map figures (handlePolishDescription response i text prev) =
              map figures prev).
  { unfold handlePolishDescription. destruct (Str.trim text =? ""); [reflexivity|].
    now apply figures_text_edit. }
  split; [|split; [exact F | split; [now apply calculateTotals_ext|]]].
  - intros E. unfold handlePolishDescription. now rewrite E.
  - intros N it I Hid. unfold handlePolishDescription in I.
    apply String.eqb_neq in N as N'. rewrite N' in I.
    apply in_map_iff in I as (x & <- & _).
    destruct (negb (id x =? i)) eqn:E.
    { apply negb_true_iff, String.eqb_neq in E. contradiction. }
    cbn [changeItem description]. unfold polishDescription.
    destruct response as [[t|]|]; try (split; [now apply trim_empty | now left]).
    destruct (Str.trim t =? "") eqn:T.
    + split; [now apply trim_empty | now left].
    + apply String.eqb_neq in T. split; [exact T|]. right. now exists t.
Qed.

Lemma polishing_a_description_witness :
  handlePolishDescription (Some (Some "Framing labour ")) "1" "   " initialItems =
    initialItems /\
  forall it,
    In it (handlePolishDescription (Some (Some "Framing labour ")) "1" "framing"
             initialItems) ->
    id it = "1" ->
    description it <> "" /\
    (description it = "framing" \/
     exists t, Some (Some "Framing labour ") = Some (Some t) /\
               description it = Str.trim t).
Proof.
  split.
  - apply (proj1 (polishing_a_description _ "1" "   " initialItems)).
    reflexivity.
  - apply (proj2 (proj2 (proj2 (polishing_a_description
             (Some (Some "Framing labour ")) "1" "framing" initialItems)))).
    vm_compute. discriminate.
Defined.

(** ** Rows of an imported file *)

Lemma rowGet_In (row : Row) (k v : string) :
  rowGet row k = Some v -> In (k, v) row.
Proof.
  induction row as [|[k' v'] row IH]; cbn [rowGet]; [discriminate|].
  destruct (k' =? k) eqn:E.
  - intros H. injection H as ->. apply String.eqb_eq in E. subst. now left.
  - intros H. right. auto.
Qed.

Lemma rowGet_None (row : Row) (k : string) :
  ~ In k (map fst row) -> rowGet row k = None.
Proof.
  induction row as [|[k' v'] row IH]; cbn [rowGet map fst In]; [reflexivity|].
  intros H. destruct (k' =? k) eqn:E.
  - apply String.eqb_eq in E. tauto.
  - apply IH. tauto.
Qed.

Lemma present_Some (v : option string) (s : string) :
  present v = true -> v = Some s -> s <> "".
Proof.
  intros P ->. cbn in P. now apply negb_true_iff, String.eqb_neq in P.
Qed.

(** X14: What [getRowValue] returns is a non-empty cell of a column whose
    header is one of the candidates up to the case of letters; when no
    header is, it returns [undefined]. *)
Theorem getRowValue_reads_a_filled_cell_of_a_named_column
    (row : Row) (candidates : list string) :
  (forall v, getRowValue row candidates = Some v ->
     v <> "" /\
     exists k c, In c candidates /\ In (k, v) row /\
                 Str.toLowerCase k = Str.toLowerCase c) /\
  ((forall k c, In k (map fst row) -> In c candidates ->
                Str.toLowerCase k <> Str.toLowerCase c) ->
   getRowValue row candidates = None).
Proof.
  split.
  - intros v. unfold getRowValue.
    destruct (firstSome _ candidates) as [v1|] eqn:F1.
    + intros H. injection H as ->.
      apply firstSome_Some in F1 as (c & Ic & F).
      destruct (present (rowGet row c)) eqn:P; [|discriminate].
      split; [now apply (present_Some P)|].
      exists c, c. auto using rowGet_In.
    + intros F2. apply firstSome_Some in F2 as (c & Ic & F).
      destruct (find _ (map fst row)) as [foundKey|] eqn:Fd; [|discriminate].
      destruct (negb (foundKey =? "") && present (rowGet row foundKey)) eqn:P;
        [|discriminate].
      apply andb_true_iff in P as [_ P].
      apply find_some in Fd as [_ Fd]. apply String.eqb_eq in Fd.
      split; [now apply (present_Some P)|].
      exists foundKey, c. auto using rowGet_In.
  - intros H. unfold getRowValue.
    rewrite firstSome_None.
    + apply firstSome_None. intros c Ic.
      destruct (find _ (map fst row)) as [foundKey|] eqn:Fd; [|reflexivity].
      apply find_some in Fd as [Ik Fd]. apply String.eqb_eq in Fd.
      now destruct (H foundKey c Ik Ic).
    + intros c Ic. rewrite rowGet_None; [reflexivity|].
      intros Ik. now apply (H c c Ik Ic).
Qed.

Lemma getRowValue_reads_a_filled_cell_of_a_named_column_witness :
  getRowValue [("Description", "Bunnings screws"); ("Qty", "")] amountKeys = None.
Proof.
  apply (proj2 (getRowValue_reads_a_filled_cell_of_a_named_column
                  [("Description", "Bunnings screws"); ("Qty", "")] amountKeys)).
  intros k c Ik Ic. cbn in Ik, Ic.
  repeat (destruct Ik as [<- | Ik]);
    repeat (destruct Ic as [<- | Ic]); try contradiction; vm_compute; discriminate.
Defined.

Lemma gt_rate_options (m : Metrics) :
  m_rate m = ofZ 60 \/ m_rate m = ofZ 65 -> JS.gt (m_rate m) (ofZ 0) = true.
Proof. intros [-> | ->]; reflexivity. Qed.

Lemma resolve_hours_number (a : num) :
  JS.isNaN (m_hours (calculateMetricsFromAmount a)) = false.
Proof.
  destruct a as [ | | | t]; try reflexivity.
  destruct (Qc_eq_dec t 0) as [-> | Ht]; [reflexivity|].
  destruct (resolve_shape Ht) as (h & r & _ & _ & _ & E). now rewrite E.
Qed.

Lemma rowFinals_service (rowAmount rowHours rowRate : num) :
  let f := rowFinals service rowAmount rowHours rowRate in
  calculateLineAmount (VNum (finalHours f)) (VNum (finalRate f)) = finalAmount f /\
  JS.gt (finalRate f) (ofZ 0) = true /\
  JS.isNaN (finalHours f) = false.
Proof.
  cbn [rowFinals].
  destruct (negb (JS.isNaN rowAmount) && negb (JS.is_zero rowAmount)).
  - cbn [finalAmount finalHours finalRate]. unfold calculateLineAmount. cbn [toNum].
    destruct (resolve_consistent rowAmount) as (_ & B & C).
    split; [exact B|]. split; [now apply gt_rate_options|].
    apply resolve_hours_number.
  - cbn [finalAmount finalHours finalRate]. split; [reflexivity|]. split.
    + destruct (negb (JS.isNaN rowRate) && JS.gt rowRate (ofZ 0)) eqn:E.
      * now apply andb_true_iff in E as [_ E].
      * reflexivity.
    + destruct (JS.isNaN rowHours) eqn:E; cbn [negb]; [reflexivity | exact E].
Qed.

(** X15: An item imported from a row taken for a service has [amount =
    calculateLineAmount (hours, rate)], a rate above 0 and hours that are a
    number. *)
Theorem an_imported_service_item_is_in_step
    (Date_parse : string -> num) (Date_toISOString : num -> string)
    (newId : string) (row : Row) :
  rowType row = service ->
  let it := importRow Date_parse Date_toISOString newId row in
  calculateLineAmount (hours it) (rate it) = amount it /\
  JS.gt (toNum (rate it)) (ofZ 0) = true /\
  JS.isNaN (toNum (hours it)) = false.
Proof.
  intros T. unfold importRow. rewrite T. cbn [hours rate amount toNum].
  apply rowFinals_service.
Qed.

Lemma an_imported_service_item_is_in_step_witness :
  let it := importRow (fun _ => NaN) (fun _ => "") "a"
              [("Task", "Framing"); ("Hours", "7.5"); ("Rate", "-3")] in
  calculateLineAmount (hours it) (rate it) = amount it /\
  JS.gt (toNum (rate it)) (ofZ 0) = true /\
  JS.isNaN (toNum (hours it)) = false.
Proof.
  apply an_imported_service_item_is_in_step.
  vm_compute. reflexivity.
Defined.

(** ** Items proposed by the assistant *)


Lemma numOr_truthy (v : option num) (d : num) :
  JS.truthy d = true -> JS.truthy (numOr v d) = true.
Proof.
  intros D. unfold numOr. destruct v as [n|]; [|exact D].
  now destruct (JS.truthy n) eqn:N.
Qed.

Lemma numOr_number (v : option num) (d : num) :
  JS.isNaN d = false -> JS.isNaN (numOr v d) = false.
Proof.
  intros D. unfold numOr. destruct v as [n|]; [|exact D].
  destruct (JS.truthy n) eqn:N; [|exact D]. now destruct n.
Qed.




Lemma aiFinals_service_in_step (item : PartialItem) :
  let f := aiFinals service item in
  calculateLineAmount (VNum (finalHours f)) (VNum (finalRate f)) = finalAmount f /\
  JS.truthy (finalRate f) = true /\
  JS.isNaN (finalHours f) = false.
Proof.
  assert (Fw : let f :=
            mkFinals
              (calculateLineAmount (VNum (numOr (p_hours item) (ofZ 0)))
                 (VNum (numOr (p_rate item) (ofZ 65))))
              (numOr (p_hours item) (ofZ 0)) (numOr (p_rate item) (ofZ 65)) in
          calculateLineAmount (VNum (finalHours f)) (VNum (finalRate f)) = finalAmount f /\
          JS.truthy (finalRate f) = true /\
          JS.isNaN (finalHours f) = false).
  { cbn [finalAmount finalHours finalRate]. split; [reflexivity|].
    split; [now apply numOr_truthy | now apply numOr_number]. }
  cbn [aiFinals]. destruct (p_amount item) as [a|]; [|exact Fw].
  destruct (JS.truthy a && negb (JS.is_zero a)); [|exact Fw].
  cbn [finalAmount finalHours finalRate]. unfold calculateLineAmount. cbn [toNum].
  destruct (resolve_consistent a) as (_ & B & C).
  split; [exact B|]. split; [|apply resolve_hours_number].
  destruct C as [-> | ->]; reflexivity.
Qed.

Lemma In_mapFrom (A B : Type) (f : nat -> A -> B) (l : list A) (k : nat) (y : B) :
  In y (mapFrom f k l) -> exists j x, In x l /\ y = f j x.
Proof.
  revert k. induction l as [|x l IH]; intros k; cbn [mapFrom]; [intros []|].
  intros [<- | I].
  - exists k, x. split; [now left | reflexivity].
  - destruct (IH _ I) as (j & x' & I' & E). exists j, x'. split; [now right | exact E].
Qed.

Section AssistantFacts.

Variable Date_parse : string -> num.
Variable Date_toISOString : num -> string.

Let process := processItem Date_parse Date_toISOString.

Lemma processItem_well_formed (newId : string) (item : PartialItem) :
  let it := process newId item in
  description it <> "" /\
  (type it = service ->
     calculateLineAmount (hours it) (rate it) = amount it /\
     truthyV (rate it) = true /\ JS.isNaN (toNum (hours it)) = false) /\
  (type it = expense ->
     truthyV (hours it) = true /\ JS.isNaN (amount it) = false /\
     (truthyV (rate it) = true \/ rate it = VNum (amount it))).
Proof.
  unfold process, processItem. cbn [description type hours rate amount toNum truthyV].
  split; [|split].
  - destruct (p_description item) as [d|].
    + destruct (d =? "") eqn:E; [now destruct (aiType item)|].
      now apply String.eqb_neq.
    + now destruct (aiType item).
  - intros ->. apply aiFinals_service_in_step.
  - intros ->. cbn [aiFinals finalAmount finalHours finalRate].
    split; [now apply numOr_truthy|]. split; [now apply numOr_number|].
    destruct (p_rate item) as [r|]; cbn [numOr]; [|now right].
    destruct (JS.truthy r) eqn:R; [now left | now right].
Qed.

(** X16: [handleAIGeneratedItems] keeps the items of before; an item it adds
    has a description that is not empty; if it is a service, [amount =
    calculateLineAmount (hours, rate)], the rate is neither 0 nor [NaN] and
    the hours are a number; if it is an expense, the quantity is neither 0
    nor [NaN], the amount is a number, and the rate is the amount unless a
    rate other than 0 was given. *)
Theorem what_the_assistant_adds_is_well_formed
    (draw : nat -> string) (newItems : list PartialItem)
    (prev : list LineItem) (it : LineItem) :
  In it (handleAIGeneratedItems Date_parse Date_toISOString draw newItems prev) ->
  In it prev \/
  (description it <> "" /\
   (type it = service ->
      calculateLineAmount (hours it) (rate it) = amount it /\
      truthyV (rate it) = true /\ JS.isNaN (toNum (hours it)) = false) /\
   (type it = expense ->
      truthyV (hours it) = true /\ JS.isNaN (amount it) = false /\
      (truthyV (rate it) = true \/ rate it = VNum (amount it)))).
Proof.
  unfold handleAIGeneratedItems. rewrite in_app_iff. intros [I | I]; [now left|].
  right. apply In_mapFrom in I as (j & x & _ & ->).
  apply processItem_well_formed.
Qed.


End AssistantFacts.

Lemma what_the_assistant_adds_is_well_formed_witness :
  let it := mkItem "b" expense "" "Materials" (VNum (ofZ 1)) (VNum (ofZ 45)) (ofZ 45) in
  In it initialItems \/
  (description it <> "" /\
   (type it = service ->
      calculateLineAmount (hours it) (rate it) = amount it /\
      truthyV (rate it) = true /\ JS.isNaN (toNum (hours it)) = false) /\
   (type it = expense ->
      truthyV (hours it) = true /\ JS.isNaN (amount it) = false /\
      (truthyV (rate it) = true \/ rate it = VNum (amount it)))).
Proof.
  apply (@what_the_assistant_adds_is_well_formed (fun _ => NaN) (fun _ => "")
           (fun _ => "b")
           [mkPartial (Some "expense") None None (Some (ofZ 0)) None (Some (ofZ 45))]
           initialItems).
  right. left. vm_compute. reflexivity.
Defined.


(** ** The invoice counter *)

Lemma append_inj (s x y : string) : s ++ x = s ++ y -> x = y.
Proof.
  induction s as [|c s IH]; cbn [append]; [auto|].
  intros H. injection H as H. auto.
Qed.

Lemma generate_count (now : DateObj) (stored : option Counter.t) :
  generateInvoiceNumber now stored =
  ("INV-" ++ todayStr now ++ "-" ++
     Str.padStart 3 "0" (showNat (countToday now stored + 1)),
   Some (Counter.mk (todayStr now) (countToday now stored + 1))).
Proof.
  unfold generateInvoiceNumber, countToday. destruct stored as [data|]; [|reflexivity].
  now destruct (Counter.date data =? todayStr now).
Qed.

Lemma countToday_stored (now : DateObj) (c : nat) :
  countToday now (Some (Counter.mk (todayStr now) c)) = c.
Proof. unfold countToday. cbn [Counter.date Counter.count]. now rewrite String.eqb_refl. Qed.

Lemma number_of_count_inj (d : string) (a b : nat) :
  "INV-" ++ d ++ "-" ++ Str.padStart 3 "0" (showNat a) =
  "INV-" ++ d ++ "-" ++ Str.padStart 3 "0" (showNat b) -> a = b.
Proof.
  intros H. apply append_inj, append_inj, append_inj in H.
  apply (f_equal parseInt) in H.
  now rewrite !parseInt_padStart, !parseInt_showNat in H.
Qed.

(** X18: Each call of [generateInvoiceNumber] raises the counter of the day
    by one, two calls in a row give two different numbers, and more
    generally two calls on the same day give the same number only from
    stores with the same count. *)
Theorem invoice_numbers_of_a_day
    (now : DateObj) (stored : option Counter.t) :
  let first := generateInvoiceNumber now stored in
  let second := generateInvoiceNumber now (snd first) in
  countToday now (snd first) = (countToday now stored + 1)%nat /\
  countToday now (snd second) = (countToday now stored + 2)%nat /\
  fst first <> fst second /\
  (forall a b : option Counter.t,
     fst (generateInvoiceNumber now a) = fst (generateInvoiceNumber now b) ->
     countToday now a = countToday now b).
Proof.
  cbv zeta. rewrite !generate_count. cbn [fst snd].
  rewrite !countToday_stored. split; [reflexivity|]. split; [lia|]. split.
  - intros H. apply number_of_count_inj in H. lia.
  - intros a b. rewrite !generate_count. cbn [fst].
    intros H. apply number_of_count_inj in H. lia.
Qed.

Lemma invoice_numbers_of_a_day_witness :
  let now := mkDate 2026 10 3 in
  countToday now None = countToday now (Some (Counter.mk "20261102" 7)).
Proof.
  apply (proj2 (proj2 (proj2 (invoice_numbers_of_a_day (mkDate 2026 10 3) None)))).
  reflexivity.
Defined.

Lemma todayStr_digits (now : DateObj) :
  validDate now ->
  Str.allDigits (todayStr now) = true /\ String.length (todayStr now) = 8%nat.
Proof.
  intros (Hy & Hm & Hd). unfold todayStr.
  destruct (@two_digits (getMonth now + 1)) as [A1 L1]; [lia|].
  destruct (@two_digits (getDate now)) as [A2 L2]; [lia|].
  rewrite !allDigits_append, !length_append, A1, A2, L1, L2.
  rewrite allDigits_showZ by lia. rewrite length_showZ_year by lia. auto.
Qed.

Lemma digits_8 (s : string) :
  Str.allDigits s = true -> String.length s = 8%nat ->
  exists a b c d e f g h,
    s = String a (String b (String c (String d (String e (String f
          (String g (String h ""))))))) /\
    Str.isDigit a = true /\ Str.isDigit b = true /\ Str.isDigit c = true /\
    Str.isDigit d = true /\ Str.isDigit e = true /\ Str.isDigit f = true /\
    Str.isDigit g = true /\ Str.isDigit h = true.
Proof.
  intros D L.
  destruct s as [|a [|b [|c [|d [|e [|f [|g [|h [|? ?]]]]]]]]]; try discriminate L.
  cbn [Str.allDigits] in D. rewrite andb_true_r in D.
  do 7 (apply andb_true_iff in D; destruct D as [? D]).
  exists a, b, c, d, e, f, g, h. repeat split; assumption.
Qed.

Lemma digits_3 (s : string) :
  Str.allDigits s = true -> String.length s = 3%nat ->
  exists a b c,
    s = String a (String b (String c "")) /\
    Str.isDigit a = true /\ Str.isDigit b = true /\ Str.isDigit c = true.
Proof.
  intros D L.
  destruct s as [|a [|b [|c [|? ?]]]]; try discriminate L.
  cbn [Str.allDigits] in D. rewrite andb_true_r in D.
  do 2 (apply andb_true_iff in D; destruct D as [? D]).
  exists a, b, c. repeat split; assumption.
Qed.

(** The pattern of an invoice number, on eight and three digits. *)
Lemma matchInvoiceNumber_digits (d c : string) :
  Str.allDigits d = true -> String.length d = 8%nat ->
  Str.allDigits c = true -> String.length c = 3%nat ->
  matchInvoiceNumber ("INV-" ++ d ++ "-" ++ c) = Some (d, c).
Proof.
  intros Dd Ld Dc Lc.
  destruct (digits_8 d Dd Ld)
    as (d1 & d2 & d3 & d4 & d5 & d6 & d7 & d8 & -> & ? & ? & ? & ? & ? & ? & ? & ?).
  destruct (digits_3 c Dc Lc) as (c1 & c2 & c3 & -> & ? & ? & ?).
  unfold matchInvoiceNumber. digits_eval. reflexivity.
Qed.

Lemma matchInvoiceNumber_length (s : string) (p : string * string) :
  matchInvoiceNumber s = Some p -> String.length s = 16%nat.
Proof.
  unfold matchInvoiceNumber.
  destruct (matchClasses _ s) eqn:M; [|discriminate]. intros _.
  now apply matchClasses_length in M.
Qed.

Lemma sync_of_today (now : DateObj) (c : string) (stored : option Counter.t) :
  validDate now -> Str.allDigits c = true -> String.length c = 3%nat ->
  syncInvoiceCounter now ("INV-" ++ todayStr now ++ "-" ++ c) stored =
  if (countToday now stored <? parseInt c)%nat
  then Some (Counter.mk (todayStr now) (parseInt c))
  else stored.
Proof.
  intros V Dc Lc. destruct (todayStr_digits V) as [Dd Ld].
  unfold syncInvoiceCounter. rewrite (matchInvoiceNumber_digits _ _ Dd Ld Dc Lc).
  now rewrite String.eqb_refl.
Qed.

Lemma count_3_digits (n : nat) :
  (n < 1000)%nat ->
  Str.allDigits (Str.padStart 3 "0" (showNat n)) = true /\
  String.length (Str.padStart 3 "0" (showNat n)) = 3%nat.
Proof.
  intros H. split.
  - apply allDigits_padStart, allDigits_showNat.
  - rewrite length_padStart, length_showNat_below by lia.
    destruct (n <? 10)%nat; [reflexivity|]. now destruct (n <? 100)%nat.
Qed.

(** Synchronising on the number of the count just stored writes nothing. *)
Lemma sync_on_the_stored_count (now : DateObj) (c : nat) :
  validDate now -> (c < 1000)%nat ->
  syncInvoiceCounter now
    ("INV-" ++ todayStr now ++ "-" ++ Str.padStart 3 "0" (showNat c))
    (Some (Counter.mk (todayStr now) c)) =
  Some (Counter.mk (todayStr now) c).
Proof.
  intros V C. destruct (count_3_digits C) as [Dc Lc].
  rewrite sync_of_today by assumption.
  rewrite countToday_stored, parseInt_padStart, parseInt_showNat.
  now rewrite Nat.ltb_irrefl.
Qed.

(** X19: For a day of a year of four digits and a count below 999, the
    number [generateInvoiceNumber] returns matches the pattern of
    [syncInvoiceCounter], with the day and the three digits of the new
    count, and [syncInvoiceCounter] on it leaves the store as
    [generateInvoiceNumber] left it. *)
Theorem a_generated_number_is_in_step_with_the_counter
    (now : DateObj) (stored : option Counter.t) :
  validDate now -> (countToday now stored < 999)%nat ->
  let generated := generateInvoiceNumber now stored in
  matchInvoiceNumber (fst generated) =
    Some (todayStr now,
          Str.padStart 3 "0" (showNat (countToday now stored + 1))) /\
  syncInvoiceCounter now (fst generated) (snd generated) = snd generated.
Proof.
  intros V C. cbv zeta. rewrite generate_count. cbn [fst snd].
  destruct (todayStr_digits V) as [Dd Ld].
  destruct (@count_3_digits (countToday now stored + 1)) as [Dc Lc]; [lia|].
  split.
  - now apply matchInvoiceNumber_digits.
  - apply sync_on_the_stored_count; [exact V | lia].
Qed.

Lemma a_generated_number_is_in_step_with_the_counter_witness :
  let now := mkDate 2026 10 3 in
  let stored := Some (Counter.mk "20261103" 41) in
  let generated := generateInvoiceNumber now stored in
  matchInvoiceNumber (fst generated) = Some ("20261103", "042") /\
  syncInvoiceCounter now (fst generated) (snd generated) = snd generated.
Proof.
  apply (@a_generated_number_is_in_step_with_the_counter
           (mkDate 2026 10 3) (Some (Counter.mk "20261103" 41))).
  - unfold validDate. cbn. lia.
  - vm_compute. lia.
Defined.

(** X20: From the thousandth invoice of a day on, the number
    [generateInvoiceNumber] returns has more than three digits after the
    day: the pattern of [syncInvoiceCounter] does not match it and
    [syncInvoiceCounter] leaves every store as it is. *)
Theorem the_thousandth_number_of_a_day_is_not_recognised
    (now : DateObj) (stored other : option Counter.t) :
  validDate now -> (999 <= countToday now stored)%nat ->
  let generated := generateInvoiceNumber now stored in
  matchInvoiceNumber (fst generated) = None /\
  syncInvoiceCounter now (fst generated) other = other.
Proof.
  intros V C. cbv zeta.
  assert (M : matchInvoiceNumber (fst (generateInvoiceNumber now stored)) = None).
  { destruct (matchInvoiceNumber _) as [p|] eqn:E; [|reflexivity]. exfalso.
    apply matchInvoiceNumber_length in E. rewrite generate_count in E.
    cbn [fst] in E. destruct (todayStr_digits V) as [_ Ld].
    rewrite !length_append, Ld, length_padStart in E. cbn [String.length] in E.
    assert (L : (3 < String.length (showNat (countToday now stored + 1)))%nat).
    { apply length_showNat_ge. change (10 ^ Z.of_nat 3)%Z with 1000%Z. lia. }
    lia. }
  split; [exact M|]. unfold syncInvoiceCounter. now rewrite M.
Qed.

Lemma the_thousandth_number_of_a_day_is_not_recognised_witness :
  let now := mkDate 2026 10 3 in
  let generated := generateInvoiceNumber now (Some (Counter.mk "20261103" 999)) in
  matchInvoiceNumber (fst generated) = None /\
  syncInvoiceCounter now (fst generated) None = None.
Proof.
  apply (@the_thousandth_number_of_a_day_is_not_recognised
           (mkDate 2026 10 3) (Some (Counter.mk "20261103" 999)) None).
  - unfold validDate. cbn. lia.
  - vm_compute. lia.
Defined.

(** X21: After [syncInvoiceCounter] on a number of today with three digits,
    the count of today is the larger of the count stored and the count
    typed, and the next number generated is one above it. *)
Theorem a_number_typed_by_hand_raises_the_counter
    (now : DateObj) (c : string) (stored : option Counter.t) :
  validDate now -> Str.allDigits c = true -> String.length c = 3%nat ->
  let synced :=
    syncInvoiceCounter now ("INV-" ++ todayStr now ++ "-" ++ c) stored in
  countToday now synced = Nat.max (countToday now stored) (parseInt c) /\
  generateInvoiceNumber now synced =
    ("INV-" ++ todayStr now ++ "-" ++
       Str.padStart 3 "0"
         (showNat (Nat.max (countToday now stored) (parseInt c) + 1)),
     Some (Counter.mk (todayStr now)
             (Nat.max (countToday now stored) (parseInt c) + 1))).
Proof.
  intros V Dc Lc. cbv zeta.
  assert (E : countToday now
                (syncInvoiceCounter now ("INV-" ++ todayStr now ++ "-" ++ c) stored) =
              Nat.max (countToday now stored) (parseInt c)).
  { rewrite sync_of_today by assumption.
    destruct (countToday now stored <? parseInt c)%nat eqn:L.
    - apply Nat.ltb_lt in L. rewrite countToday_stored. lia.
    - apply Nat.ltb_ge in L. lia. }
  split; [exact E|]. now rewrite generate_count, E.
Qed.

Lemma a_number_typed_by_hand_raises_the_counter_witness :
  let now := mkDate 2026 10 3 in
  let synced :=
    syncInvoiceCounter now ("INV-" ++ todayStr now ++ "-" ++ "005")
      (Some (Counter.mk "20261103" 2)) in
  countToday now synced =
    Nat.max (countToday now (Some (Counter.mk "20261103" 2))) (parseInt "005") /\
  generateInvoiceNumber now synced =
    ("INV-" ++ todayStr now ++ "-" ++
       Str.padStart 3 "0"
         (showNat (Nat.max (countToday now (Some (Counter.mk "20261103" 2)))
                     (parseInt "005") + 1)),
     Some (Counter.mk (todayStr now)
             (Nat.max (countToday now (Some (Counter.mk "20261103" 2)))
                (parseInt "005") + 1))).
Proof.
  apply (@a_number_typed_by_hand_raises_the_counter
           (mkDate 2026 10 3) "005" (Some (Counter.mk "20261103" 2))).
  - unfold validDate. cbn. lia.
  - reflexivity.
  - reflexivity.
Defined.

(** X22: [syncInvoiceCounter] never lowers the count of today; it leaves the
    store as it is, or writes the count of a number that matches the pattern
    and carries the day of today. *)
Theorem syncInvoiceCounter_never_lowers_the_counter
    (now : DateObj) (invoiceNumber : string) (stored : option Counter.t) :
  (countToday now stored <=
   countToday now (syncInvoiceCounter now invoiceNumber stored))%nat /\
  (syncInvoiceCounter now invoiceNumber stored = stored \/
   exists c, matchInvoiceNumber invoiceNumber = Some (todayStr now, c) /\
             syncInvoiceCounter now invoiceNumber stored =
               Some (Counter.mk (todayStr now) (parseInt c))).
Proof.
  unfold syncInvoiceCounter.
  destruct (matchInvoiceNumber invoiceNumber) as [[dateStr countStr]|];
    [|split; [lia | now left]].
  destruct (dateStr =? todayStr now) eqn:E; [|split; [lia | now left]].
  apply String.eqb_eq in E. subst dateStr.
  fold (countToday now stored).
  destruct (countToday now stored <? parseInt countStr)%nat eqn:L;
    [|split; [lia | now left]].
  apply Nat.ltb_lt in L. rewrite countToday_stored.
  split; [lia|]. right. now exists countStr.
Qed.

(** X23: A confirmed [handleNewInvoice], on a day of a year of four digits
    and a count below 999, gives the form the next number of the day, on
    which [syncInvoiceCounter] changes nothing, a canonical date and items
    whose totals are all 0; declined, it changes nothing. *)
Theorem a_new_invoice
    (loaded now now' : DateObj) (newId : string) (st : Form) :
  validDate now -> validDate now' ->
  (countToday now (f_counter st) < 999)%nat ->
  let fresh := handleNewInvoice true loaded now now' newId st in
  InvoiceDetails.number (f_details fresh) =
    "INV-" ++ todayStr now ++ "-" ++
      Str.padStart 3 "0" (showNat (countToday now (f_counter st) + 1)) /\
  syncInvoiceCounter now (InvoiceDetails.number (f_details fresh))
    (f_counter fresh) = f_counter fresh /\
  isoDateRe (InvoiceDetails.date (f_details fresh)) = true /\
  calculateTotals (f_items fresh) =
    mkTotals (ofZ 0) (ofZ 0) (ofZ 0) (ofZ 0) (ofZ 0) /\
  handleNewInvoice false loaded now now' newId st = st.
Proof.
  intros V V' C. cbv zeta. unfold handleNewInvoice.
  rewrite generate_count. cbn [fst snd f_details f_counter f_items
    InvoiceDetails.number InvoiceDetails.date].
  split; [reflexivity|].
  split; [apply sync_on_the_stored_count; [exact V | lia]|]. split.
  - destruct V' as (Hy & Hm & Hd). apply formatDateToISO_isoDateRe; lia.
  - split; [compute_eq | reflexivity].
Qed.

Lemma a_new_invoice_witness :
  let st := mkForm (INITIAL_INVOICE_DETAILS (mkDate 2026 10 2)) initialItems
              (Some (Counter.mk "20261103" 4)) in
  let fresh := handleNewInvoice true (mkDate 2026 10 2) (mkDate 2026 10 3)
                 (mkDate 2026 10 3) "k3x9q" st in
  InvoiceDetails.number (f_details fresh) = "INV-20261103-005" /\
  syncInvoiceCounter (mkDate 2026 10 3) (InvoiceDetails.number (f_details fresh))
    (f_counter fresh) = f_counter fresh /\
  isoDateRe (InvoiceDetails.date (f_details fresh)) = true /\
  calculateTotals (f_items fresh) =
    mkTotals (ofZ 0) (ofZ 0) (ofZ 0) (ofZ 0) (ofZ 0) /\
  handleNewInvoice false (mkDate 2026 10 2) (mkDate 2026 10 3)
    (mkDate 2026 10 3) "k3x9q" st = st.
Proof.
  apply (@a_new_invoice (mkDate 2026 10 2) (mkDate 2026 10 3) (mkDate 2026 10 3)
           "k3x9q"
           (mkForm (INITIAL_INVOICE_DETAILS (mkDate 2026 10 2)) initialItems
              (Some (Counter.mk "20261103" 4)))).
  - unfold validDate. cbn. lia.
  - unfold validDate. cbn. lia.
  - vm_compute. lia.
Defined.

(** ** Saved invoices *)

Section ListsByIndex.

Variable A : Type.
Variable p : A -> bool.

Lemma findIndex_None (l : list A) :
  findIndex p l = None -> forall x, In x l -> p x = false.
Proof.
  induction l as [|y l IH]; cbn [findIndex]; [intros _ x []|].
  destruct (p y) eqn:E; [discriminate|].
  destruct (findIndex p l); [discriminate|].
  intros _ x [<- | I]; auto.
Qed.

Lemma find_app_new (l : list A) (x : A) :
  findIndex p l = None -> p x = true -> find p (l ++ [x]) = Some x.
Proof.
  intros N Px. induction l as [|y l IH]; cbn [app find].
  - now rewrite Px.
  - cbn [findIndex] in N. destruct (p y); [discriminate|].
    destruct (findIndex p l); [discriminate|]. auto.
Qed.

Lemma filter_app_new (l : list A) (x : A) :
  p x = true -> filter (fun y => negb (p y)) (l ++ [x]) =
                filter (fun y => negb (p y)) l.
Proof.
  intros Px. rewrite filter_app. cbn [filter]. rewrite Px. apply app_nil_r.
Qed.

Lemma find_setAt (l : list A) (k : nat) (x : A) :
  findIndex p l = Some k -> p x = true -> find p (setAt k x l) = Some x.
Proof.
  intros F Px. revert k F. induction l as [|y l IH]; intros k; cbn [findIndex];
    [discriminate|].
  destruct (p y) eqn:E.
  - intros H. injection H as <-. cbn [setAt find]. now rewrite Px.
  - destruct (findIndex p l) as [j|]; [|discriminate].
    intros H. injection H as <-. cbn [setAt find]. rewrite E. auto.
Qed.

Lemma filter_setAt (l : list A) (k : nat) (x : A) :
  findIndex p l = Some k -> p x = true ->
  filter (fun y => negb (p y)) (setAt k x l) = filter (fun y => negb (p y)) l.
Proof.
  intros F Px. revert k F. induction l as [|y l IH]; intros k; cbn [findIndex];
    [discriminate|].
  destruct (p y) eqn:E.
  - intros H. injection H as <-. cbn [setAt filter]. now rewrite Px, E.
  - destruct (findIndex p l) as [j|]; [|discriminate].
    intros H. injection H as <-. cbn [setAt filter]. rewrite E. cbn [negb].
    f_equal. auto.
Qed.

Lemma find_None_intro (l : list A) :
  (forall x, In x l -> p x = false) -> find p l = None.
Proof.
  induction l as [|y l IH]; cbn [find]; [reflexivity|].
  intros H. rewrite (H y) by now left. apply IH. intros x I. apply H. now right.
Qed.

Lemma findIndex_Some_find (l : list A) (k : nat) :
  findIndex p l = Some k -> find p l <> None.
Proof.
  revert k. induction l as [|y l IH]; intros k; cbn [findIndex find];
    [discriminate|].
  destruct (p y); [discriminate|].
  destruct (findIndex p l) as [j|]; [|discriminate]. intros _. eauto.
Qed.

Lemma length_setAt (l : list A) (k : nat) (x : A) :
  List.length (setAt k x l) = List.length l.
Proof.
  revert k; induction l as [|y l IH]; intros [|k]; cbn [setAt List.length]; auto.
Qed.

End ListsByIndex.

Lemma NoDup_snoc (A : Type) (l : list A) (x : A) :
  NoDup l -> ~ In x l -> NoDup (l ++ [x]).
Proof.
  induction 1 as [|y l Ny N IH]; cbn [app]; intros I.
  - repeat constructor. intros [].
  - constructor.
    + rewrite in_app_iff. intros [J | [-> | []]]; [contradiction|].
      apply I. now left.
    + apply IH. intros J. apply I. now right.
Qed.

Lemma map_id_setAt (l : list SavedInvoice.t) (k : nat) (x : SavedInvoice.t) :
  findIndex (fun s => SavedInvoice.id s =? SavedInvoice.id x) l = Some k ->
  map SavedInvoice.id (setAt k x l) = map SavedInvoice.id l.
Proof.
  revert k; induction l as [|y l IH]; intros k; cbn [findIndex]; [discriminate|].
  destruct (SavedInvoice.id y =? SavedInvoice.id x) eqn:E.
  - intros H. injection H as <-. cbn [setAt map]. apply String.eqb_eq in E.
    now rewrite E.
  - destruct (findIndex _ l) as [j|]; [|discriminate].
    intros H. injection H as <-. cbn [setAt map]. f_equal. auto.
Qed.

Section Saving.

Variable now : Z.
Variable confirm : bool.
Variable details : InvoiceDetails.t.
Variable items : list LineItem.
Variable currentSaved : list SavedInvoice.t.

Let number := InvoiceDetails.number details.
Let isIt := fun s => SavedInvoice.id s =? number.
Let newSave := SavedInvoice.mk number now details items (calculateTotals items).
Let saved := handleSaveInvoice now confirm details items currentSaved.

Lemma save_keeps_the_others :
  filter (fun s => negb (isIt s)) saved =
  filter (fun s => negb (isIt s)) currentSaved.
Proof.
  unfold saved, handleSaveInvoice. fold number. fold isIt. fold newSave.
  assert (Pn : isIt newSave = true) by apply String.eqb_refl.
  destruct (findIndex isIt currentSaved) as [k|] eqn:F.
  - destruct confirm; cbn [negb]; [now apply filter_setAt | reflexivity].
  - now apply filter_app_new.
Qed.

Lemma save_then_find :
  find isIt currentSaved = None \/ confirm = true ->
  find isIt saved = Some newSave.
Proof.
  unfold saved, handleSaveInvoice. fold number. fold isIt. fold newSave.
  assert (Pn : isIt newSave = true) by apply String.eqb_refl.
  destruct (findIndex isIt currentSaved) as [k|] eqn:F.
  - intros [H | ->].
    + now destruct (findIndex_Some_find _ _ F).
    + cbn [negb]. now apply find_setAt.
  - intros _. now apply find_app_new.
Qed.

End Saving.

(** X24: [handleSaveInvoice] never touches the saved invoices of another
    number and keeps distinct identifiers distinct; when the number was not
    saved yet or the overwrite is confirmed, the entry of that number is
    afterwards the new one; when the overwrite is declined the list is as
    before; the list grows by one exactly when the number was not saved yet.
    *)
Theorem saving_an_invoice
    (now : Z) (confirm : bool) (details : InvoiceDetails.t)
    (items : list LineItem) (currentSaved : list SavedInvoice.t) :
  let number := InvoiceDetails.number details in
  let isIt := fun s => SavedInvoice.id s =? number in
  let newSave := SavedInvoice.mk number now details items (calculateTotals items) in
  let saved := handleSaveInvoice now confirm details items currentSaved in
  filter (fun s => negb (isIt s)) saved =
    filter (fun s => negb (isIt s)) currentSaved /\
  (NoDup (map SavedInvoice.id currentSaved) -> NoDup (map SavedInvoice.id saved)) /\
  (find isIt currentSaved = None \/ confirm = true ->
   find isIt saved = Some newSave) /\
  (find isIt currentSaved <> None -> confirm = false -> saved = currentSaved) /\
  List.length saved =
    match find isIt currentSaved with
    | Some _ => List.length currentSaved
    | None => S (List.length currentSaved)
    end.
Proof.
  cbv zeta.
  split; [apply save_keeps_the_others|].
  split; [|split; [apply save_then_find|]].
  - unfold handleSaveInvoice.
    set (number := InvoiceDetails.number details).
    set (isIt := fun s => SavedInvoice.id s =? number).
    set (newSave := SavedInvoice.mk number now details items (calculateTotals items)).
    destruct (findIndex isIt currentSaved) as [k|] eqn:F.
    + destruct confirm; cbn [negb]; [|auto].
      now rewrite (@map_id_setAt currentSaved k newSave F).
    + intros N. rewrite map_app. cbn [map].
      apply NoDup_snoc; [exact N|].
      intros I. apply in_map_iff in I as (x & Ex & I).
      pose proof (findIndex_None isIt _ F x I) as Px. unfold isIt in Px.
      rewrite Ex, String.eqb_refl in Px. discriminate Px.
  - unfold handleSaveInvoice.
    set (number := InvoiceDetails.number details).
    set (isIt := fun s => SavedInvoice.id s =? number).
    set (newSave := SavedInvoice.mk number now details items (calculateTotals items)).
    destruct (findIndex isIt currentSaved) as [k|] eqn:F.
    + pose proof (findIndex_Some_find _ _ F) as Fd.
      destruct (find isIt currentSaved) as [old|]; [|contradiction].
      split; [intros _ ->; reflexivity|].
      destruct confirm; cbn [negb]; [apply length_setAt | reflexivity].
    + assert (Fd : find isIt currentSaved = None).
      { apply find_None_intro. intros x I. eapply findIndex_None; eauto. }
      rewrite Fd. split; [contradiction|].
      rewrite length_app. cbn [List.length]. lia.
Qed.

Lemma saving_an_invoice_witness :
  let details :=
    InvoiceDetails.mk "INV-20261103-001" "2026-11-03" "BM O'Hanlon Builders Ltd"
      "bmohanlonbuilders@gmail.com" "Residential Build" "Residential Build" in
  let old := SavedInvoice.mk "INV-20261103-001" 1 details [] (calculateTotals []) in
  find (fun s => SavedInvoice.id s =? "INV-20261103-001")
       (handleSaveInvoice 2 true details initialItems [old]) =
    Some (SavedInvoice.mk "INV-20261103-001" 2 details initialItems
            (calculateTotals initialItems)) /\
  handleSaveInvoice 2 false details initialItems [old] = [old].
Proof.
  cbv zeta.
  set (details :=
    InvoiceDetails.mk "INV-20261103-001" "2026-11-03" "BM O'Hanlon Builders Ltd"
      "bmohanlonbuilders@gmail.com" "Residential Build" "Residential Build").
  set (old := SavedInvoice.mk "INV-20261103-001" 1 details [] (calculateTotals [])).
  split.
  - apply (proj1 (proj2 (proj2 (saving_an_invoice 2 true details initialItems [old])))).
    now right.
  - apply (proj1 (proj2 (proj2 (proj2
             (saving_an_invoice 2 false details initialItems [old]))))).
    + discriminate.
    + reflexivity.
Defined.

Section LoadingFacts.

Variable Date_parse : string -> num.
Variable Date_toISOString : num -> string.

Let load := handleLoadInvoice Date_parse Date_toISOString.

Lemma figures_loaded (invoice : SavedInvoice.t)
    (current : InvoiceDetails.t * list LineItem) :
  map figures (snd (load true invoice current)) =
  map figures (SavedInvoice.items invoice).
Proof.
  unfold load, handleLoadInvoice. cbn [snd]. rewrite map_map. now apply map_ext.
Qed.

(** X25: The entry that [handleSaveInvoice] has written, loaded by
    [handleLoadInvoice], gives the form the figures and the descriptions
    that were saved, the dates normalised, totals equal to the totals stored
    with the entry, and the number saved; a declined load changes nothing.
    *)
Theorem loading_what_was_saved
    (now : Z) (confirm : bool) (details : InvoiceDetails.t)
    (items : list LineItem) (currentSaved : list SavedInvoice.t)
    (invoice : SavedInvoice.t) (current : InvoiceDetails.t * list LineItem) :
  find (fun s => SavedInvoice.id s =? InvoiceDetails.number details)
       currentSaved = None \/ confirm = true ->
  find (fun s => SavedInvoice.id s =? InvoiceDetails.number details)
       (handleSaveInvoice now confirm details items currentSaved) = Some invoice ->
  let loaded := load true invoice current in
  map figures (snd loaded) = map figures items /\
  map description (snd loaded) = map description items /\
  map date (snd loaded) =
    map (fun it => normalizeDateToISO Date_parse Date_toISOString (date it)) items /\
  calculateTotals (snd loaded) = SavedInvoice.totals invoice /\
  InvoiceDetails.number (fst loaded) = InvoiceDetails.number details /\
  load false invoice current = current.
Proof.
  intros H F. cbv zeta.
  rewrite (@save_then_find now confirm details items currentSaved H) in F.
  injection F as <-.
  split; [apply figures_loaded|].
  split; [unfold load, handleLoadInvoice; cbn [snd SavedInvoice.items];
          rewrite map_map; now apply map_ext|].
  split; [unfold load, handleLoadInvoice; cbn [snd SavedInvoice.items];
          rewrite map_map; now apply map_ext|].
  split; [|split; reflexivity].
  apply calculateTotals_ext, figures_loaded.
Qed.

End LoadingFacts.

Lemma loading_what_was_saved_witness :
  let details :=
    InvoiceDetails.mk "INV-20261103-001" "3/11/2026" "BM O'Hanlon Builders Ltd"
      "bmohanlonbuilders@gmail.com" "Residential Build" "Residential Build" in
  let items :=
    [mkItem "1" service "3/11/2026" "Residential Build"
       (VNum (ofZ 2)) (VNum (ofZ 65)) (ofZ 130)] in
  let invoice :=
    SavedInvoice.mk "INV-20261103-001" 7 details items (calculateTotals items) in
  let loaded :=
    handleLoadInvoice (fun _ => NaN) (fun _ => "") true invoice (details, []) in
  map figures (snd loaded) = map figures items /\
  map description (snd loaded) = map description items /\
  map date (snd loaded) =
    map (fun it => normalizeDateToISO (fun _ => NaN) (fun _ => "") (date it)) items /\
  calculateTotals (snd loaded) = SavedInvoice.totals invoice /\
  InvoiceDetails.number (fst loaded) = InvoiceDetails.number details /\
  handleLoadInvoice (fun _ => NaN) (fun _ => "") false invoice (details, []) =
    (details, []).
Proof.
  cbv zeta.
  apply (@loading_what_was_saved (fun _ => NaN) (fun _ => "") 7 false _ _ []).
  - now left.
  - reflexivity.
Defined.

(** X26: A confirmed [handleDeleteSaved] of a number leaves no entry of that
    number; after a [handleSaveInvoice] of that number it gives what it
    gives on the list of before, which is that list when the number was not
    saved; declined, it changes nothing. *)
Theorem deleting_a_saved_invoice
    (now : Z) (confirm : bool) (details : InvoiceDetails.t)
    (items : list LineItem) (currentSaved : list SavedInvoice.t) :
  let number := InvoiceDetails.number details in
  handleDeleteSaved true number
    (handleSaveInvoice now confirm details items currentSaved) =
    handleDeleteSaved true number currentSaved /\
  find (fun s => SavedInvoice.id s =? number)
       (handleDeleteSaved true number currentSaved) = None /\
  (find (fun s => SavedInvoice.id s =? number) currentSaved = None ->
   handleDeleteSaved true number
     (handleSaveInvoice now confirm details items currentSaved) = currentSaved) /\
  handleDeleteSaved false number currentSaved = currentSaved.
Proof.
  cbv zeta. unfold handleDeleteSaved.
  pose proof (@save_keeps_the_others now confirm details items currentSaved) as Fl.
  split; [exact Fl|]. split; [|split; [|reflexivity]].
  - apply find_None_intro. intros x I. apply filter_In in I as [_ I].
    now apply negb_true_iff in I.
  - intros N. rewrite Fl. clear Fl.
    induction currentSaved as [|y l IH]; [reflexivity|].
    cbn [find filter] in *.
    destruct (SavedInvoice.id y =? InvoiceDetails.number details); [discriminate|].
    cbn [negb]. f_equal. auto.
Qed.

Lemma deleting_a_saved_invoice_witness :
  let details :=
    InvoiceDetails.mk "INV-20261103-002" "2026-11-03" "BM O'Hanlon Builders Ltd"
      "bmohanlonbuilders@gmail.com" "Residential Build" "Residential Build" in
  let old :=
    SavedInvoice.mk "INV-20261103-001" 1 details [] (calculateTotals []) in
  handleDeleteSaved true "INV-20261103-002"
    (handleSaveInvoice 2 true details initialItems [old]) = [old].
Proof.
  cbv zeta.
  apply (proj1 (proj2 (proj2 (deleting_a_saved_invoice 2 true
           (InvoiceDetails.mk "INV-20261103-002" "2026-11-03"
              "BM O'Hanlon Builders Ltd" "bmohanlonbuilders@gmail.com"
              "Residential Build" "Residential Build")
           initialItems _)))).
  reflexivity.
Defined.

(** ** Retrying a call *)

Lemma backoff_S (delay : Z) (k : nat) :
  backoff delay (S k) = delay :: backoff (delay * 2) k.
Proof.
  unfold backoff. cbn [seq map]. f_equal; [cbn; lia|].
  rewrite <- seq_shift, map_map. apply map_ext. intros j.
  rewrite Nat2Z.inj_succ, Z.pow_succ_r by lia. lia.
Qed.

Lemma retry_success (T E : Type) (operation : nat -> T + E)
    (k : nat) : forall (attempt retries : nat) (delay : Z) (v : T),
  (k <= retries)%nat ->
  (forall j, (j < k)%nat -> exists e, operation (attempt + j)%nat = inr e) ->
  operation (attempt + k)%nat = inl v ->
  retryOperation operation attempt retries delay = (inl v, backoff delay k).
Proof.
  induction k as [|k IH]; intros attempt retries delay v Hk Hf Hs.
  - rewrite Nat.add_0_r in Hs. destruct retries; cbn [retryOperation];
      now rewrite Hs.
  - destruct retries as [|retries]; [lia|].
    destruct (Hf 0%nat ltac:(lia)) as [e He]. rewrite Nat.add_0_r in He.
    cbn [retryOperation]. rewrite He.
    rewrite (IH (S attempt) retries (delay * 2)%Z v); [| lia | |].
    + now rewrite backoff_S.
    + intros j Hj. destruct (Hf (S j) ltac:(lia)) as [e' He'].
      exists e'. now rewrite <- He', Nat.add_succ_r.
    + now rewrite <- Hs, Nat.add_succ_r.
Qed.

Lemma retry_failure (T E : Type) (operation : nat -> T + E)
    (retries : nat) : forall (attempt : nat) (delay : Z),
  (forall j, (j <= retries)%nat -> exists e, operation (attempt + j)%nat = inr e) ->
  exists e, operation (attempt + retries)%nat = inr e /\
    retryOperation operation attempt retries delay =
      (inr e, backoff delay retries).
Proof.
  induction retries as [|retries IH]; intros attempt delay Hf.
  - destruct (Hf 0%nat ltac:(lia)) as [e He]. exists e. split; [exact He|].
    rewrite Nat.add_0_r in He. cbn [retryOperation]. now rewrite He.
  - destruct (Hf 0%nat ltac:(lia)) as [e0 He0]. rewrite Nat.add_0_r in He0.
    destruct (IH (S attempt) (delay * 2)%Z) as (e & He & R).
    { intros j Hj. destruct (Hf (S j) ltac:(lia)) as [e' He'].
      exists e'. now rewrite <- He', Nat.add_succ_r. }
    exists e. split; [now rewrite <- He, Nat.add_succ_r|].
    cbn [retryOperation]. rewrite He0, R. now rewrite backoff_S.
Qed.

(** X27: [retryOperation] returns the first success among the first [retries
    + 1] calls, after waiting [delay], [2 * delay], [4 * delay], ... once
    for each failure before it; when all of these calls fail it throws the
    error of the last one, after [retries] delays. *)
Theorem retryOperation_schedule (T E : Type) (operation : nat -> T + E)
    (attempt retries : nat) (delay : Z) :
  (forall (k : nat) (v : T),
     (k <= retries)%nat ->
     (forall j, (j < k)%nat -> exists e, operation (attempt + j)%nat = inr e) ->
     operation (attempt + k)%nat = inl v ->
     retryOperation operation attempt retries delay = (inl v, backoff delay k)) /\
  ((forall j, (j <= retries)%nat ->
      exists e, operation (attempt + j)%nat = inr e) ->
   exists e, operation (attempt + retries)%nat = inr e /\
     retryOperation operation attempt retries delay =
       (inr e, backoff delay retries)).
Proof.
  split.
  - intros k v. apply retry_success.
  - apply retry_failure.
Qed.

Lemma retryOperation_schedule_witness :
  retryOperation
    (fun k => if (k <? 2)%nat then inr "503" else inl [ofZ 130]) 0 3 1000 =
    (inl [ofZ 130], [1000; 2000]%Z) /\
  exists e, (fun _ : nat => @inr (list num) string "503") (0 + 3)%nat = inr e /\
    retryOperation (fun _ : nat => @inr (list num) string "503") 0 3 1000 =
      (inr e, [1000; 2000; 4000]%Z).
Proof.
  split.
  - apply (proj1 (retryOperation_schedule
             (fun k => if (k <? 2)%nat then inr "503" else inl [ofZ 130]) 0 3 1000)
             2%nat [ofZ 130]).
    + lia.
    + intros j Hj. exists "503". cbn.
      destruct j as [|[|j]]; [reflexivity | reflexivity | lia].
    + reflexivity.
  - apply (proj2 (retryOperation_schedule
             (fun _ : nat => @inr (list num) string "503") 0 3 1000)).
    intros j _. now exists "503".
Defined.

(** ** One invoice per item *)

Lemma safe_char (c : ascii) :
  isSafeChar (Str.lowerChar (if isAlnum c then c else "_"%char)) = true.
Proof. destruct c as [[] [] [] [] [] [] [] []]; reflexivity. Qed.

Lemma length_toLowerCase (s : string) :
  String.length (Str.toLowerCase s) = String.length s.
Proof. induction s; cbn; auto. Qed.

Lemma length_replaceUnsafe (s : string) :
  String.length (replaceUnsafe s) = String.length s.
Proof. induction s; cbn; auto. Qed.

Lemma length_substring_0 (n : nat) (s : string) :
  String.length (String.substring 0 n s) = Nat.min n (String.length s).
Proof.
  revert s; induction n as [|n IH]; intros [|c s]; cbn; auto.
Qed.

Lemma allChars_safe (s : string) :
  allChars isSafeChar (Str.toLowerCase (replaceUnsafe s)) = true.
Proof.
  induction s as [|c s IH]; [reflexivity|].
  cbn [replaceUnsafe Str.toLowerCase allChars]. now rewrite safe_char, IH.
Qed.

(** X28: The description part of the name of a split file is made of
    lower-case letters, digits and underscores only, and has the length of
    the description, 20 at most. *)
Theorem the_name_of_a_split_file_is_safe (item : LineItem) :
  allChars isSafeChar (safeDesc item) = true /\
  String.length (safeDesc item) = Nat.min 20 (String.length (description item)).
Proof.
  unfold safeDesc. split; [apply allChars_safe|].
  now rewrite length_toLowerCase, length_replaceUnsafe, length_substring_0.
Qed.

(** Digits before an underscore are determined by the whole. *)
Lemma digits_before_underscore (a b r1 r2 : string) :
  Str.allDigits a = true -> Str.allDigits b = true ->
  a ++ String "_" r1 = b ++ String "_" r2 -> a = b.
Proof.
  revert b. induction a as [|x a IH]; intros [|y b] Da Db H; cbn [append] in H.
  - reflexivity.
  - injection H as <- _. cbn in Db. discriminate Db.
  - injection H as -> _. cbn in Da. discriminate Da.
  - injection H as -> H. f_equal.
    cbn [Str.allDigits] in Da, Db.
    apply andb_true_iff in Da as [_ Da]. apply andb_true_iff in Db as [_ Db].
    eauto.
Qed.

Lemma string_app_assoc (a b c : string) : (a ++ b) ++ c = a ++ b ++ c.
Proof. induction a as [|x a IH]; cbn [append]; [|rewrite IH]; reflexivity. Qed.

Lemma fileName_index (details : InvoiceDetails.t) (j k : nat) (x y : LineItem) :
  fileName (splitInvoice details j x) = fileName (splitInvoice details k y) ->
  j = k.
Proof.
  unfold splitInvoice. cbn [fileName InvoiceDetails.number].
  rewrite !string_app_assoc. intros H. apply append_inj in H.
  cbn [append] in H. injection H as H.
  apply digits_before_underscore in H;
    try (apply allDigits_padStart, allDigits_showNat).
  apply (f_equal parseInt) in H.
  rewrite !parseInt_padStart, !parseInt_showNat in H. lia.
Qed.

Lemma mapFrom_index (A B : Type) (f : nat -> A -> B) (l : list A) (k : nat) (y : B) :
  In y (mapFrom f k l) -> exists j x, (k <= j)%nat /\ In x l /\ y = f j x.
Proof.
  revert k. induction l as [|x l IH]; intros k; cbn [mapFrom]; [intros []|].
  intros [<- | I].
  - exists k, x. split; [lia|]. split; [now left | reflexivity].
  - destruct (IH _ I) as (j & x' & L & I' & E). exists j, x'.
    split; [lia|]. split; [now right | exact E].
Qed.

Lemma map_mapFrom (A B C : Type) (g : B -> C) (f : nat -> A -> B)
    (l : list A) (k : nat) :
  map g (mapFrom f k l) = mapFrom (fun j x => g (f j x)) k l.
Proof. revert k; induction l as [|x l IH]; intros k; cbn; [|rewrite IH]; auto. Qed.

Lemma mapFrom_const (A B : Type) (g : A -> B) (l : list A) (k : nat) :
  mapFrom (fun _ x => g x) k l = map g l.
Proof. revert k; induction l as [|x l IH]; intros k; cbn; [|rewrite IH]; auto. Qed.

(** X29: [handleDownloadSplitPDF] gives the files of the archive pairwise
    different names, so that none replaces another; the file of an item
    holds that item alone, with the totals of that item alone. *)
Theorem split_invoices_do_not_replace_each_other
    (details : InvoiceDetails.t) (items : list LineItem) :
  let files := handleDownloadSplitPDF details items in
  NoDup (map fileName files) /\
  map splitItems files = map (fun item => [item]) items /\
  map splitTotals files = map (fun item => calculateTotals [item]) items.
Proof.
  cbv zeta. unfold handleDownloadSplitPDF. split; [|split].
  - generalize 0%nat. induction items as [|x l IH]; intros k; cbn [mapFrom map].
    + constructor.
    + constructor; [|apply IH].
      intros I. apply in_map_iff in I as (s & E & I).
      apply mapFrom_index in I as (j & y & L & _ & ->).
      apply fileName_index in E. lia.
  - rewrite map_mapFrom. cbn [splitInvoice splitItems]. apply mapFrom_const.
  - rewrite map_mapFrom. cbn [splitInvoice splitTotals]. apply mapFrom_const.
Qed.
